(** * YUNIDA20 MIX: the deck transport clock, tap tempo and BPM detection

    A shallow embedding of [hooks/useDeckAudio.ts] and of the BPM
    detector ([detectBpm]) and the properties their specification states,
    followed by the application's keyboard and sync handlers, the drag
    hooks of the controls, the deck's time display and scrubbing, and the
    mixer's crossfader.

    Numbers.  A JavaScript number is modelled as an exact rational ([Q]):
    [+], [-], [*] and [/] by a non-zero divisor are the field operations,
    [%] is the truncated remainder, [Math.round] rounds half up.  Rounding
    error, NaN and the signed zero are outside this model; the one place
    where the code can divide by zero ([tapBpm]) is modelled with an explicit
    infinite value.  Time stamps of [Date.now()] are integers ([Z]).  Where
    the rounding of binary64 decides a result the exact model cannot show
    (a tempo tapped to an exact half-way value), the code's arithmetic is
    transcribed on the kernel's binary64 numbers ([Binary64]).  The
    crossfader curves and the filter sweep, which use [Math.cos] and
    [Math.pow], are modelled on the real numbers ([R]). *)

From Stdlib Require Import QArith Qround Qabs ZArith Lia Lqa Bool List String.
From Stdlib Require Reals Qreals Lra Floats.
From stdpp Require Import base option list gmap strings pretty.
Import ListNotations.

Local Open Scope Q_scope.

(* ===================================================================== *)
(** ** JavaScript arithmetic on rationals                                 *)
(* ===================================================================== *)

Module JsNum.

(** [a < b] as a boolean. *)
Definition ltb (a b : Q) : bool := negb (Qle_bool b a).

(** Rounding toward zero, the integer part used by [%]. *)
Definition trunc (a : Q) : Z := Z.quot (Qnum a) (Zpos (Qden a)).

(** [a % b] for [b <> 0]: the remainder has the sign of the dividend. *)
Definition rem (a b : Q) : Q := a - b * inject_Z (trunc (a / b)).

(** [Math.round]: the nearest integer, halves toward plus infinity. *)
Definition round (a : Q) : Z := Qfloor (a + (1 # 2)).

(** [Math.floor], [Math.abs], [Math.min]. *)
Definition floor (a : Q) : Z := Qfloor a.
Definition abs (a : Q) : Q := Qabs a.
Definition min (a b : Q) : Q := if ltb b a then b else a.

End JsNum.

(* ===================================================================== *)
(** ** The sample clock: position from an anchor, wrapped into the track  *)
(* ===================================================================== *)

Module SampleClock.

(** [while (p < 0) p += duration;] with an iteration budget: [None] when
    the budget is used up before the loop exits. *)
Fixpoint wrap_negative (fuel : nat) (d p : Q) : option Q :=
  if JsNum.ltb p 0 then
    match fuel with
    | O => None
    | S fuel' => wrap_negative fuel' d (p + d)
    end
  else Some p.

(** [if (duration > 0) { while (p < 0) p += duration; p = p % duration; }] *)
Definition normalize (fuel : nat) (d p : Q) : option Q :=
  if JsNum.ltb 0 d then
    p' ← wrap_negative fuel d p; Some (JsNum.rem p' d)
  else Some p.

(** [anchor + elapsed * rate], the position before normalisation. *)
Definition advance (p0 t0 r t : Q) : Q := p0 + (t - t0) * r.

(** The position at wall-clock time [t] for anchor [(p0, t0)], rate [r]. *)
Definition position (fuel : nat) (d p0 t0 r t : Q) : option Q :=
  normalize fuel d (advance p0 t0 r t).

(** The number of loop iterations that suffices for [p]. *)
Definition budget (d p : Q) : nat := Z.to_nat (Qceiling (- p / d)).

End SampleClock.

(* ===================================================================== *)
(** ** The Web Audio objects the code reads and writes                    *)
(* ===================================================================== *)

Module WebAudio.

(** A decoded [AudioBuffer]: its [duration], its [sampleRate] and the
    samples of [getChannelData(0)]. *)
Record AudioBuffer := mkBuffer {
  buf_duration : Q;
  buf_sampleRate : Q;
  buf_channel0 : list Q
}.

(** What [play] configures on the [AudioBufferSourceNode] it starts:
    [playbackRate.value], [loop] and the offset given to [start]. *)
Record SourceNode := mkSource {
  src_playbackRate : Q;
  src_loop : bool;
  src_offset : Q
}.

End WebAudio.

(* ===================================================================== *)
(** ** The deck: React state, refs and the handlers of [useDeckAudio]     *)
(* ===================================================================== *)

Module Deck.
Export WebAudio.

Inductive FXType := NONE | ECHO | REVERB | FLANGER.

(** The [bpm] state.  [tapBpm] divides by the mean tap interval without
    a guard, so the value can be JavaScript's [Infinity]. *)
Inductive Tempo := Bpm (q : Q) | BpmInfinity.

(** The [useState] values, then the [useRef] cells ([...Ref]).
    [audioContextRef] and [sourceNodeRef] record whether the ref holds an
    object; [audioContextRef] is filled by the mount effect. *)
Record Deck := mkDeck {
  isPlaying : bool;
  isLooping : bool;
  isReverse : bool;
  duration : Q;
  currentTime : Q;
  pitch : Q;
  bend : Q;
  syncRate : Q;
  isWidePitch : bool;
  hotCues : list (option Q);
  isLoaded : bool;
  fileName : option string;
  bpm : Tempo;
  isBpmAnalyzing : bool;
  audioBuffer : option AudioBuffer;
  activeFX : FXType;
  fxWet : Q;
  audioContextRef : bool;
  sourceNodeRef : option SourceNode;
  tapTimesRef : list Z;
  startTimeRef : Q;
  pauseTimeRef : Q;
  lastPlaybackRateRef : Q
}.

(** The hook's state after the mount effect, before any command. *)
Definition initial : Deck :=
  mkDeck false false false 0 0 1 0 1 false [None; None; None]
    false None (Bpm 128) false None NONE 0 true None [] 0 0 1.

Definition setIsPlaying (v : bool) (s : Deck) : Deck :=
  mkDeck v (isLooping s) (isReverse s) (duration s) (currentTime s)
    (pitch s) (bend s) (syncRate s) (isWidePitch s) (hotCues s)
    (isLoaded s) (fileName s) (bpm s) (isBpmAnalyzing s) (audioBuffer s)
    (activeFX s) (fxWet s) (audioContextRef s) (sourceNodeRef s)
    (tapTimesRef s) (startTimeRef s) (pauseTimeRef s)
    (lastPlaybackRateRef s).

Definition setIsLooping (v : bool) (s : Deck) : Deck :=
  mkDeck (isPlaying s) v (isReverse s) (duration s) (currentTime s)
    (pitch s) (bend s) (syncRate s) (isWidePitch s) (hotCues s)
    (isLoaded s) (fileName s) (bpm s) (isBpmAnalyzing s) (audioBuffer s)
    (activeFX s) (fxWet s) (audioContextRef s) (sourceNodeRef s)
    (tapTimesRef s) (startTimeRef s) (pauseTimeRef s)
    (lastPlaybackRateRef s).

Definition setIsReverse (v : bool) (s : Deck) : Deck :=
  mkDeck (isPlaying s) (isLooping s) v (duration s) (currentTime s)
    (pitch s) (bend s) (syncRate s) (isWidePitch s) (hotCues s)
    (isLoaded s) (fileName s) (bpm s) (isBpmAnalyzing s) (audioBuffer s)
    (activeFX s) (fxWet s) (audioContextRef s) (sourceNodeRef s)
    (tapTimesRef s) (startTimeRef s) (pauseTimeRef s)
    (lastPlaybackRateRef s).

Definition setDuration (v : Q) (s : Deck) : Deck :=
  mkDeck (isPlaying s) (isLooping s) (isReverse s) v (currentTime s)
    (pitch s) (bend s) (syncRate s) (isWidePitch s) (hotCues s)
    (isLoaded s) (fileName s) (bpm s) (isBpmAnalyzing s) (audioBuffer s)
    (activeFX s) (fxWet s) (audioContextRef s) (sourceNodeRef s)
    (tapTimesRef s) (startTimeRef s) (pauseTimeRef s)
    (lastPlaybackRateRef s).

Definition setCurrentTime (v : Q) (s : Deck) : Deck :=
  mkDeck (isPlaying s) (isLooping s) (isReverse s) (duration s) v
    (pitch s) (bend s) (syncRate s) (isWidePitch s) (hotCues s)
    (isLoaded s) (fileName s) (bpm s) (isBpmAnalyzing s) (audioBuffer s)
    (activeFX s) (fxWet s) (audioContextRef s) (sourceNodeRef s)
    (tapTimesRef s) (startTimeRef s) (pauseTimeRef s)
    (lastPlaybackRateRef s).

Definition setPitch (v : Q) (s : Deck) : Deck :=
  mkDeck (isPlaying s) (isLooping s) (isReverse s) (duration s)
    (currentTime s) v (bend s) (syncRate s) (isWidePitch s) (hotCues s)
    (isLoaded s) (fileName s) (bpm s) (isBpmAnalyzing s) (audioBuffer s)
    (activeFX s) (fxWet s) (audioContextRef s) (sourceNodeRef s)
    (tapTimesRef s) (startTimeRef s) (pauseTimeRef s)
    (lastPlaybackRateRef s).

Definition setBend (v : Q) (s : Deck) : Deck :=
  mkDeck (isPlaying s) (isLooping s) (isReverse s) (duration s)
    (currentTime s) (pitch s) v (syncRate s) (isWidePitch s) (hotCues s)
    (isLoaded s) (fileName s) (bpm s) (isBpmAnalyzing s) (audioBuffer s)
    (activeFX s) (fxWet s) (audioContextRef s) (sourceNodeRef s)
    (tapTimesRef s) (startTimeRef s) (pauseTimeRef s)
    (lastPlaybackRateRef s).

Definition setSyncRate (v : Q) (s : Deck) : Deck :=
  mkDeck (isPlaying s) (isLooping s) (isReverse s) (duration s)
    (currentTime s) (pitch s) (bend s) v (isWidePitch s) (hotCues s)
    (isLoaded s) (fileName s) (bpm s) (isBpmAnalyzing s) (audioBuffer s)
    (activeFX s) (fxWet s) (audioContextRef s) (sourceNodeRef s)
    (tapTimesRef s) (startTimeRef s) (pauseTimeRef s)
    (lastPlaybackRateRef s).

Definition setIsWidePitch (v : bool) (s : Deck) : Deck :=
  mkDeck (isPlaying s) (isLooping s) (isReverse s) (duration s)
    (currentTime s) (pitch s) (bend s) (syncRate s) v (hotCues s)
    (isLoaded s) (fileName s) (bpm s) (isBpmAnalyzing s) (audioBuffer s)
    (activeFX s) (fxWet s) (audioContextRef s) (sourceNodeRef s)
    (tapTimesRef s) (startTimeRef s) (pauseTimeRef s)
    (lastPlaybackRateRef s).

Definition setHotCues (v : list (option Q)) (s : Deck) : Deck :=
  mkDeck (isPlaying s) (isLooping s) (isReverse s) (duration s)
    (currentTime s) (pitch s) (bend s) (syncRate s) (isWidePitch s) v
    (isLoaded s) (fileName s) (bpm s) (isBpmAnalyzing s) (audioBuffer s)
    (activeFX s) (fxWet s) (audioContextRef s) (sourceNodeRef s)
    (tapTimesRef s) (startTimeRef s) (pauseTimeRef s)
    (lastPlaybackRateRef s).

Definition setIsLoaded (v : bool) (s : Deck) : Deck :=
  mkDeck (isPlaying s) (isLooping s) (isReverse s) (duration s)
    (currentTime s) (pitch s) (bend s) (syncRate s) (isWidePitch s)
    (hotCues s) v (fileName s) (bpm s) (isBpmAnalyzing s) (audioBuffer s)
    (activeFX s) (fxWet s) (audioContextRef s) (sourceNodeRef s)
    (tapTimesRef s) (startTimeRef s) (pauseTimeRef s)
    (lastPlaybackRateRef s).

Definition setFileName (v : option string) (s : Deck) : Deck :=
  mkDeck (isPlaying s) (isLooping s) (isReverse s) (duration s)
    (currentTime s) (pitch s) (bend s) (syncRate s) (isWidePitch s)
    (hotCues s) (isLoaded s) v (bpm s) (isBpmAnalyzing s) (audioBuffer s)
    (activeFX s) (fxWet s) (audioContextRef s) (sourceNodeRef s)
    (tapTimesRef s) (startTimeRef s) (pauseTimeRef s)
    (lastPlaybackRateRef s).

Definition setBpm (v : Tempo) (s : Deck) : Deck :=
  mkDeck (isPlaying s) (isLooping s) (isReverse s) (duration s)
    (currentTime s) (pitch s) (bend s) (syncRate s) (isWidePitch s)
    (hotCues s) (isLoaded s) (fileName s) v (isBpmAnalyzing s)
    (audioBuffer s) (activeFX s) (fxWet s) (audioContextRef s)
    (sourceNodeRef s) (tapTimesRef s) (startTimeRef s) (pauseTimeRef s)
    (lastPlaybackRateRef s).

Definition setIsBpmAnalyzing (v : bool) (s : Deck) : Deck :=
  mkDeck (isPlaying s) (isLooping s) (isReverse s) (duration s)
    (currentTime s) (pitch s) (bend s) (syncRate s) (isWidePitch s)
    (hotCues s) (isLoaded s) (fileName s) (bpm s) v (audioBuffer s)
    (activeFX s) (fxWet s) (audioContextRef s) (sourceNodeRef s)
    (tapTimesRef s) (startTimeRef s) (pauseTimeRef s)
    (lastPlaybackRateRef s).

Definition setAudioBuffer (v : option AudioBuffer) (s : Deck) : Deck :=
  mkDeck (isPlaying s) (isLooping s) (isReverse s) (duration s)
    (currentTime s) (pitch s) (bend s) (syncRate s) (isWidePitch s)
    (hotCues s) (isLoaded s) (fileName s) (bpm s) (isBpmAnalyzing s) v
    (activeFX s) (fxWet s) (audioContextRef s) (sourceNodeRef s)
    (tapTimesRef s) (startTimeRef s) (pauseTimeRef s)
    (lastPlaybackRateRef s).

Definition setActiveFX (v : FXType) (s : Deck) : Deck :=
  mkDeck (isPlaying s) (isLooping s) (isReverse s) (duration s)
    (currentTime s) (pitch s) (bend s) (syncRate s) (isWidePitch s)
    (hotCues s) (isLoaded s) (fileName s) (bpm s) (isBpmAnalyzing s)
    (audioBuffer s) v (fxWet s) (audioContextRef s) (sourceNodeRef s)
    (tapTimesRef s) (startTimeRef s) (pauseTimeRef s)
    (lastPlaybackRateRef s).

Definition setFxWet (v : Q) (s : Deck) : Deck :=
  mkDeck (isPlaying s) (isLooping s) (isReverse s) (duration s)
    (currentTime s) (pitch s) (bend s) (syncRate s) (isWidePitch s)
    (hotCues s) (isLoaded s) (fileName s) (bpm s) (isBpmAnalyzing s)
    (audioBuffer s) (activeFX s) v (audioContextRef s) (sourceNodeRef s)
    (tapTimesRef s) (startTimeRef s) (pauseTimeRef s)
    (lastPlaybackRateRef s).

Definition setSourceNodeRef (v : option SourceNode) (s : Deck) : Deck :=
  mkDeck (isPlaying s) (isLooping s) (isReverse s) (duration s)
    (currentTime s) (pitch s) (bend s) (syncRate s) (isWidePitch s)
    (hotCues s) (isLoaded s) (fileName s) (bpm s) (isBpmAnalyzing s)
    (audioBuffer s) (activeFX s) (fxWet s) (audioContextRef s) v
    (tapTimesRef s) (startTimeRef s) (pauseTimeRef s)
    (lastPlaybackRateRef s).

Definition setTapTimesRef (v : list Z) (s : Deck) : Deck :=
  mkDeck (isPlaying s) (isLooping s) (isReverse s) (duration s)
    (currentTime s) (pitch s) (bend s) (syncRate s) (isWidePitch s)
    (hotCues s) (isLoaded s) (fileName s) (bpm s) (isBpmAnalyzing s)
    (audioBuffer s) (activeFX s) (fxWet s) (audioContextRef s)
    (sourceNodeRef s) v (startTimeRef s) (pauseTimeRef s)
    (lastPlaybackRateRef s).

Definition setStartTimeRef (v : Q) (s : Deck) : Deck :=
  mkDeck (isPlaying s) (isLooping s) (isReverse s) (duration s)
    (currentTime s) (pitch s) (bend s) (syncRate s) (isWidePitch s)
    (hotCues s) (isLoaded s) (fileName s) (bpm s) (isBpmAnalyzing s)
    (audioBuffer s) (activeFX s) (fxWet s) (audioContextRef s)
    (sourceNodeRef s) (tapTimesRef s) v (pauseTimeRef s)
    (lastPlaybackRateRef s).

Definition setPauseTimeRef (v : Q) (s : Deck) : Deck :=
  mkDeck (isPlaying s) (isLooping s) (isReverse s) (duration s)
    (currentTime s) (pitch s) (bend s) (syncRate s) (isWidePitch s)
    (hotCues s) (isLoaded s) (fileName s) (bpm s) (isBpmAnalyzing s)
    (audioBuffer s) (activeFX s) (fxWet s) (audioContextRef s)
    (sourceNodeRef s) (tapTimesRef s) (startTimeRef s) v
    (lastPlaybackRateRef s).

Definition setLastPlaybackRateRef (v : Q) (s : Deck) : Deck :=
  mkDeck (isPlaying s) (isLooping s) (isReverse s) (duration s)
    (currentTime s) (pitch s) (bend s) (syncRate s) (isWidePitch s)
    (hotCues s) (isLoaded s) (fileName s) (bpm s) (isBpmAnalyzing s)
    (audioBuffer s) (activeFX s) (fxWet s) (audioContextRef s)
    (sourceNodeRef s) (tapTimesRef s) (startTimeRef s) (pauseTimeRef s) v.

(** [const playbackRate = (pitch + bend + (syncRate - 1)) * (isReverse ? -1 : 1)] *)
Definition playbackRate (s : Deck) : Q :=
  (pitch s + bend s + (syncRate s - 1)) * (if isReverse s then -1 else 1).

(** [setSpeed], [setBendAmount] and [toggleReverse] as the hook exports
    them; [setSyncRate] is internal to the hook. *)
Definition setSpeed := setPitch.
Definition setBendAmount := setBend.
Definition toggleReverse (s : Deck) : Deck := setIsReverse (negb (isReverse s)) s.
Definition toggleLoop (s : Deck) : Deck :=
  let s1 := setIsLooping (negb (isLooping s)) s in
  match sourceNodeRef s with
  | Some src =>
      setSourceNodeRef
        (Some (mkSource (src_playbackRate src) (negb (isLooping s)) (src_offset src))) s1
  | None => s1
  end.
Definition toggleWidePitch (s : Deck) : Deck := setIsWidePitch (negb (isWidePitch s)) s.

(** The effect with dependencies [[playbackRate, duration, isPlaying]]:
    re-anchor the clock with the previous rate, then remember the rate. *)
Definition rateEffect (fuel : nat) (now : Q) (s : Deck) : option Deck :=
  match isPlaying s && audioContextRef s, sourceNodeRef s with
  | true, Some src =>
      let prevRate := lastPlaybackRateRef s in
      let elapsed := now - startTimeRef s in
      newPos ← SampleClock.normalize fuel (duration s)
                 (pauseTimeRef s + elapsed * prevRate);
      Some (setLastPlaybackRateRef (playbackRate s)
             (setSourceNodeRef
                (Some (mkSource (playbackRate s) (src_loop src) (src_offset src)))
                (setStartTimeRef now (setPauseTimeRef newPos s))))
  | _, _ => Some (setLastPlaybackRateRef (playbackRate s) s)
  end.

(** Whether a dependency of [rateEffect] differs between two renders. *)
Definition depsChanged (old new : Deck) : bool :=
  negb (Qeq_bool (playbackRate old) (playbackRate new)
        && Qeq_bool (duration old) (duration new)
        && Bool.eqb (isPlaying old) (isPlaying new)).

(** The render that follows a handler: the re-anchoring effect runs when
    a dependency changed since the previous render.  The display effect
    has the same dependencies and then calls [updateLoop] at once: that
    call is a display tick of its own here ([updateLoop], [reported]), so
    the displayed position of a state is the one before that tick. *)
Definition commit (fuel : nat) (now : Q) (old new : Deck) : option Deck :=
  if depsChanged old new then rateEffect fuel now new else Some new.

(** [play], at [audioContext.currentTime = now]. *)
Definition play (now : Q) (s : Deck) : Deck :=
  match audioContextRef s, audioBuffer s with
  | true, Some buf =>
      let offset := JsNum.rem (pauseTimeRef s) (buf_duration buf) in
      let startOffset :=
        if JsNum.ltb offset 0 then buf_duration buf + offset else offset in
      setIsPlaying true
        (setSourceNodeRef (Some (mkSource (playbackRate s) (isLooping s) startOffset))
           (setStartTimeRef (now - startOffset) s))
  | _, _ => s
  end.

(** [pause], at [audioContext.currentTime = now]. *)
Definition pause (fuel : nat) (now : Q) (s : Deck) : option Deck :=
  match sourceNodeRef s, isPlaying s && audioContextRef s with
  | Some _, true =>
      let elapsed := now - startTimeRef s in
      newPos ← SampleClock.normalize fuel (duration s)
                 (pauseTimeRef s + elapsed * playbackRate s);
      Some (setIsPlaying false (setPauseTimeRef newPos (setSourceNodeRef None s)))
  | _, _ => Some s
  end.

Definition togglePlay (fuel : nat) (now : Q) (s : Deck) : option Deck :=
  if isPlaying s then pause fuel now s else Some (play now s).

(** [seek(time)].  [pause] and [play] run in the closure of one render:
    [play] sees the refs [pause] wrote and the state values of that
    render; the two [setIsPlaying] calls are batched, the last one wins. *)
Definition seek (fuel : nat) (now : Q) (time : Q) (s : Deck) : option Deck :=
  let wasPlaying := isPlaying s in
  s1 ← (if wasPlaying then pause fuel now s else Some s);
  let s2 := setCurrentTime time (setPauseTimeRef time s1) in
  Some (if wasPlaying then play now s2 else s2).

(** One turn of [updateLoop], the display tick. *)
Definition updateLoop (fuel : nat) (now : Q) (s : Deck) : option Deck :=
  if isPlaying s && audioContextRef s then
    let elapsed := now - startTimeRef s in
    calculatedTime ← SampleClock.normalize fuel (duration s)
                       (pauseTimeRef s + elapsed * playbackRate s);
    Some (setCurrentTime calculatedTime s)
  else if negb (isPlaying s) then Some (setCurrentTime (pauseTimeRef s) s)
  else Some s.

(** [syncToBpm(targetBpm)]; [targetBpm / Infinity] is [0]. *)
Definition syncToBpm (targetBpm : Q) (s : Deck) : Deck :=
  match bpm s with
  | Bpm b =>
      if Qeq_bool b 0 then s
      else let ratio := targetBpm / b in setPitch 1 (setSyncRate ratio s)
  | BpmInfinity => setPitch 1 (setSyncRate 0 s)
  end.

(** The differences [times[i] - times[i-1]] for [i = 1 .. length - 1]. *)
Fixpoint intervals (times : list Z) : list Z :=
  match times with
  | a :: (b :: _) as rest => (b - a)%Z :: intervals rest
  | _ => []
  end.

(** [Math.round(newBpm * 10) / 10] for [newBpm = 60000 / avgInterval], in
    exact arithmetic.  The code's binary64 result ([Binary64.tapTempo]) is
    the same tenth unless [newBpm * 10] is exactly half-way between two
    whole numbers, where the binary64 product can fall below the half. *)
Definition tapTempo (times : list Z) : Tempo :=
  let ivs := intervals times in
  let total := fold_left Z.add ivs 0%Z in
  let avgInterval := inject_Z total / inject_Z (Z.of_nat (length ivs)) in
  if Qeq_bool avgInterval 0 then BpmInfinity
  else
    let newBpm := 60000 / avgInterval in
    Bpm (inject_Z (JsNum.round (newBpm * 10)) / 10).

(** [tapBpm], at [Date.now() = now].  [times] aliases the array held by
    [tapTimesRef], so [push] and [shift] update the ref. *)
Definition tapBpm (now : Z) (s : Deck) : Deck :=
  let times := tapTimesRef s in
  let stale :=
    match last times with
    | Some t => (2000 <? now - t)%Z
    | None => false
    end in
  if stale then setTapTimesRef [now] s
  else
    let pushed := times ++ [now] in
    let times' := if (4 <? length pushed)%nat then tail pushed else pushed in
    let s1 := setTapTimesRef times' s in
    if (2 <=? length times')%nat then setBpm (tapTempo times') s1 else s1.

(** [loadFile] up to the first [await]. *)
Definition loadFile_begin (name : string) (s : Deck) : Deck :=
  setIsBpmAnalyzing true (setBpm (Bpm 128) (setFileName (Some name) (setIsPlaying false s))).

(** [loadFile] after a successful decode, up to the start of the BPM
    analysis. *)
Definition loadFile_decoded (decodedBuffer : AudioBuffer) (s : Deck) : Deck :=
  setLastPlaybackRateRef 1
    (setIsReverse false
      (setSyncRate 1
        (setHotCues [None; None; None]
          (setPauseTimeRef 0
            (setCurrentTime 0
              (setIsLoaded true
                (setDuration (buf_duration decodedBuffer)
                  (setAudioBuffer (Some decodedBuffer) s)))))))).

(** [loadFile] when decoding throws. *)
Definition loadFile_failed (s : Deck) : Deck := setIsBpmAnalyzing false s.

(** [loadFile(file)] with the renders between its steps, until the BPM
    analysis is pending ([decoded = None]: decoding failed), when nothing
    else happens to the deck while the file is read and decoded.  The two
    halves with other commands in between are [Transport.LoadStart] and
    [Transport.LoadSettle]. *)
Definition loadFile (fuel : nat) (now : Q) (name : string)
    (decoded : option AudioBuffer) (s : Deck) : option Deck :=
  if audioContextRef s then
    s1 ← commit fuel now s (loadFile_begin name s);
    match decoded with
    | Some buf => commit fuel now s1 (loadFile_decoded buf s1)
    | None => commit fuel now s1 (loadFile_failed s1)
    end
  else Some s.

(** The analysis resolved with [detectedBpm]. *)
Definition bpmDetected (detectedBpm : Z) (s : Deck) : Deck :=
  setIsBpmAnalyzing false (setBpm (Bpm (inject_Z detectedBpm)) s).

(** A handler followed by its render. *)
Definition dispatch (fuel : nat) (now : Q) (handler : Deck -> option Deck)
    (s : Deck) : option Deck :=
  s' ← handler s; commit fuel now s s'.

(** The position the display tick reports at time [now]. *)
Definition reported (fuel : nat) (now : Q) (s : Deck) : option Q :=
  currentTime <$> updateLoop fuel now s.

(** A run of [tapBpm] calls at the given [Date.now()] values. *)
Definition taps (stamps : list Z) (s : Deck) : Deck :=
  fold_left (fun s now => tapBpm now s) stamps s.

(** A deck that plays: transport on, context and source present. *)
Definition playing (s : Deck) : Prop :=
  0 < duration s /\ isPlaying s = true /\ audioContextRef s = true /\
  is_Some (sourceNodeRef s).

(** The position of the clock of [s] at time [t], not yet wrapped. *)
Definition unwrapped (s : Deck) (t : Q) : Q :=
  pauseTimeRef s + (t - startTimeRef s) * playbackRate s.

End Deck.

(* ===================================================================== *)
(** ** The arithmetic of [tapBpm] on binary64 numbers                     *)
(* ===================================================================== *)

(** The three lines of [tapBpm] that compute the tempo, operation for
    operation on IEEE 754 binary64 numbers (the kernel's [float]).  Time
    stamps are integers below [2 ^ 53] in magnitude, which binary64 holds
    exactly. *)
Module Binary64.

(** An integer as a number. *)
Definition ofZ (z : Z) : PrimFloat.float :=
  match z with
  | Z0 => PrimFloat.of_uint63 (Uint63.of_Z 0)
  | Zpos _ => PrimFloat.of_uint63 (Uint63.of_Z z)
  | Zneg p => PrimFloat.opp (PrimFloat.of_uint63 (Uint63.of_Z (Zpos p)))
  end.

(** The rational a finite number stands for. *)
Definition toQ (x : PrimFloat.float) : option Q :=
  match FloatOps.Prim2SF x with
  | SpecFloat.S754_zero _ => Some 0
  | SpecFloat.S754_finite sign m e =>
      let magnitude :=
        if (e <? 0)%Z then inject_Z (Zpos m) / inject_Z (2 ^ (- e))
        else inject_Z (Zpos m) * inject_Z (2 ^ e) in
      Some (if sign then - magnitude else magnitude)
  | _ => None
  end.

(** [Math.round]: exact on a finite number, the number itself on an
    infinity or NaN. *)
Definition round (x : PrimFloat.float) : PrimFloat.float :=
  match toQ x with
  | Some q => ofZ (Qfloor (q + (1 # 2)))
  | None => x
  end.

(** [Math.round(newBpm * 10) / 10] for [newBpm = 60000 / avgInterval],
    with [avgInterval] from [reduce] and the division by the length. *)
Definition tapTempo (times : list Z) : PrimFloat.float :=
  let ivs := Deck.intervals times in
  let total := fold_left PrimFloat.add (map ofZ ivs) (ofZ 0) in
  let avgInterval := PrimFloat.div total (ofZ (Z.of_nat (length ivs))) in
  let newBpm := PrimFloat.div (ofZ 60000) avgInterval in
  PrimFloat.div (round (PrimFloat.mul newBpm (ofZ 10))) (ofZ 10).

End Binary64.

(* ===================================================================== *)
(** ** The BPM detector                                                   *)
(* ===================================================================== *)

Module BpmDetect.
Import WebAudio.

(** [for (i = 0; i < data.length; i += 1000)]: the largest [|data[i]|]
    over every thousandth sample; [skip] counts down to the next index
    that is read. *)
Fixpoint sparseMax (data : list Q) (skip : nat) (maxAmp : Q) : Q :=
  match data with
  | [] => maxAmp
  | x :: rest =>
      match skip with
      | O =>
          sparseMax rest 999%nat
            (if JsNum.ltb maxAmp (JsNum.abs x) then JsNum.abs x else maxAmp)
      | S k => sparseMax rest k maxAmp
      end
  end.

(** The peak scan from index [i] on: a sample above [threshold] is a peak
    when it lies more than [minDistance] after the last one. *)
Fixpoint pickPeaks (threshold minDistance : Q) (data : list Q) (i : Z)
    (lastPeak : Q) : list Z :=
  match data with
  | [] => []
  | x :: rest =>
      if JsNum.ltb threshold x && JsNum.ltb minDistance (inject_Z i - lastPeak)
      then i :: pickPeaks threshold minDistance rest (i + 1)%Z (inject_Z i)
      else pickPeaks threshold minDistance rest (i + 1)%Z lastPeak
  end.

(** [peaks[i] - peaks[i-1]] for [i = 1 .. length - 1]. *)
Fixpoint intervals (peaks : list Z) : list Z :=
  match peaks with
  | a :: (b :: _) as rest => (b - a)%Z :: intervals rest
  | _ => []
  end.

(** [Math.round(interval / 500) * 500] *)
Definition bucket (interval : Z) : Z :=
  (JsNum.round (inject_Z interval / 500) * 500)%Z.

(** [histogram[rounded] = (histogram[rounded] || 0) + 1].  The keys are
    non-negative integers, which [Object.entries] lists in ascending
    order, so the histogram is kept as a list of (key, count) sorted by
    key. *)
Fixpoint bump (key : Z) (h : list (Z * nat)) : list (Z * nat) :=
  match h with
  | [] => [(key, 1%nat)]
  | (k, c) :: rest =>
      if (key =? k)%Z then (k, S c) :: rest
      else if (key <? k)%Z then (key, 1%nat) :: h
      else (k, c) :: bump key rest
  end.

Definition histogram (ivs : list Z) : list (Z * nat) :=
  fold_left (fun h iv => bump (bucket iv) h) ivs [].

(** The scan for the most frequent bucket: [(maxCount, bestInterval)],
    replaced only by a strictly larger count. *)
Definition dominantStep (acc : nat * Z) (entry : Z * nat) : nat * Z :=
  if (fst acc <? snd entry)%nat then (snd entry, fst entry) else acc.

Definition dominant (h : list (Z * nat)) : Z :=
  snd (fold_left dominantStep h (0%nat, 0%Z)).

(** [while (bpm < 70) bpm *= 2;] *)
Fixpoint doubleBelow (fuel : nat) (bpm : Q) : option Q :=
  if JsNum.ltb bpm 70 then
    match fuel with
    | O => None
    | S fuel' => doubleBelow fuel' (bpm * 2)
    end
  else Some bpm.

(** [while (bpm > 180) bpm /= 2;] *)
Fixpoint halveAbove (fuel : nat) (bpm : Q) : option Q :=
  if JsNum.ltb 180 bpm then
    match fuel with
    | O => None
    | S fuel' => halveAbove fuel' (bpm / 2)
    end
  else Some bpm.

(** The slice handed to the filter: up to 30 seconds from the middle. *)
Definition slice (buffer : AudioBuffer) : list Q :=
  let sourceData := buf_channel0 buffer in
  let sampleRate := buf_sampleRate buffer in
  let sliceSamples := 30 * sampleRate in
  let len := inject_Z (Z.of_nat (length sourceData)) in
  let startSample := JsNum.floor ((len - sliceSamples) / 2) in
  let startSample := if (startSample <? 0)%Z then 0%Z else startSample in
  let length := JsNum.min sliceSamples len in
  take (Z.to_nat (JsNum.trunc length)) (drop (Z.to_nat startSample) sourceData).

(** The peaks of the filtered samples: the threshold is 0.35 of the
    sparsely sampled maximum, the minimum distance 0.3 seconds, both as
    exact products.  The code's binary64 products can differ from them in
    the last place, which decides whether a sample that equals the
    threshold to that precision is a peak. *)
Definition detectPeaks (sampleRate : Q) (data : list Q) : list Z :=
  let maxAmp := sparseMax data 0 0 in
  let threshold := maxAmp * (35 # 100) in
  let minDistance := (3 # 10) * sampleRate in
  pickPeaks threshold minDistance data 0 (- minDistance).

(** The analysis of the filtered samples, after [startRendering]. *)
Definition analyse (fuel : nat) (sampleRate : Q) (data : list Q) : option Z :=
  let peaks := detectPeaks sampleRate data in
  if (length peaks <? 10)%nat then Some 128%Z
  else
    let bestInterval := dominant (histogram (intervals peaks)) in
    if (bestInterval =? 0)%Z then Some 128%Z
    else
      let bpm := 60 / (inject_Z bestInterval / sampleRate) in
      bpm1 ← doubleBelow fuel bpm;
      bpm2 ← halveAbove fuel bpm1;
      Some (JsNum.round bpm2).

Section Detector.

(** The offline rendering of the slice through the 150 Hz low-pass
    ([OfflineAudioContext], [BiquadFilterNode], [startRendering]), given
    the sample rate; [None] when one of these calls throws. *)
Variable render : Q -> list Q -> option (list Q).

(** [detectBpm(buffer)]: the value the promise resolves with; the
    [catch] block turns a thrown error into 128.  [None] only when a
    loop did not finish within [fuel] iterations. *)
Definition detectBpm (fuel : nat) (buffer : AudioBuffer) : option Z :=
  match render (buf_sampleRate buffer) (slice buffer) with
  | Some data => analyse fuel (buf_sampleRate buffer) data
  | None => Some 128%Z
  end.

End Detector.

End BpmDetect.

(* ===================================================================== *)
(** ** The specification's formulas                                       *)
(* ===================================================================== *)

Module Spec.

(** The most recent up-to-[n] entries of a buffer. *)
Definition recent (n : nat) (stamps : list Z) : list Z :=
  drop (length stamps - n) stamps.

(** The gaps between consecutive time stamps. *)
Fixpoint gaps (stamps : list Z) : list Z :=
  match stamps with
  | a :: rest =>
      match rest with
      | b :: _ => (b - a)%Z :: gaps rest
      | [] => []
      end
  | [] => []
  end.

(** The mean of a list of integers. *)
Definition mean (l : list Z) : Q :=
  inject_Z (fold_right Z.add 0%Z l) / inject_Z (Z.of_nat (length l)).

(** Rounding to one decimal. *)
Definition oneDecimal (x : Q) : Q := inject_Z (JsNum.round (x * 10)) / 10.

(** 60000 divided by the mean inter-tap interval, rounded to one decimal;
    JavaScript's division by a zero mean is [Infinity]. *)
Definition tapTempo (stamps : list Z) : Deck.Tempo :=
  if Qeq_bool (mean (gaps stamps)) 0 then Deck.BpmInfinity
  else Deck.Bpm (oneDecimal (60000 / mean (gaps stamps))).

(** [tempo] is 60000 over the mean gap of [stamps] rounded to a nearest
    tenth: a whole number of tenths at most half a tenth away (either
    neighbour when the quotient is half-way between two); a zero mean
    gives [Infinity]. *)
Definition nearestTenth (stamps : list Z) (tempo : Deck.Tempo) : Prop :=
  (mean (gaps stamps) == 0 -> tempo = Deck.BpmInfinity) /\
  (~ mean (gaps stamps) == 0 ->
     exists r : Z,
       tempo = Deck.Bpm (inject_Z r / 10) /\
       Qabs (inject_Z r - 60000 / mean (gaps stamps) * 10) <= 1 # 2).

(** [2 ^ n] as a rational. *)
Definition pow2 (n : nat) : Q := inject_Z (2 ^ Z.of_nat n).

End Spec.

(* ===================================================================== *)
(** ** Sessions used as examples                                          *)
(* ===================================================================== *)

Module Session.
Import Deck.

(** A decoded track of 100 seconds. *)
Definition track100 : AudioBuffer := mkBuffer 100 44100 [].

(** Load the track, play at time 0, pause at time 10. *)
Definition pausedAtTen : option Deck :=
  s1 ← loadFile 1 0 "track.mp3" (Some track100) initial;
  s2 ← dispatch 1 0 (fun s => Some (play 0 s)) s1;
  dispatch 1 10 (pause 1 10) s2.

(** ... and play again at time 50. *)
Definition resumedAtFifty : option Deck :=
  s ← pausedAtTen; dispatch 1 50 (fun s => Some (play 50 s)) s.

(** A deck with the track loaded and every control moved off its default:
    pitch 3/2, bend 1/10, loop on, echo at wet 1/2. *)
Definition tweaked : option Deck :=
  s ← loadFile 1 0 "first.mp3" (Some track100) initial;
  Some (setFxWet (1 # 2) (setActiveFX ECHO (toggleLoop
         (setBendAmount (1 # 10) (setSpeed (3 # 2) s))))).

(** A deck playing the track from its start at rate 1. *)
Definition playingFromZero : Deck :=
  setSourceNodeRef (Some (mkSource 1 false 0))
    (setIsPlaying true
       (setIsLoaded true
          (setAudioBuffer (Some track100) (setDuration 100 initial)))).

(** The same deck, paused at its start. *)
Definition pausedAtZero : Deck :=
  setIsLoaded true (setAudioBuffer (Some track100) (setDuration 100 initial)).

(** Half a second at 1000 Hz: one click, then silence. *)
Definition beat : list Q := 1 :: repeat 0 499.

(** Six seconds of clicks, 120 to the minute, sampled at 1000 Hz. *)
Definition clickTrack : AudioBuffer :=
  mkBuffer 6 1000 (concat (repeat beat 12)).

(** Six seconds of silence at 1000 Hz. *)
Definition silence : AudioBuffer := mkBuffer 6 1000 (repeat 0 (12 * 500)).

(** A rendering that returns the slice as it is, and one that throws. *)
Definition passThrough (sampleRate : Q) (data : list Q) : option (list Q) :=
  Some data.
Definition failing (sampleRate : Q) (data : list Q) : option (list Q) := None.

End Session.

(* ===================================================================== *)
(** ** Reading a histogram                                                *)
(* ===================================================================== *)

Module Tally.

(** The count a histogram holds for [key]; 0 when the key is absent. *)
Fixpoint countOf (key : Z) (h : list (Z * nat)) : nat :=
  match h with
  | [] => 0%nat
  | (k, c) :: rest => if (key =? k)%Z then c else countOf key rest
  end.

(** Keys in strictly ascending order. *)
Fixpoint ascending (keys : list Z) : Prop :=
  match keys with
  | [] => True
  | k :: rest => Forall (fun k' => (k < k')%Z) rest /\ ascending rest
  end.

(** How many of the intervals fall into the bucket [key]. *)
Definition occurrences (key : Z) (ivs : list Z) : nat :=
  length (filter (fun iv => BpmDetect.bucket iv = key) ivs).

(** What the scan holds after a prefix [l] of the histogram: nothing yet,
    or an entry of [l] with the largest count, the first among equals. *)
Definition scanned (l : list (Z * nat)) (acc : nat * Z) : Prop :=
  (l = [] /\ acc = (0%nat, 0%Z)) \/
  (In (snd acc, fst acc) l /\
   forall k c, In (k, c) l -> (c <= fst acc)%nat /\ (c = fst acc -> (snd acc <= k)%Z)).

End Tally.

(* ===================================================================== *)
(** ** Tap patterns                                                       *)
(* ===================================================================== *)

Module Taps.

(** [n] time stamps [g] milliseconds apart, from [t0] on. *)
Definition steady (t0 g : Z) (n : nat) : list Z :=
  map (fun i => (t0 + Z.of_nat i * g)%Z) (seq 0 n).

End Taps.

(* ===================================================================== *)
(** ** The deck's command surface: hot cues, commands and what they keep  *)
(* ===================================================================== *)

Module Transport.
Import Deck.

(** [triggerHotCue(index)]: seek to the cue when the slot is set, capture
    the displayed position when it is not.  For an index beyond the array,
    which the cue buttons never pass, the code seeks to [undefined]; the
    model has no such position and gives no state. *)
Definition triggerHotCue (fuel : nat) (now : Q) (index : nat) (s : Deck)
    : option Deck :=
  match hotCues s !! index with
  | Some (Some cue) => seek fuel now cue s
  | Some None =>
      Some (setHotCues (<[index := Some (currentTime s)]> (hotCues s)) s)
  | None => None
  end.

(** [deleteHotCue(index, e)]: clear the slot (of an existing index). *)
Definition deleteHotCue (index : nat) (s : Deck) : Deck :=
  setHotCues (<[index := None]> (hotCues s)) s.

(** What can happen to a deck: the functions the hook returns, the
    completion of the BPM analysis and the display tick.  [loadFile] is
    asynchronous: [LoadStart] is its part up to the first [await] and
    [LoadSettle] the part that runs when reading and decoding settle
    ([None]: one of them threw), with any other command in between;
    [LoadFile] is a load that nothing interrupts. *)
Inductive Command :=
| Play
| Pause
| TogglePlay
| Seek (time : Q)
| ToggleReverse
| ToggleLoop
| ToggleWidePitch
| SetSpeed (v : Q)
| SetBendAmount (v : Q)
| SyncToBpm (targetBpm : Q)
| TapBpm (stamp : Z)
| TriggerHotCue (index : nat)
| DeleteHotCue (index : nat)
| SetActiveFX (fx : FXType)
| SetFxWet (v : Q)
| LoadFile (name : string) (decoded : option AudioBuffer)
| LoadStart (name : string)
| LoadSettle (decoded : option AudioBuffer)
| BpmDetected (detectedBpm : Z)
| Tick.

(** A command at audio time [now], with the render that follows it. *)
Definition exec (fuel : nat) (now : Q) (c : Command) (s : Deck) : option Deck :=
  match c with
  | Play => dispatch fuel now (fun s => Some (play now s)) s
  | Pause => dispatch fuel now (pause fuel now) s
  | TogglePlay => dispatch fuel now (togglePlay fuel now) s
  | Seek time => dispatch fuel now (seek fuel now time) s
  | ToggleReverse => dispatch fuel now (fun s => Some (toggleReverse s)) s
  | ToggleLoop => dispatch fuel now (fun s => Some (toggleLoop s)) s
  | ToggleWidePitch => dispatch fuel now (fun s => Some (toggleWidePitch s)) s
  | SetSpeed v => dispatch fuel now (fun s => Some (setSpeed v s)) s
  | SetBendAmount v => dispatch fuel now (fun s => Some (setBendAmount v s)) s
  | SyncToBpm target => dispatch fuel now (fun s => Some (syncToBpm target s)) s
  | TapBpm stamp => dispatch fuel now (fun s => Some (tapBpm stamp s)) s
  | TriggerHotCue i => dispatch fuel now (triggerHotCue fuel now i) s
  | DeleteHotCue i => dispatch fuel now (fun s => Some (deleteHotCue i s)) s
  | SetActiveFX fx => dispatch fuel now (fun s => Some (setActiveFX fx s)) s
  | SetFxWet v => dispatch fuel now (fun s => Some (setFxWet v s)) s
  | LoadFile name decoded => loadFile fuel now name decoded s
  | LoadStart name =>
      if audioContextRef s then
        dispatch fuel now (fun s => Some (loadFile_begin name s)) s
      else Some s
  | LoadSettle decoded =>
      dispatch fuel now
        (fun s => Some match decoded with
                       | Some buf => loadFile_decoded buf s
                       | None => loadFile_failed s
                       end) s
  | BpmDetected z => dispatch fuel now (fun s => Some (bpmDetected z s)) s
  | Tick => dispatch fuel now (updateLoop fuel now) s
  end.

(** Commands with their times, one after the other. *)
Fixpoint run (fuel : nat) (events : list (Q * Command)) (s : Deck) : option Deck :=
  match events with
  | [] => Some s
  | (now, c) :: rest => s' ← exec fuel now c s; run fuel rest s'
  end.

(** A deck in order: the context exists; a deck that plays has a buffer
    and a source and remembers its current rate; the duration is the one
    of the loaded buffer; three cue slots; at most four tap stamps. *)
Definition wellFormed (s : Deck) : Prop :=
  audioContextRef s = true /\
  (isPlaying s = true ->
     is_Some (audioBuffer s) /\ is_Some (sourceNodeRef s) /\
     lastPlaybackRateRef s == playbackRate s) /\
  (forall buf, audioBuffer s = Some buf ->
     duration s = buf_duration buf /\ isLoaded s = true) /\
  length (hotCues s) = 3%nat /\
  (length (tapTimesRef s) <= 4)%nat.

(** What every state of the hook satisfies, also when a load settles
    while the deck plays: as [wellFormed], but the remembered rate is the
    current rate or the 1 that a settled load wrote. *)
Definition consistent (s : Deck) : Prop :=
  audioContextRef s = true /\
  (isPlaying s = true ->
     is_Some (audioBuffer s) /\ is_Some (sourceNodeRef s)) /\
  (forall buf, audioBuffer s = Some buf ->
     duration s = buf_duration buf /\ isLoaded s = true) /\
  length (hotCues s) = 3%nat /\
  (length (tapTimesRef s) <= 4)%nat /\
  (lastPlaybackRateRef s == playbackRate s \/ lastPlaybackRateRef s == 1).

(** What a handler's outcome [new] must have for the render after it to
    re-establish [consistent]: all of it but the remembered rate, which
    the handler must not touch. *)
Definition handlerKeeps (s new : Deck) : Prop :=
  audioContextRef new = true /\
  (isPlaying new = true ->
     is_Some (audioBuffer new) /\ is_Some (sourceNodeRef new)) /\
  (forall buf, audioBuffer new = Some buf ->
     duration new = buf_duration buf /\ isLoaded new = true) /\
  length (hotCues new) = 3%nat /\
  (length (tapTimesRef new) <= 4)%nat /\
  lastPlaybackRateRef new = lastPlaybackRateRef s.

(** [x] is a position of a track of duration [d]. *)
Definition within (d x : Q) : Prop := 0 <= x /\ x < d.

Definition cueWithin (d : Q) (cue : option Q) : Prop :=
  match cue with
  | Some c => within d c
  | None => True
  end.

(** With a track of positive duration: the anchor, the displayed position
    and the cues are positions of the track. *)
Definition ranged (s : Deck) : Prop :=
  0 < duration s ->
  within (duration s) (pauseTimeRef s) /\
  within (duration s) (currentTime s) /\
  Forall (cueWithin (duration s)) (hotCues s).

(** A seek is admissible when its target is a position of the track. *)
Definition admissible (s : Deck) (c : Command) : Prop :=
  match c with
  | Seek time => 0 < duration s -> within (duration s) time
  | _ => True
  end.

(** Every seek of the run is admissible in the state it meets. *)
Fixpoint admissibleRun (fuel : nat) (events : list (Q * Command)) (s : Deck) : Prop :=
  match events with
  | [] => True
  | (now, c) :: rest =>
      admissible s c /\
      match exec fuel now c s with
      | Some s' => admissibleRun fuel rest s'
      | None => True
      end
  end.

(** The commands that change a factor of the rate and nothing else. *)
Definition rateCommand (c : Command) : Prop :=
  match c with
  | SetSpeed _ | SetBendAmount _ | SyncToBpm _ | ToggleReverse => True
  | _ => False
  end.

(** The direction factor of the rate. *)
Definition direction (s : Deck) : Q := if isReverse s then -1 else 1.

(** [s'] differs from [s] in the rate factors at most. *)
Definition sameButRate (s s' : Deck) : Prop :=
  isPlaying s' = isPlaying s /\ duration s' = duration s /\
  audioContextRef s' = audioContextRef s /\ sourceNodeRef s' = sourceNodeRef s /\
  startTimeRef s' = startTimeRef s /\ pauseTimeRef s' = pauseTimeRef s /\
  lastPlaybackRateRef s' = lastPlaybackRateRef s.

End Transport.

(* ===================================================================== *)
(** ** A load that settles while the deck plays                           *)
(* ===================================================================== *)

Module Scenario.
Import Deck Transport.

(** A 100-second track is loaded, the pitch set to 3/2 and the deck
    started with the play button; the same file is chosen again, the
    play button is pressed while it is being decoded, and the decoding
    settles at time 5. *)
Definition reloadWhilePlaying : list (Q * Command) :=
  [(0, LoadFile "a.mp3" (Some Session.track100)); (1, SetSpeed (3 # 2));
   (2, TogglePlay); (3, LoadStart "a.mp3"); (4, TogglePlay);
   (5, LoadSettle (Some Session.track100))].

End Scenario.

(* ===================================================================== *)
(** ** The application: two decks, the mixer values and the keyboard      *)
(* ===================================================================== *)

Module JsMath.

(** [Math.max] on two numbers. *)
Definition max (a b : Q) : Q := if JsNum.ltb a b then b else a.

End JsMath.

Module App.
Import Deck Transport.

(** The three bands of an equaliser state: [{ high, mid, low }]. *)
Record Bands := mkBands { high : Q; mid : Q; low : Q }.

(** The state of [App]: the lifted mixer values, the two deck hooks and the
    [keysPressed] set. *)
Record State := mkApp {
  crossfader : Q;
  volA : Q;
  volB : Q;
  trimA : Q;
  trimB : Q;
  filterA : Q;
  filterB : Q;
  eqA : Bands;
  eqB : Bands;
  deckA : Deck;
  deckB : Deck;
  keysPressed : gset string
}.

(** The state [App] starts with. *)
Definition initial : State :=
  mkApp 0 (8 # 10) (8 # 10) 1 1 0 0 (mkBands 0 0 0) (mkBands 0 0 0)
    Deck.initial Deck.initial ∅.

Definition withCrossfader (v : Q) (st : State) : State :=
  mkApp v (volA st) (volB st) (trimA st) (trimB st) (filterA st)
    (filterB st) (eqA st) (eqB st) (deckA st) (deckB st) (keysPressed st).

Definition withVolA (v : Q) (st : State) : State :=
  mkApp (crossfader st) v (volB st) (trimA st) (trimB st) (filterA st)
    (filterB st) (eqA st) (eqB st) (deckA st) (deckB st) (keysPressed st).

Definition withVolB (v : Q) (st : State) : State :=
  mkApp (crossfader st) (volA st) v (trimA st) (trimB st) (filterA st)
    (filterB st) (eqA st) (eqB st) (deckA st) (deckB st) (keysPressed st).

Definition withTrimA (v : Q) (st : State) : State :=
  mkApp (crossfader st) (volA st) (volB st) v (trimB st) (filterA st)
    (filterB st) (eqA st) (eqB st) (deckA st) (deckB st) (keysPressed st).

Definition withTrimB (v : Q) (st : State) : State :=
  mkApp (crossfader st) (volA st) (volB st) (trimA st) v (filterA st)
    (filterB st) (eqA st) (eqB st) (deckA st) (deckB st) (keysPressed st).

Definition withFilterA (v : Q) (st : State) : State :=
  mkApp (crossfader st) (volA st) (volB st) (trimA st) (trimB st) v
    (filterB st) (eqA st) (eqB st) (deckA st) (deckB st) (keysPressed st).

Definition withFilterB (v : Q) (st : State) : State :=
  mkApp (crossfader st) (volA st) (volB st) (trimA st) (trimB st)
    (filterA st) v (eqA st) (eqB st) (deckA st) (deckB st) (keysPressed st).

Definition withEqA (v : Bands) (st : State) : State :=
  mkApp (crossfader st) (volA st) (volB st) (trimA st) (trimB st)
    (filterA st) (filterB st) v (eqB st) (deckA st) (deckB st)
    (keysPressed st).

Definition withEqB (v : Bands) (st : State) : State :=
  mkApp (crossfader st) (volA st) (volB st) (trimA st) (trimB st)
    (filterA st) (filterB st) (eqA st) v (deckA st) (deckB st)
    (keysPressed st).

Definition withDeckA (v : Deck) (st : State) : State :=
  mkApp (crossfader st) (volA st) (volB st) (trimA st) (trimB st)
    (filterA st) (filterB st) (eqA st) (eqB st) v (deckB st)
    (keysPressed st).

Definition withDeckB (v : Deck) (st : State) : State :=
  mkApp (crossfader st) (volA st) (volB st) (trimA st) (trimB st)
    (filterA st) (filterB st) (eqA st) (eqB st) (deckA st) v
    (keysPressed st).

Definition withKeysPressed (v : gset string) (st : State) : State :=
  mkApp (crossfader st) (volA st) (volB st) (trimA st) (trimB st)
    (filterA st) (filterB st) (eqA st) (eqB st) (deckA st) (deckB st) v.

(** What the handlers read of a [KeyboardEvent]: [key], [code] and the tag
    name of its target. *)
Record KeyEvent := mkKey { key : string; code : string; targetTag : string }.

(** [handleSync(source)]: the deck whose sync button was pressed takes the
    other deck's tempo as it sounds, [bpm * playbackRate].  When the other
    deck's BPM is [Infinity] the target is not a number of the model. *)
Definition handleSync (fuel : nat) (now : Q) (sourceIsA : bool) (st : State)
    : option State :=
  let other := if sourceIsA then deckB st else deckA st in
  match bpm other with
  | Bpm b =>
      let target := b * playbackRate other in
      if sourceIsA then
        d ← exec fuel now (SyncToBpm target) (deckA st); Some (withDeckA d st)
      else
        d ← exec fuel now (SyncToBpm target) (deckB st); Some (withDeckB d st)
  | BpmInfinity => None
  end.

Section Keyboard.

(** [String.prototype.toUpperCase]. *)
Variable toUpperCase : string -> string.

(** [setActiveFX(fx); setFxWet(v => Math.max(0, Math.min(1, v + 0.05 * dir)))]
    on one deck, with its render. *)
Definition nudgeFx (fuel : nat) (now : Q) (fx : FXType) (dir : Q) (d : Deck)
    : option Deck :=
  dispatch fuel now
    (fun s => Some (setFxWet
                      (JsMath.max 0 (JsNum.min 1 (fxWet s + (5 # 100) * dir)))
                      (setActiveFX fx s))) d.

(** [v => Math.max(lo, Math.min(hi, v + step * dir))] *)
Definition nudge (lo hi step dir v : Q) : Q :=
  JsMath.max lo (JsNum.min hi (v + step * dir)).

(** The branch of the Up/Down handler: the first modifier held, in the
    order of the [if] chain, decides what moves. *)
Definition handleUpDown (fuel : nat) (now : Q) (dir : Q) (st : State)
    : option State :=
  let has k := bool_decide (k ∈ keysPressed st) in
  if has "Q" then d ← nudgeFx fuel now ECHO dir (deckA st); Some (withDeckA d st)
  else if has "A" then d ← nudgeFx fuel now REVERB dir (deckA st); Some (withDeckA d st)
  else if has "Z" then d ← nudgeFx fuel now FLANGER dir (deckA st); Some (withDeckA d st)
  else if has "P" then d ← nudgeFx fuel now ECHO dir (deckB st); Some (withDeckB d st)
  else if has "L" then d ← nudgeFx fuel now REVERB dir (deckB st); Some (withDeckB d st)
  else if has "M" then d ← nudgeFx fuel now FLANGER dir (deckB st); Some (withDeckB d st)
  else if has "E" then Some (withTrimA (nudge 0 2 (5 # 100) dir (trimA st)) st)
  else if has "R" then
    Some (withEqA (mkBands (nudge (-15) 15 1 dir (high (eqA st)))
                     (mid (eqA st)) (low (eqA st))) st)
  else if has "T" then
    Some (withEqA (mkBands (high (eqA st))
                     (nudge (-15) 15 1 dir (mid (eqA st))) (low (eqA st))) st)
  else if has "Y" then
    Some (withEqA (mkBands (high (eqA st)) (mid (eqA st))
                     (nudge (-15) 15 1 dir (low (eqA st)))) st)
  else if has "U" then Some (withFilterA (nudge (-1) 1 (5 # 100) dir (filterA st)) st)
  else if has "I" then Some (withVolA (nudge 0 1 (5 # 100) dir (volA st)) st)
  else if has "D" then Some (withTrimB (nudge 0 2 (5 # 100) dir (trimB st)) st)
  else if has "F" then
    Some (withEqB (mkBands (nudge (-15) 15 1 dir (high (eqB st)))
                     (mid (eqB st)) (low (eqB st))) st)
  else if has "G" then
    Some (withEqB (mkBands (high (eqB st))
                     (nudge (-15) 15 1 dir (mid (eqB st))) (low (eqB st))) st)
  else if has "H" then
    Some (withEqB (mkBands (high (eqB st)) (mid (eqB st))
                     (nudge (-15) 15 1 dir (low (eqB st)))) st)
  else if has "J" then Some (withFilterB (nudge (-1) 1 (5 # 100) dir (filterB st)) st)
  else if has "K" then Some (withVolB (nudge 0 1 (5 # 100) dir (volB st)) st)
  else
    d ← exec fuel now
          (SetSpeed (JsNum.min (15 # 10)
                       (JsMath.max (5 # 10) (pitch (deckB st) + (5 # 1000) * dir))))
          (deckB st);
    Some (withDeckB d st).

(** [handleKeyDown(e)], at audio time [now]. *)
Definition handleKeyDown (fuel : nat) (now : Q) (e : KeyEvent) (st : State)
    : option State :=
  if String.eqb (targetTag e) "INPUT" then Some st
  else
    let st := withKeysPressed ({[toUpperCase (key e)]} ∪ keysPressed st) st in
    let st :=
      if String.eqb (key e) "ArrowLeft" then
        withCrossfader (JsMath.max (-1) (crossfader st - (5 # 100))) st
      else if String.eqb (key e) "ArrowRight" then
        withCrossfader (JsNum.min 1 (crossfader st + (5 # 100))) st
      else st in
    st ← (if String.eqb (key e) "ArrowUp" || String.eqb (key e) "ArrowDown" then
            handleUpDown fuel now (if String.eqb (key e) "ArrowUp" then 1 else -1) st
          else Some st);
    if String.eqb (code e) "KeyW" then
      d ← exec fuel now
            (SetSpeed (JsNum.min (15 # 10) (pitch (deckA st) + (5 # 1000))))
            (deckA st);
      Some (withDeckA d st)
    else if String.eqb (code e) "KeyS" then
      d ← exec fuel now
            (SetSpeed (JsMath.max (5 # 10) (pitch (deckA st) - (5 # 1000))))
            (deckA st);
      Some (withDeckA d st)
    else Some st.

(** [handleKeyUp(e)] *)
Definition handleKeyUp (e : KeyEvent) (st : State) : State :=
  withKeysPressed (keysPressed st ∖ {[toUpperCase (key e)]}) st.

End Keyboard.

(** The ranges the mixer and the decks give their controls. *)
Definition between (lo hi v : Q) : Prop := lo <= v /\ v <= hi.

Definition bandsBetween (lo hi : Q) (b : Bands) : Prop :=
  between lo hi (high b) /\ between lo hi (mid b) /\ between lo hi (low b).

Definition inBounds (st : State) : Prop :=
  between (-1) 1 (crossfader st) /\
  between 0 1 (volA st) /\ between 0 1 (volB st) /\
  between 0 2 (trimA st) /\ between 0 2 (trimB st) /\
  between (-1) 1 (filterA st) /\ between (-1) 1 (filterB st) /\
  bandsBetween (-15) 15 (eqA st) /\ bandsBetween (-15) 15 (eqB st) /\
  between 0 1 (fxWet (deckA st)) /\ between 0 1 (fxWet (deckB st)) /\
  between (5 # 10) (15 # 10) (pitch (deckA st)) /\
  between (5 # 10) (15 # 10) (pitch (deckB st)).

End App.

(* ===================================================================== *)
(** ** The drag hooks of the sliders and knobs (components/Controls.tsx)  *)
(* ===================================================================== *)

Module Controls.

(** The bounding rectangle read at pointer-down. *)
Record Rect := mkRect {
  rect_left : Q;
  rect_bottom : Q;
  rect_width : Q;
  rect_height : Q
}.

(** [percent], clamped by the two [if]s. *)
Definition fraction (relative size : Q) : Q :=
  let percent := relative / size in
  let percent := if JsNum.ltb percent 0 then 0 else percent in
  if JsNum.ltb 1 percent then 1 else percent.

(** The value [calculateAndOnChange] passes to [onChange], from the
    pointer's offset along the element and the element's extent. *)
Definition calculate (relative size min max step : Q) : Q :=
  let percent := fraction relative size in
  let newValue := min + percent * (max - min) in
  let newValue :=
    if JsNum.ltb 0 step then inject_Z (JsNum.round (newValue / step)) * step
    else newValue in
  JsNum.min (JsMath.max newValue min) max.

(** [useVerticalDrag]: the offset is measured from the bottom edge. *)
Definition verticalValue (rect : Rect) (clientY min max step : Q) : Q :=
  calculate (rect_bottom rect - clientY) (rect_height rect) min max step.

(** [useHorizontalDrag]: the offset is measured from the left edge. *)
Definition horizontalValue (rect : Rect) (clientX min max step : Q) : Q :=
  calculate (clientX - rect_left rect) (rect_width rect) min max step.

End Controls.

(* ===================================================================== *)
(** ** The deck's view: time display and scrubbing (components/Deck.tsx)  *)
(* ===================================================================== *)

Module DeckView.
Import Deck.





(** [remainingTime] and [progress]. *)
Definition remainingTime (s : Deck) : Q := JsMath.max 0 (duration s - currentTime s).

Definition progress (s : Deck) : Q :=
  if JsNum.ltb 0 (duration s) then currentTime s / duration s * 100 else 0.

(** The refs of the scrub gesture. *)
Record Scrub := mkScrub {
  isScrubbingRef : bool;
  wasPlayingRef : bool;
  lastXRef : Q
}.

Definition idle : Scrub := mkScrub false false 0.

(** [handleScrubStart], for a pointer at [clientX]. *)
Definition handleScrubStart (fuel : nat) (now clientX : Q)
    (v : Scrub * Deck) : option (Scrub * Deck) :=
  let '(r, s) := v in
  if Qeq_bool (duration s) 0 then Some v
  else
    let r' := mkScrub true (isPlaying s) clientX in
    if isPlaying s then
      s' ← Transport.exec fuel now Transport.Pause s; Some (r', s')
    else Some (r', s).

(** [handleScrubMove], over a canvas [canvasWidth] pixels wide. *)
Definition handleScrubMove (fuel : nat) (now clientX canvasWidth : Q)
    (v : Scrub * Deck) : option (Scrub * Deck) :=
  let '(r, s) := v in
  if negb (isScrubbingRef r) || Qeq_bool (duration s) 0 then Some v
  else
    let deltaX := clientX - lastXRef r in
    let r' := mkScrub (isScrubbingRef r) (wasPlayingRef r) clientX in
    let zoomSeconds := 4 in
    let pixelsPerSecond := canvasWidth / zoomSeconds in
    let newTime :=
      JsMath.max 0 (JsNum.min (duration s)
                      (currentTime s - deltaX / pixelsPerSecond)) in
    s' ← Transport.exec fuel now (Transport.Seek newTime) s; Some (r', s').

(** [handleScrubEnd]. *)
Definition handleScrubEnd (fuel : nat) (now : Q)
    (v : Scrub * Deck) : option (Scrub * Deck) :=
  let '(r, s) := v in
  if negb (isScrubbingRef r) then Some v
  else
    let r' := mkScrub false (wasPlayingRef r) (lastXRef r) in
    if wasPlayingRef r then
      s' ← Transport.exec fuel now Transport.Play s; Some (r', s')
    else Some (r', s).

(** The pointer events the zoomed waveform listens to. *)
Inductive Pointer :=
  | PointerDown (clientX : Q)
  | PointerMove (clientX : Q)
  | PointerUp
  | PointerLeave.

Definition pointer (fuel : nat) (now canvasWidth : Q) (e : Pointer)
    (v : Scrub * Deck) : option (Scrub * Deck) :=
  match e with
  | PointerDown clientX => handleScrubStart fuel now clientX v
  | PointerMove clientX => handleScrubMove fuel now clientX canvasWidth v
  | PointerUp | PointerLeave => handleScrubEnd fuel now v
  end.

(** Pointer events with their times, one after the other. *)
Fixpoint gesture (fuel : nat) (canvasWidth : Q) (events : list (Q * Pointer))
    (v : Scrub * Deck) : option (Scrub * Deck) :=
  match events with
  | [] => Some v
  | (now, e) :: rest =>
      v' ← pointer fuel now canvasWidth e v; gesture fuel canvasWidth rest v'
  end.

(** The moves of a drag through the points [moves], each with its time. *)
Definition drag (moves : list (Q * Q)) : list (Q * Pointer) :=
  map (fun m => (fst m, PointerMove (snd m))) moves.

(** What the scrub gesture relies on between pointer-down and pointer-up. *)
Definition held (s : Deck) (wasPlaying : bool) (v : Scrub * Deck) : Prop :=
  isScrubbingRef (fst v) = true /\ wasPlayingRef (fst v) = wasPlaying /\
  isPlaying (snd v) = false /\ audioContextRef (snd v) = audioContextRef s /\
  audioBuffer (snd v) = audioBuffer s /\ duration (snd v) = duration s /\
  App.between 0 (duration s) (pauseTimeRef (snd v)).

End DeckView.

(* ===================================================================== *)
(** ** The mixer's crossfader and the deck's filter, on real numbers       *)
(* ===================================================================== *)

(** [Math.cos] and [Math.pow] leave the rationals: the two functions that
    use them are modelled on the real numbers, [Math.pow(b, e)] for a
    positive [b] as [Rpower b e]. *)
Module Mixer.
Import Reals.
Local Open Scope R_scope.

Inductive Curve := LINEAR | SMOOTH | CUT.

(** [gainA] and [gainB] of the crossfader effect (Mixer, in
    components/Library.tsx). *)
Definition curveGains (curve : Curve) (crossfader : R) : R * R :=
  let x := (crossfader + 1) / 2 in
  match curve with
  | LINEAR => (1 - x, x)
  | CUT =>
      let cutSlope := 25 in
      (Rmin 1 ((1 - x) * cutSlope), Rmin 1 (x * cutSlope))
  | SMOOTH => (cos (x * (5 / 10) * PI), cos ((1 - x) * (5 / 10) * PI))
  end.

(** The targets the effect gives the gains of channel A and channel B. *)
Definition channelGains (curve : Curve) (crossfader volA volB : R) : R * R :=
  let '(gainA, gainB) := curveGains curve crossfader in
  (volA * gainA, volB * gainB).

(** The gain targets for the values the application holds. *)
Definition mixerGains (curve : Curve) (st : App.State) : R * R :=
  channelGains curve (Q2R (App.crossfader st))
    (Q2R (App.volA st)) (Q2R (App.volB st)).

(** The frequency targets of the low-pass and the high-pass node. *)
Record FilterTargets := mkTargets {
  lowPass : R;
  highPass : R
}.

(** [setFilter(val)] of the deck hook; [nodes] is [None] while the context
    or one of the two filter nodes is missing. *)
Definition setFilter (val : R) (nodes : option FilterTargets) : option FilterTargets :=
  match nodes with
  | None => None
  | Some _ =>
      if Rlt_dec val 0 then
        let freq := 100 * Rpower (22050 / 100) (1 + val) in
        Some (mkTargets freq 0)
      else
        let freq := 10 * Rpower (10000 / 10) val in
        Some (mkTargets 22050 freq)
  end.

End Mixer.

(* ===================================================================== *)
(** ** Facts on the arithmetic                                            *)
(* ===================================================================== *)

Lemma ltb_lt (a b : Q) : JsNum.ltb a b = true <-> a < b.
Proof.
  unfold JsNum.ltb. rewrite negb_true_iff.
  split; intros H.
  - apply Qnot_le_lt. intros Hle. apply Qle_bool_iff in Hle. congruence.
  - destruct (Qle_bool b a) eqn:E; [|reflexivity].
    apply Qle_bool_iff in E. exfalso. apply (Qlt_not_le _ _ H E).
Qed.

Lemma ltb_ge (a b : Q) : JsNum.ltb a b = false <-> b <= a.
Proof.
  unfold JsNum.ltb. rewrite negb_false_iff. apply Qle_bool_iff.
Qed.

Lemma trunc_nonneg_floor (a : Q) : 0 <= a -> JsNum.trunc a = Qfloor a.
Proof.
  destruct a as [n d]. unfold Qle, JsNum.trunc, Qfloor. simpl. intros H.
  apply Z.quot_div_nonneg; lia.
Qed.

(** On a non-negative dividend and a positive divisor [%] lands in
    [[0, b)] and removes a whole number of [b]. *)
Lemma rem_nonneg_range (a b : Q) :
  0 <= a -> 0 < b ->
  0 <= JsNum.rem a b /\ JsNum.rem a b < b /\
  JsNum.rem a b == a - b * inject_Z (Qfloor (a / b)).
Proof.
  intros Ha Hb. unfold JsNum.rem.
  assert (Hq : 0 <= a / b).
  { apply Qle_shift_div_l; [exact Hb|]. lra. }
  rewrite (trunc_nonneg_floor _ Hq).
  pose proof (Qfloor_le (a / b)) as Hlo.
  pose proof (Qlt_floor (a / b)) as Hhi.
  rewrite inject_Z_plus in Hhi. change (inject_Z 1) with 1 in Hhi.
  set (k := inject_Z (Qfloor (a / b))) in *.
  assert (Hab : a == b * (a / b)) by (field; lra).
  split; [|split; [|reflexivity]].
  - assert (b * k <= b * (a / b)) by (apply Qmult_le_l; assumption). lra.
  - assert (b * (a / b) < b * (k + 1)) by (apply Qmult_lt_l; assumption). lra.
Qed.

Lemma inject_nat_succ (n : nat) :
  inject_Z (Z.of_nat (S n)) == inject_Z (Z.of_nat n) + 1.
Proof.
  rewrite Nat2Z.inj_succ. unfold Z.succ. rewrite inject_Z_plus. reflexivity.
Qed.

Lemma inject_nat_nonneg (n : nat) : 0 <= inject_Z (Z.of_nat n).
Proof.
  change 0 with (inject_Z 0). rewrite <- Zle_Qle. lia.
Qed.

Lemma inject_nat_le (n m : nat) :
  (n <= m)%nat -> inject_Z (Z.of_nat n) <= inject_Z (Z.of_nat m).
Proof.
  intros H. rewrite <- Zle_Qle. lia.
Qed.

(* ===================================================================== *)
(** ** Facts on the sample clock                                          *)
(* ===================================================================== *)

Section ClockFacts.
Import SampleClock.

(** The loop leaves a non-negative position alone. *)
Lemma wrap_negative_nonneg (fuel : nat) (d p : Q) :
  0 <= p -> wrap_negative fuel d p = Some p.
Proof.
  intros Hp. apply ltb_ge in Hp.
  destruct fuel; simpl; rewrite Hp; reflexivity.
Qed.

(** More fuel does not change the outcome of the loop. *)
Lemma wrap_negative_mono (n : nat) : forall (fuel : nat) (d p q : Q),
  (n <= fuel)%nat ->
  wrap_negative n d p = Some q -> wrap_negative fuel d p = Some q.
Proof.
  induction n as [|n IH]; intros fuel d p q Hle Hn.
  - simpl in Hn. destruct (JsNum.ltb p 0) eqn:E; [discriminate|].
    destruct fuel; simpl; rewrite E; exact Hn.
  - destruct fuel as [|fuel]; [lia|]. simpl in Hn |- *.
    destruct (JsNum.ltb p 0) eqn:E; [|exact Hn].
    apply IH; [lia | exact Hn].
Qed.

(** With [fuel] steps of [d] reaching zero from [p], the loop exits: on a
    non-negative [q] that is [p] plus a whole number of [d], below [d]
    when [p] was negative. *)
Lemma wrap_negative_exits (fuel : nat) : forall d p : Q,
  0 < d ->
  0 <= p + inject_Z (Z.of_nat fuel) * d ->
  exists (q : Q) (k : nat),
    wrap_negative fuel d p = Some q /\ 0 <= q /\
    q == p + inject_Z (Z.of_nat k) * d /\ (p < 0 -> q < d).
Proof.
  induction fuel as [|fuel IH]; intros d p Hd Hreach.
  - assert (Hp : 0 <= p).
    { change (inject_Z (Z.of_nat 0)) with 0 in Hreach. lra. }
    exists p, O. rewrite (wrap_negative_nonneg _ _ _ Hp).
    repeat split; [exact Hp | change (inject_Z (Z.of_nat 0)) with 0; lra | lra].
  - destruct (Qlt_le_dec p 0) as [Hneg|Hp].
    + simpl. rewrite (proj2 (ltb_lt p 0) Hneg).
      rewrite inject_nat_succ in Hreach.
      destruct (IH d (p + d) Hd) as (q & k & Hrun & Hq & Hk & Hlt); [lra|].
      exists q, (S k). rewrite inject_nat_succ.
      repeat split; [exact Hrun | exact Hq | lra |].
      intros _. destruct (Qlt_le_dec (p + d) 0) as [Hn|Hn]; [auto|].
      rewrite (wrap_negative_nonneg _ _ _ Hn) in Hrun.
      injection Hrun as <-. lra.
    + exists p, O. rewrite (wrap_negative_nonneg _ _ _ Hp).
      repeat split; [exact Hp | change (inject_Z (Z.of_nat 0)) with 0; lra | lra].
Qed.

(** [budget d p] steps reach zero. *)
Lemma budget_reaches (d p : Q) (fuel : nat) :
  0 < d -> (budget d p <= fuel)%nat ->
  0 <= p + inject_Z (Z.of_nat fuel) * d.
Proof.
  intros Hd Hfuel. unfold budget in Hfuel.
  pose proof (Qle_ceiling (- p / d)) as Hc.
  assert (Hz : inject_Z (Qceiling (- p / d)) <= inject_Z (Z.of_nat fuel)).
  { rewrite <- Zle_Qle. lia. }
  assert (Hq : - p / d <= inject_Z (Z.of_nat fuel)) by lra.
  apply (Qmult_le_r _ _ d Hd) in Hq.
  assert (Hs : - p / d * d == - p) by (field; lra).
  lra.
Qed.

(** Two points of [[0, d)] that differ by a whole number of [d] agree. *)
Lemma congruent_in_range (d q1 q2 : Q) (k : Z) :
  0 < d -> 0 <= q1 -> q1 < d -> 0 <= q2 -> q2 < d ->
  q1 == q2 + inject_Z k * d -> q1 == q2.
Proof.
  intros Hd H1 H1' H2 H2' Hk.
  destruct (Z.lt_trichotomy k 0) as [Hlt|[->|Hgt]].
  - assert (Hi : inject_Z k <= - (1)).
    { change (- (1)) with (inject_Z (-1)). rewrite <- Zle_Qle. lia. }
    assert (inject_Z k * d <= - (1) * d) by (apply Qmult_le_r; assumption).
    lra.
  - change (inject_Z 0) with 0 in Hk. lra.
  - assert (Hi : 1 <= inject_Z k).
    { change 1 with (inject_Z 1). rewrite <- Zle_Qle. lia. }
    assert (1 * d <= inject_Z k * d) by (apply Qmult_le_r; assumption).
    lra.
Qed.

(** For a positive duration the normalisation returns, within the budget,
    the one point of [[0, d)] congruent to [p]. *)
Lemma normalize_total (d p : Q) :
  0 < d ->
  exists q : Q,
    (0 <= q /\ q < d) /\
    (exists k : Z, q == p + inject_Z k * d) /\
    forall fuel, (budget d p <= fuel)%nat -> normalize fuel d p = Some q.
Proof.
  intros Hd.
  pose proof (budget_reaches d p (budget d p) Hd (le_n _)) as Hreach.
  destruct (wrap_negative_exits _ d p Hd Hreach) as (q & k & Hrun & Hq & Hk & _).
  destruct (rem_nonneg_range q d Hq Hd) as (Hlo & Hhi & Hrem).
  exists (JsNum.rem q d). split; [split; assumption|]. split.
  - exists (Z.of_nat k - Qfloor (q / d))%Z.
    unfold Zminus. rewrite inject_Z_plus, inject_Z_opp.
    set (K := inject_Z (Z.of_nat k)) in *.
    set (F := inject_Z (Qfloor (q / d))) in *. lra.
  - intros fuel Hfuel. unfold normalize.
    rewrite (proj2 (ltb_lt 0 d) Hd).
    rewrite (wrap_negative_mono _ _ _ _ _ Hfuel Hrun). reflexivity.
Qed.

(** Without a positive duration the position is left as it is. *)
Lemma normalize_no_duration (fuel : nat) (d p : Q) :
  d <= 0 -> normalize fuel d p = Some p.
Proof.
  intros Hd. unfold normalize. rewrite (proj2 (ltb_ge 0 d) Hd). reflexivity.
Qed.

End ClockFacts.

(* ===================================================================== *)
(** ** The composed rate and the clock of the deck                        *)
(* ===================================================================== *)

Section DeckClock.
Import Deck.

(** C1.  For every pitch, bend, sync rate and reverse flag the composed
    playback rate is [(pitch + bend + (syncRate - 1))] times [-1] when
    reverse is set and times [1] otherwise; [toggleReverse] flips the
    sign of the rate and leaves the three factors alone. *)
Theorem playbackRate_composed (s : Deck) (p b r : Q) (rev : bool) :
  let s' := setIsReverse rev (setSyncRate r (setBendAmount b (setSpeed p s))) in
  playbackRate s' = (p + b + (r - 1)) * (if rev then -1 else 1) /\
  playbackRate (toggleReverse s') == - playbackRate s' /\
  pitch (toggleReverse s') = p /\
  bend (toggleReverse s') = b /\
  syncRate (toggleReverse s') = r.
Proof.
  simpl. split; [reflexivity|]. split; [|repeat split].
  unfold playbackRate, toggleReverse. simpl. destruct rev; simpl; ring.
Qed.

(** C2.  For a positive duration, any anchor position, rate (negative
    ones included) and elapsed time, the position [anchor + elapsed * rate]
    normalised by the loop and the remainder lies in [[0, duration)]; the
    loop needs no more than [budget] iterations. *)
Theorem clock_position_in_range (d p0 elapsed r : Q) (fuel : nat) :
  0 < d ->
  (SampleClock.budget d (p0 + elapsed * r) <= fuel)%nat ->
  exists q : Q,
    SampleClock.normalize fuel d (p0 + elapsed * r) = Some q /\
    0 <= q /\ q < d.
Proof.
  intros Hd Hfuel.
  destruct (normalize_total d (p0 + elapsed * r) Hd) as (q & [Hlo Hhi] & _ & Hrun).
  exists q. split; [apply Hrun; exact Hfuel | split; assumption].
Qed.

Lemma clock_position_in_range_witness :
  exists q : Q,
    SampleClock.normalize 1 100 (10 + 30 * - (1)) = Some q /\
    0 <= q /\ q < 100.
Proof.
  apply (clock_position_in_range 100 10 30 (- (1)) 1).
  - reflexivity.
  - vm_compute. lia.
Defined.

(** While playing, the display tick reports a position of [[0, duration)]. *)
Lemma updateLoop_playing_in_range (s : Deck) (now : Q) :
  0 < duration s -> isPlaying s = true -> audioContextRef s = true ->
  exists q : Q,
    (0 <= q /\ q < duration s) /\
    (exists k : Z,
       q == pauseTimeRef s + (now - startTimeRef s) * playbackRate s
            + inject_Z k * duration s) /\
    forall fuel,
      (SampleClock.budget (duration s)
         (pauseTimeRef s + (now - startTimeRef s) * playbackRate s) <= fuel)%nat ->
      updateLoop fuel now s = Some (setCurrentTime q s).
Proof.
  intros Hd Hplay Hctx.
  destruct (normalize_total (duration s)
              (pauseTimeRef s + (now - startTimeRef s) * playbackRate s) Hd)
    as (q & Hrange & Hk & Hrun).
  exists q. split; [exact Hrange|]. split; [exact Hk|].
  intros fuel Hfuel. unfold updateLoop. rewrite Hplay, Hctx. simpl.
  rewrite (Hrun fuel Hfuel). reflexivity.
Qed.

(** While paused, the display tick reports the stored anchor as it is. *)
Lemma updateLoop_paused (s : Deck) (fuel : nat) (now : Q) :
  isPlaying s = false ->
  updateLoop fuel now s = Some (setCurrentTime (pauseTimeRef s) s).
Proof.
  intros Hp. unfold updateLoop. rewrite Hp. reflexivity.
Qed.

(** [pause] on a playing deck stores a position of [[0, duration)]. *)
Lemma pause_in_range (s : Deck) (now : Q) (src : SourceNode) :
  0 < duration s -> isPlaying s = true -> audioContextRef s = true ->
  sourceNodeRef s = Some src ->
  exists q : Q,
    (0 <= q /\ q < duration s) /\
    forall fuel,
      (SampleClock.budget (duration s)
         (pauseTimeRef s + (now - startTimeRef s) * playbackRate s) <= fuel)%nat ->
      pause fuel now s =
        Some (setIsPlaying false (setPauseTimeRef q (setSourceNodeRef None s))).
Proof.
  intros Hd Hplay Hctx Hsrc.
  destruct (normalize_total (duration s)
              (pauseTimeRef s + (now - startTimeRef s) * playbackRate s) Hd)
    as (q & Hrange & _ & Hrun).
  exists q. split; [exact Hrange|].
  intros fuel Hfuel. unfold pause. rewrite Hsrc, Hplay, Hctx. simpl.
  rewrite (Hrun fuel Hfuel). reflexivity.
Qed.

(** On a point of [[0, d)] the remainder is the identity. *)
Lemma rem_in_range (p d : Q) : 0 <= p -> p < d -> JsNum.rem p d == p.
Proof.
  intros Hp Hd. assert (Hd0 : 0 < d) by lra.
  destruct (rem_nonneg_range p d Hp Hd0) as (Hlo & Hhi & Hrem).
  apply (congruent_in_range d _ _ (- Qfloor (p / d)) Hd0 Hlo Hhi Hp Hd).
  rewrite inject_Z_opp. set (F := inject_Z (Qfloor (p / d))) in *. lra.
Qed.

(** [play] on a deck paused at [p] starts the source at [p], but sets the
    anchor time back by [p] while the anchor position stays [p]: at the
    resume instant the clock reads [p + p * rate], wrapped. *)
Lemma play_clock_reads (s : Deck) (buf : AudioBuffer) (now : Q) :
  audioContextRef s = true -> audioBuffer s = Some buf ->
  buf_duration buf = duration s ->
  0 <= pauseTimeRef s -> pauseTimeRef s < duration s ->
  let p := pauseTimeRef s in
  exists (q : Q) (k : Z) (fuel0 : nat),
    (src_offset <$> sourceNodeRef (play now s) = Some (JsNum.rem p (duration s))) /\
    JsNum.rem p (duration s) == p /\
    (0 <= q /\ q < duration s) /\
    q == p + p * playbackRate s + inject_Z k * duration s /\
    forall fuel, (fuel0 <= fuel)%nat -> reported fuel now (play now s) = Some q.
Proof.
  intros Hctx Hbuf Hdur Hlo Hhi p. subst p.
  assert (Hd : 0 < duration s) by lra.
  pose proof (rem_in_range _ _ Hlo Hhi) as Hrem.
  assert (Hplay : play now s =
    setIsPlaying true
      (setSourceNodeRef
         (Some (mkSource (playbackRate s) (isLooping s)
                  (JsNum.rem (pauseTimeRef s) (duration s))))
         (setStartTimeRef (now - JsNum.rem (pauseTimeRef s) (duration s)) s))).
  { unfold play. rewrite Hctx, Hbuf, Hdur.
    destruct (JsNum.ltb (JsNum.rem (pauseTimeRef s) (duration s)) 0) eqn:E;
      [|reflexivity].
    apply ltb_lt in E. lra. }
  destruct (updateLoop_playing_in_range (play now s) now) as (q & Hq & (k & Hk) & Hrun);
    try (rewrite Hplay; simpl; assumption || reflexivity).
  exists q, k. eexists. rewrite Hplay in Hq, Hk, Hrun |- *. simpl in Hq, Hk, Hrun |- *.
  split; [reflexivity|]. split; [exact Hrem|]. split; [exact Hq|]. split.
  - change (playbackRate (setIsPlaying _ _)) with (playbackRate s) in Hk.
    rewrite Hk, Hrem. ring.
  - intros fuel Hfuel. unfold reported. rewrite (Hrun fuel Hfuel). reflexivity.
Qed.

(** C3.  The deck paused at 10 seconds of a 100-second track and played
    again at time 50: the source starts at 10, the position the clock
    reports at that instant is 20. *)
Theorem resume_moves_playhead :
  exists paused resumed shown : Deck,
    Session.pausedAtTen = Some paused /\
    isPlaying paused = false /\ pauseTimeRef paused == 10 /\
    Session.resumedAtFifty = Some resumed /\
    isPlaying resumed = true /\
    Qeq_bool (from_option src_offset 0 (sourceNodeRef resumed)) 10 = true /\
    updateLoop 1 50 resumed = Some shown /\
    currentTime shown == 20 /\ ~ currentTime shown == 10.
Proof.
  eexists _, _, _.
  split; [vm_compute; reflexivity|].
  split; [reflexivity|]. split; [reflexivity|].
  split; [vm_compute; reflexivity|].
  split; [reflexivity|]. split; [reflexivity|].
  split; [vm_compute; reflexivity|].
  split; [reflexivity | discriminate].
Qed.

(** C4, as stated, fails: on the deck paused in a 100-second track,
    [seek(150)] makes 150 the reported position, and the display tick
    keeps it. *)
Lemma seek_paused_out_of_range :
  exists paused sought : Deck,
    Session.pausedAtTen = Some paused /\ duration paused == 100 /\
    seek 1 50 150 paused = Some sought /\
    ~ currentTime sought < duration sought /\
    exists q : Q, reported 1 60 sought = Some q /\ ~ q < duration sought.
Proof.
  eexists _, _.
  split; [vm_compute; reflexivity|].
  split; [reflexivity|].
  split; [vm_compute; reflexivity|].
  split; [discriminate|].
  eexists. split; [vm_compute; reflexivity | discriminate].
Qed.

(** C4, amended.  With a track of positive duration loaded, [seek(time)]
    makes [time] itself the reported position and the clock anchor.  While
    paused the display tick keeps reporting [time], so the position is in
    [[0, duration)] exactly when [time] is; while playing the deck stays
    playing, on a source restarted with the deck's rate and loop flag at
    an offset that the anchor time is set back by, and every later display
    tick reports a position of [[0, duration)]. *)
Theorem seek_reported_position (s : Deck) (buf : AudioBuffer) (now time : Q) :
  0 < duration s -> audioContextRef s = true -> audioBuffer s = Some buf ->
  (isPlaying s = false ->
     forall fuel fuel' now',
       exists s' : Deck,
         seek fuel now time s = Some s' /\ currentTime s' = time /\
         pauseTimeRef s' = time /\
         isPlaying s' = false /\
         reported fuel' now' s' = Some time /\
         ((0 <= time /\ time < duration s') <->
          (0 <= currentTime s' /\ currentTime s' < duration s'))) /\
  (isPlaying s = true ->
     exists fuel0 : nat, forall fuel, (fuel0 <= fuel)%nat ->
       exists s' : Deck,
         seek fuel now time s = Some s' /\ currentTime s' = time /\
         pauseTimeRef s' = time /\
         (exists off : Q,
            sourceNodeRef s' = Some (mkSource (playbackRate s) (isLooping s) off) /\
            startTimeRef s' = now - off) /\
         isPlaying s' = true /\ duration s' = duration s /\
         forall now', exists (fuel1 : nat) (q : Q),
           (0 <= q /\ q < duration s') /\
           forall fuel', (fuel1 <= fuel')%nat -> reported fuel' now' s' = Some q).
Proof.
  intros Hd Hctx Hbuf. split; intros Hplay.
  - intros fuel fuel' now'. unfold seek. rewrite Hplay. simpl.
    eexists. split; [reflexivity|]. simpl.
    split; [reflexivity|]. split; [reflexivity|]. split; [exact Hplay|]. split.
    + unfold reported. rewrite updateLoop_paused by exact Hplay. reflexivity.
    + reflexivity.
  - assert (Hpause : exists (fuel0 : nat) (s1 : Deck),
              (forall fuel, (fuel0 <= fuel)%nat -> pause fuel now s = Some s1) /\
              duration s1 = duration s /\ audioContextRef s1 = true /\
              audioBuffer s1 = Some buf /\
              playbackRate s1 = playbackRate s /\ isLooping s1 = isLooping s).
    { destruct (sourceNodeRef s) as [src|] eqn:Hsrc.
      - destruct (pause_in_range s now src Hd Hplay Hctx Hsrc) as (q & _ & Hrun).
        eexists _, _. split; [exact Hrun|]. simpl. auto.
      - exists O, s. split; [|auto].
        intros fuel _. unfold pause. rewrite Hsrc. reflexivity. }
    destruct Hpause as (fuel0 & s1 & Hrun & Hd1 & Hctx1 & Hbuf1 & Hrate1 & Hloop1).
    exists fuel0. intros fuel Hfuel.
    unfold seek. rewrite Hplay, (Hrun fuel Hfuel). simpl.
    eexists. split; [reflexivity|].
    unfold play. simpl. rewrite Hctx1, Hbuf1. simpl.
    split; [reflexivity|]. split; [reflexivity|].
    split.
    { eexists. split; [|reflexivity].
      change (playbackRate (setCurrentTime time (setPauseTimeRef time s1)))
        with (playbackRate s1).
      rewrite Hrate1, Hloop1. reflexivity. }
    split; [reflexivity|]. split; [exact Hd1|].
    intros now'.
    match goal with |- context [reported _ _ ?x] => set (s' := x) end.
    destruct (updateLoop_playing_in_range s' now') as (q & Hq & _ & Hq_run);
      try (subst s'; simpl; congruence).
    eexists _, q. split; [exact Hq|].
    intros fuel' Hfuel'. unfold reported. rewrite (Hq_run fuel' Hfuel'). reflexivity.
Qed.

Lemma seek_reported_position_witness :
  (exists s' : Deck,
     seek 0 50 150 Session.pausedAtZero = Some s' /\ currentTime s' = 150 /\
     pauseTimeRef s' = 150 /\
     isPlaying s' = false /\
     reported 0 60 s' = Some 150 /\
     ((0 <= 150 /\ 150 < duration s') <->
      (0 <= currentTime s' /\ currentTime s' < duration s'))) /\
  (exists fuel0 : nat, forall fuel, (fuel0 <= fuel)%nat ->
     exists s' : Deck,
       seek fuel 50 150 Session.playingFromZero = Some s' /\
       currentTime s' = 150 /\ pauseTimeRef s' = 150 /\
       (exists off : Q,
          sourceNodeRef s' =
            Some (mkSource (playbackRate Session.playingFromZero)
                    (isLooping Session.playingFromZero) off) /\
          startTimeRef s' = 50 - off) /\
       isPlaying s' = true /\
       duration s' = duration Session.playingFromZero /\
       forall now', exists (fuel1 : nat) (q : Q),
         (0 <= q /\ q < duration s') /\
         forall fuel', (fuel1 <= fuel')%nat -> reported fuel' now' s' = Some q).
Proof.
  split.
  - apply (seek_reported_position Session.pausedAtZero Session.track100 50 150);
      reflexivity.
  - apply (seek_reported_position Session.playingFromZero Session.track100 50 150);
      reflexivity.
Defined.

End DeckClock.

(* ===================================================================== *)
(** ** Re-anchoring on a change of rate                                   *)
(* ===================================================================== *)

Section Reanchor.
Import Deck.

Lemma playbackRate_toggleReverse (s : Deck) :
  playbackRate (toggleReverse s) == - playbackRate s.
Proof.
  unfold playbackRate, toggleReverse. simpl. destruct (isReverse s); simpl; ring.
Qed.

(** The effect on a playing deck: the anchor moves to the position the
    previous rate gives at [now]. *)
Lemma rateEffect_playing (s : Deck) (now : Q) :
  playing s ->
  exists (n : Q) (k : Z) (src : SourceNode),
    (0 <= n /\ n < duration s) /\
    n == pauseTimeRef s + (now - startTimeRef s) * lastPlaybackRateRef s
         + inject_Z k * duration s /\
    forall fuel,
      (SampleClock.budget (duration s)
         (pauseTimeRef s + (now - startTimeRef s) * lastPlaybackRateRef s)
       <= fuel)%nat ->
      rateEffect fuel now s =
        Some (setLastPlaybackRateRef (playbackRate s)
                (setSourceNodeRef (Some src)
                   (setStartTimeRef now (setPauseTimeRef n s)))).
Proof.
  intros (Hd & Hplay & Hctx & [src Hsrc]).
  destruct (normalize_total (duration s)
              (pauseTimeRef s + (now - startTimeRef s) * lastPlaybackRateRef s) Hd)
    as (n & Hn & (k & Hk) & Hrun).
  exists n, k. eexists. split; [exact Hn|]. split; [exact Hk|].
  intros fuel Hfuel. unfold rateEffect. rewrite Hplay, Hctx, Hsrc. simpl.
  rewrite (Hrun fuel Hfuel). reflexivity.
Qed.

(** When a dependency changed, the render leaves the current rate in
    [lastPlaybackRateRef]; so does the render after [play] on a paused
    deck, which is how a deck comes to play. *)
Lemma commit_remembers_rate (fuel : nat) (now : Q) (old new s' : Deck) :
  depsChanged old new = true -> commit fuel now old new = Some s' ->
  lastPlaybackRateRef s' = playbackRate s' /\ playbackRate s' = playbackRate new.
Proof.
  intros Hdeps. unfold commit, rateEffect. rewrite Hdeps.
  destruct (isPlaying new && audioContextRef new); [destruct (sourceNodeRef new)|].
  - destruct (SampleClock.normalize _ _ _); [|discriminate].
    simpl. intros [= <-]. split; reflexivity.
  - intros [= <-]. split; reflexivity.
  - intros [= <-]. split; reflexivity.
Qed.

Lemma play_remembers_rate (fuel : nat) (now : Q) (s s' : Deck) (buf : AudioBuffer) :
  isPlaying s = false -> audioContextRef s = true -> audioBuffer s = Some buf ->
  dispatch fuel now (fun s => Some (play now s)) s = Some s' ->
  isPlaying s' = true /\ lastPlaybackRateRef s' = playbackRate s'.
Proof.
  intros Hpaused Hctx Hbuf. unfold dispatch. simpl. intros Hrun.
  assert (Hplay : isPlaying (play now s) = true).
  { unfold play. rewrite Hctx, Hbuf. reflexivity. }
  assert (Hdeps : depsChanged s (play now s) = true).
  { unfold depsChanged. rewrite Hpaused, Hplay. simpl.
    rewrite andb_false_r. reflexivity. }
  destruct (commit_remembers_rate fuel now s (play now s) s' Hdeps Hrun) as [Hlast _].
  split; [|exact Hlast].
  unfold commit, rateEffect in Hrun. rewrite Hdeps, Hplay in Hrun.
  destruct (audioContextRef (play now s)); simpl in Hrun.
  - destruct (sourceNodeRef (play now s)).
    + destruct (SampleClock.normalize _ _ _); [|discriminate].
      simpl in Hrun. injection Hrun as <-. exact Hplay.
    + injection Hrun as <-. exact Hplay.
  - injection Hrun as <-. exact Hplay.
Qed.

(** [toggleReverse] and its render on a playing deck whose remembered
    rate is the current one: the deck keeps playing with the opposite
    rate, and its clock continues from the position it had at [now]. *)
Lemma toggleReverse_continues (s : Deck) (now : Q) :
  playing s -> lastPlaybackRateRef s == playbackRate s ->
  exists (s1 : Deck) (fuel0 : nat),
    (forall fuel, (fuel0 <= fuel)%nat ->
       dispatch fuel now (fun s => Some (toggleReverse s)) s = Some s1) /\
    playing s1 /\ duration s1 = duration s /\
    isReverse s1 = negb (isReverse s) /\
    pitch s1 = pitch s /\ bend s1 = bend s /\ syncRate s1 = syncRate s /\
    playbackRate s1 == - playbackRate s /\
    lastPlaybackRateRef s1 == playbackRate s1 /\
    forall t, exists k : Z,
      unwrapped s1 t ==
      unwrapped s now + (t - now) * playbackRate s1 + inject_Z k * duration s.
Proof.
  intros Hp Hlast.
  pose proof (playbackRate_toggleReverse s) as Hneg.
  assert (Hp' : playing (toggleReverse s)) by exact Hp.
  unfold dispatch. simpl. unfold commit, depsChanged.
  change (duration (toggleReverse s)) with (duration s).
  change (isPlaying (toggleReverse s)) with (isPlaying s).
  rewrite (proj2 (Qeq_bool_iff (duration s) (duration s)) (Qeq_refl _)).
  rewrite eqb_reflx, !andb_true_r.
  destruct (Qeq_bool (playbackRate s) (playbackRate (toggleReverse s))) eqn:E; simpl.
  - (* the rate is zero: no dependency changed *)
    apply Qeq_bool_iff in E.
    assert (Hz : playbackRate s == 0) by lra.
    exists (toggleReverse s), O. split; [reflexivity|].
    split; [exact Hp'|]. repeat (split; [reflexivity|]).
    split; [exact Hneg|]. split.
    + change (lastPlaybackRateRef (toggleReverse s)) with (lastPlaybackRateRef s). lra.
    + intros t. exists 0%Z. unfold unwrapped.
      change (pauseTimeRef (toggleReverse s)) with (pauseTimeRef s).
      change (startTimeRef (toggleReverse s)) with (startTimeRef s).
      rewrite Hneg, Hz. change (inject_Z 0) with 0. ring.
  - (* the effect re-anchors *)
    destruct (rateEffect_playing (toggleReverse s) now Hp')
      as (n & k & src & Hn & Hk & Hrun).
    eexists _, _. split; [exact Hrun|].
    destruct Hp as (Hd & Hplay & Hctx & Hsrc).
    split; [repeat split; try assumption; simpl; eauto|].
    repeat (split; [reflexivity|]).
    split; [exact Hneg|]. split; [reflexivity|].
    intros t. exists k. unfold unwrapped. simpl.
    change (pauseTimeRef (toggleReverse s)) with (pauseTimeRef s) in Hk.
    change (startTimeRef (toggleReverse s)) with (startTimeRef s) in Hk.
    change (lastPlaybackRateRef (toggleReverse s)) with (lastPlaybackRateRef s) in Hk.
    change (duration (toggleReverse s)) with (duration s) in Hk.
    change (playbackRate (setLastPlaybackRateRef _ _))
      with (playbackRate (toggleReverse s)).
    rewrite Hk, Hlast. ring.
Qed.

(** The display tick of a playing deck reports the wrapped clock. *)
Lemma reported_playing (s : Deck) (t : Q) :
  playing s ->
  exists (q : Q) (k : Z) (fuel0 : nat),
    (0 <= q /\ q < duration s) /\
    q == unwrapped s t + inject_Z k * duration s /\
    forall fuel, (fuel0 <= fuel)%nat -> reported fuel t s = Some q.
Proof.
  intros (Hd & Hplay & Hctx & _).
  destruct (updateLoop_playing_in_range s t Hd Hplay Hctx) as (q & Hq & (k & Hk) & Hrun).
  exists q, k. eexists. split; [exact Hq|]. split; [exact Hk|].
  intros fuel Hfuel. unfold reported. rewrite (Hrun fuel Hfuel). reflexivity.
Qed.

(** X29.  On a playing deck whose remembered rate is its current rate, at
    position [p]: toggle reverse, let [delta] elapse, toggle reverse again,
    let [delta] elapse; the reported position is [p] again (positions are
    exact rationals wrapped into [[0, duration)]), and the direction and
    rate are the original ones. *)
Theorem reverse_round_trip (s : Deck) (t delta : Q) :
  playing s -> lastPlaybackRateRef s == playbackRate s ->
  exists (fuel0 : nat) (p q : Q) (s1 s2 : Deck),
    (0 <= p /\ p < duration s) /\ q == p /\
    isReverse s1 = negb (isReverse s) /\ isReverse s2 = isReverse s /\
    playbackRate s2 == playbackRate s /\
    forall fuel, (fuel0 <= fuel)%nat ->
      reported fuel t s = Some p /\
      dispatch fuel t (fun s => Some (toggleReverse s)) s = Some s1 /\
      dispatch fuel (t + delta) (fun s => Some (toggleReverse s)) s1 = Some s2 /\
      reported fuel (t + delta + delta) s2 = Some q.
Proof.
  intros Hp Hlast.
  destruct (reported_playing s t Hp) as (p & kp & f0 & Hrange & Hpk & Hrun0).
  destruct (toggleReverse_continues s t Hp Hlast)
    as (s1 & f1 & Hrun1 & Hp1 & Hd1 & Hrev1 & _ & _ & _ & Hrate1 & Hlast1 & Hclock1).
  destruct (toggleReverse_continues s1 (t + delta) Hp1 Hlast1)
    as (s2 & f2 & Hrun2 & Hp2 & Hd2 & Hrev2 & _ & _ & _ & Hrate2 & _ & Hclock2).
  destruct (reported_playing s2 (t + delta + delta) Hp2)
    as (q & kq & f3 & Hqrange & Hqk & Hrun3).
  destruct (Hclock1 (t + delta)) as (k1 & Hk1).
  destruct (Hclock2 (t + delta + delta)) as (k2 & Hk2).
  rewrite Hd2, Hd1 in Hqrange, Hqk. rewrite Hd1 in Hk2.
  exists (Nat.max (Nat.max f0 f1) (Nat.max f2 f3)), p, q, s1, s2.
  split; [exact Hrange|]. split.
  - destruct Hp as (Hd & _). destruct Hrange, Hqrange.
    apply (congruent_in_range (duration s) q p (kq + k2 + k1 - kp)); try assumption.
    unfold Zminus. rewrite !inject_Z_plus, inject_Z_opp.
    rewrite Hqk, Hk2, Hk1, Hrate2, Hrate1, Hpk. ring.
  - split; [exact Hrev1|]. split.
    { rewrite Hrev2, Hrev1. apply negb_involutive. }
    split.
    { rewrite Hrate2, Hrate1. ring. }
    intros fuel Hfuel.
    split; [apply Hrun0; lia|]. split; [apply Hrun1; lia|].
    split; [apply Hrun2; lia | apply Hrun3; lia].
Qed.

Lemma reverse_round_trip_witness :
  exists (fuel0 : nat) (p q : Q) (s1 s2 : Deck),
    (0 <= p /\ p < duration Session.playingFromZero) /\ q == p /\
    isReverse s1 = negb (isReverse Session.playingFromZero) /\
    isReverse s2 = isReverse Session.playingFromZero /\
    playbackRate s2 == playbackRate Session.playingFromZero /\
    forall fuel, (fuel0 <= fuel)%nat ->
      reported fuel 30 Session.playingFromZero = Some p /\
      dispatch fuel 30 (fun s => Some (toggleReverse s)) Session.playingFromZero
        = Some s1 /\
      dispatch fuel (30 + 20) (fun s => Some (toggleReverse s)) s1 = Some s2 /\
      reported fuel (30 + 20 + 20) s2 = Some q.
Proof.
  apply (reverse_round_trip Session.playingFromZero 30 20).
  - repeat split; simpl; eauto.
  - reflexivity.
Defined.

(** C5.  The round trip fails on a playing deck the hook reaches.  A
    100-second track is loaded, the pitch set to 3/2 and the deck started;
    the same file is chosen again, play is pressed while it decodes, and
    the decoding settles: [loadFile] writes 1 into the remembered rate and
    no dependency of the effect has changed, so the deck plays at 3/2 and
    remembers 1.  At time 11 the position is 10.5; the first toggle
    re-anchors with the remembered 1 at 7, and after 2 seconds, the second
    toggle and 2 more seconds the position is 7, not 10.5. *)
Theorem reverse_round_trip_after_reload :
  exists (s s1 s2 : Deck) (p p1 q : Q),
    Transport.run 2 Scenario.reloadWhilePlaying initial = Some s /\
    playing s /\ lastPlaybackRateRef s == 1 /\ playbackRate s == 3 # 2 /\
    reported 2 11 s = Some p /\ p == 21 # 2 /\
    Transport.exec 2 11 Transport.ToggleReverse s = Some s1 /\
    reported 2 11 s1 = Some p1 /\ p1 == 7 /\
    Transport.exec 2 (11 + 2) Transport.ToggleReverse s1 = Some s2 /\
    isReverse s2 = isReverse s /\ playbackRate s2 == playbackRate s /\
    reported 2 (11 + 2 + 2) s2 = Some q /\ q == 7 /\ ~ q == p.
Proof.
  eexists _, _, _, _, _, _.
  split; [vm_compute; reflexivity|].
  split; [repeat split; simpl; eauto|].
  split; [reflexivity|]. split; [reflexivity|].
  split; [vm_compute; reflexivity|]. split; [reflexivity|].
  split; [vm_compute; reflexivity|].
  split; [vm_compute; reflexivity|]. split; [reflexivity|].
  split; [vm_compute; reflexivity|].
  split; [reflexivity|]. split; [reflexivity|].
  split; [vm_compute; reflexivity|]. split; [reflexivity|]. discriminate.
Qed.

End Reanchor.

(* ===================================================================== *)
(** ** Loading a track and synchronising the tempo                        *)
(* ===================================================================== *)

Section DeckCommands.
Import Deck.

(** The render after a handler that leaves the deck paused changes at
    most the remembered rate. *)
Lemma commit_not_playing (fuel : nat) (now : Q) (old new : Deck) :
  isPlaying new = false ->
  exists r : Q, commit fuel now old new = Some (setLastPlaybackRateRef r new).
Proof.
  intros Hp. unfold commit, rateEffect. rewrite Hp. simpl.
  destruct (depsChanged old new).
  - eexists. reflexivity.
  - exists (lastPlaybackRateRef new). destruct new. reflexivity.
Qed.

(** C6, as stated, fails: the deck with pitch 3/2, bend 1/10, loop on and
    echo at wet 1/2 keeps all five over a load. *)
Lemma load_keeps_controls :
  exists before after : Deck,
    Session.tweaked = Some before /\
    loadFile 1 0 "second.mp3" (Some Session.track100) before = Some after /\
    pitch after == 3 # 2 /\ ~ pitch after == 1 /\
    bend after == 1 # 10 /\ ~ bend after == 0 /\
    isLooping after = true /\ activeFX after = ECHO /\ fxWet after == 1 # 2.
Proof.
  eexists _, _.
  split; [vm_compute; reflexivity|].
  split; [vm_compute; reflexivity|].
  repeat split; discriminate.
Qed.

(** C6, amended.  For every prior deck state a successful load sets the
    position and its anchor to 0, clears the three hot cues, sets the sync
    rate to 1 and reverse off, stops the transport, takes the duration of
    the new track and sets the BPM to 128 with the analysis pending; it
    leaves pitch, bend, looping, the active effect and the wet amount as
    they were. *)
Theorem load_resets (s : Deck) (fuel : nat) (now : Q) (name : string)
    (buf : AudioBuffer) :
  audioContextRef s = true ->
  exists s' : Deck,
    loadFile fuel now name (Some buf) s = Some s' /\
    (currentTime s' = 0 /\ pauseTimeRef s' = 0 /\
     hotCues s' = [None; None; None] /\ syncRate s' = 1 /\
     isReverse s' = false /\ isPlaying s' = false /\
     duration s' = buf_duration buf /\ audioBuffer s' = Some buf /\
     isLoaded s' = true /\ fileName s' = Some name /\
     bpm s' = Bpm 128 /\ isBpmAnalyzing s' = true) /\
    (pitch s' = pitch s /\ bend s' = bend s /\ isLooping s' = isLooping s /\
     activeFX s' = activeFX s /\ fxWet s' = fxWet s /\
     isWidePitch s' = isWidePitch s).
Proof.
  intros Hctx. unfold loadFile. rewrite Hctx.
  destruct (commit_not_playing fuel now s (loadFile_begin name s) eq_refl)
    as (r1 & ->). simpl.
  match goal with
  | |- context [commit fuel now ?a ?b] =>
      destruct (commit_not_playing fuel now a b eq_refl) as (r2 & ->)
  end.
  eexists. split; [reflexivity|]. simpl. repeat split.
Qed.

Lemma load_resets_witness :
  exists s' : Deck,
    loadFile 1 0 "second.mp3" (Some Session.track100) Session.playingFromZero
      = Some s' /\
    (currentTime s' = 0 /\ pauseTimeRef s' = 0 /\
     hotCues s' = [None; None; None] /\ syncRate s' = 1 /\
     isReverse s' = false /\ isPlaying s' = false /\
     duration s' = buf_duration Session.track100 /\
     audioBuffer s' = Some Session.track100 /\
     isLoaded s' = true /\ fileName s' = Some "second.mp3"%string /\
     bpm s' = Bpm 128 /\ isBpmAnalyzing s' = true) /\
    (pitch s' = pitch Session.playingFromZero /\
     bend s' = bend Session.playingFromZero /\
     isLooping s' = isLooping Session.playingFromZero /\
     activeFX s' = activeFX Session.playingFromZero /\
     fxWet s' = fxWet Session.playingFromZero /\
     isWidePitch s' = isWidePitch Session.playingFromZero).
Proof.
  apply (load_resets Session.playingFromZero 1 0 "second.mp3" Session.track100).
  reflexivity.
Defined.

(** C7.  With a current BPM [b <> 0], [syncToBpm(target)] sets the sync
    rate to [target / b] and the pitch to 1, and the composed rate is then
    the sync rate when bend is 0 and reverse is off; at BPM 128 a target of
    140 gives 1.09375.  With a current BPM of 0 the deck is left exactly
    as it was. *)
Theorem syncToBpm_spec (s : Deck) (target b : Q) :
  bpm s = Bpm b ->
  (~ b == 0 ->
     syncRate (syncToBpm target s) = target / b /\
     pitch (syncToBpm target s) = 1 /\
     (bend s == 0 -> isReverse s = false ->
        playbackRate (syncToBpm target s) == syncRate (syncToBpm target s))) /\
  (b == 0 -> syncToBpm target s = s) /\
  (b == 128 -> target == 140 ->
     syncRate (syncToBpm target s) == 109375 # 100000).
Proof.
  intros Hb. unfold syncToBpm. rewrite Hb. split; [|split].
  - intros Hnz.
    destruct (Qeq_bool b 0) eqn:E; [apply Qeq_bool_iff in E; contradiction|].
    simpl. split; [reflexivity|]. split; [reflexivity|].
    intros Hbend Hrev. unfold playbackRate. simpl. rewrite Hrev, Hbend. ring.
  - intros Hz. rewrite (proj2 (Qeq_bool_iff b 0) Hz). reflexivity.
  - intros H128 H140.
    destruct (Qeq_bool b 0) eqn:E.
    + apply Qeq_bool_iff in E. rewrite E in H128. discriminate.
    + simpl. rewrite H128, H140. reflexivity.
Qed.

Lemma syncToBpm_spec_witness :
  syncRate (syncToBpm 140 initial) = 140 / 128 /\
  pitch (syncToBpm 140 initial) = 1 /\
  playbackRate (syncToBpm 140 initial) == 109375 # 100000 /\
  syncToBpm 140 (setBpm (Bpm 0) initial) = setBpm (Bpm 0) initial.
Proof.
  destruct (syncToBpm_spec initial 140 128 eq_refl) as (Hset & _ & Hex).
  destruct (syncToBpm_spec (setBpm (Bpm 0) initial) 140 0 eq_refl) as (_ & Hnop & _).
  destruct Hset as (Hrate & Hpitch & Hcomposed); [discriminate|].
  split; [exact Hrate|]. split; [exact Hpitch|]. split.
  - rewrite Hcomposed by reflexivity. apply Hex; reflexivity.
  - apply Hnop. reflexivity.
Defined.

End DeckCommands.

(* ===================================================================== *)
(** ** Tap tempo                                                          *)
(* ===================================================================== *)

Section TapTempo.
Import Deck.

(** The code's interval loop computes the gaps of the specification. *)
Lemma intervals_gaps (times : list Z) : intervals times = Spec.gaps times.
Proof.
  induction times as [|a rest IH]; [reflexivity|].
  destruct rest as [|b rest]; [reflexivity|].
  change (intervals (a :: b :: rest)) with ((b - a)%Z :: intervals (b :: rest)).
  rewrite IH. reflexivity.
Qed.

Lemma fold_left_add (l : list Z) (acc : Z) :
  fold_left Z.add l acc = (acc + fold_right Z.add 0 l)%Z.
Proof.
  revert acc. induction l as [|x l IH]; intros acc; simpl; [lia|].
  rewrite IH. lia.
Qed.

(** The tempo the code computes is the specification's formula. *)
Lemma tapTempo_spec (times : list Z) : tapTempo times = Spec.tapTempo times.
Proof.
  unfold tapTempo, Spec.tapTempo, Spec.mean, Spec.oneDecimal.
  rewrite fold_left_add, intervals_gaps. reflexivity.
Qed.

Lemma last_cons_default (b : Z) (rest : list Z) (a : Z) :
  List.last (b :: rest) a = List.last rest b.
Proof.
  revert b a. induction rest as [|c rest IH]; intros b a; [reflexivity|].
  change (List.last (b :: c :: rest) a) with (List.last (c :: rest) a).
  rewrite (IH c a), <- (IH c b). reflexivity.
Qed.

(** The gaps telescope: their sum is the last stamp minus the first. *)
Lemma gaps_sum (a : Z) (rest : list Z) :
  fold_right Z.add 0%Z (Spec.gaps (a :: rest)) = (List.last rest a - a)%Z.
Proof.
  revert a. induction rest as [|b rest IH]; intros a; [simpl; lia|].
  change (Spec.gaps (a :: b :: rest)) with ((b - a)%Z :: Spec.gaps (b :: rest)).
  change (fold_right Z.add 0%Z ((b - a)%Z :: Spec.gaps (b :: rest)))
    with ((b - a) + fold_right Z.add 0%Z (Spec.gaps (b :: rest)))%Z.
  rewrite (IH b).
  rewrite (last_cons_default b rest a). lia.
Qed.

Lemma gaps_length (times : list Z) :
  length (Spec.gaps times) = (length times - 1)%nat.
Proof.
  induction times as [|a [|b rest] IH]; try reflexivity.
  change (Spec.gaps (a :: b :: rest)) with ((b - a)%Z :: Spec.gaps (b :: rest)).
  simpl in *. rewrite IH. lia.
Qed.

(** So the mean interval is the span of the buffer over its gap count. *)
Lemma mean_gaps_span (a : Z) (rest : list Z) :
  Spec.mean (Spec.gaps (a :: rest)) =
  inject_Z (List.last rest a - a) / inject_Z (Z.of_nat (length rest)).
Proof.
  unfold Spec.mean. rewrite gaps_sum, gaps_length.
  replace (length (a :: rest) - 1)%nat with (length rest) by (simpl; lia).
  reflexivity.
Qed.

Lemma gaps_snoc (l : list Z) (t x : Z) :
  last l = Some t -> Spec.gaps (l ++ [x]) = Spec.gaps l ++ [(x - t)%Z].
Proof.
  induction l as [|a [|b rest] IH]; intros Hlast.
  - discriminate.
  - injection Hlast as ->. reflexivity.
  - change (Spec.gaps ((a :: b :: rest) ++ [x]))
      with ((b - a)%Z :: Spec.gaps ((b :: rest) ++ [x])).
    rewrite IH by exact Hlast. reflexivity.
Qed.

Lemma last_recent (n : nat) (l : list Z) :
  (0 < n)%nat -> last (Spec.recent n l) = last l.
Proof.
  intros Hn. unfold Spec.recent.
  destruct (decide (l = [])) as [->|Hne]; [reflexivity|].
  rewrite !last_lookup, lookup_drop, length_drop. f_equal.
  assert (0 < length l)%nat by (destruct l; [congruence | simpl; lia]).
  lia.
Qed.

(** Appending a stamp to the recent four and dropping the oldest when
    five are held gives the recent four of the longer run. *)
Lemma recent_push (l : list Z) (x : Z) :
  (let pushed := Spec.recent 4 l ++ [x] in
   if (4 <? length pushed)%nat then tail pushed else pushed)
  = Spec.recent 4 (l ++ [x]).
Proof.
  unfold Spec.recent. cbv zeta.
  rewrite !length_app, length_drop. simpl length.
  destruct (le_lt_dec 4 (length l)) as [Hge|Hlt].
  - replace (4 <? length l - (length l - 4) + 1)%nat with true
      by (symmetry; apply Nat.ltb_lt; lia).
    replace (length l + 1 - 4)%nat with ((length l - 4) + 1)%nat by lia.
    rewrite <- drop_drop, drop_app_le by lia.
    destruct (drop (length l - 4) l ++ [x]); reflexivity.
  - replace (4 <? length l - (length l - 4) + 1)%nat with false
      by (symmetry; apply Nat.ltb_ge; lia).
    replace (length l - 4)%nat with 0%nat by lia.
    replace (length l + 1 - 4)%nat with 0%nat by lia.
    reflexivity.
Qed.

Lemma recent_length (l : list Z) :
  length (Spec.recent 4 l) = Nat.min 4 (length l).
Proof.
  unfold Spec.recent. rewrite length_drop. lia.
Qed.

(** A tap that is not stale: the buffer is pushed and trimmed, and the
    tempo is set once two stamps are held. *)
Lemma tapBpm_fresh (s : Deck) (now : Z) :
  (forall t, last (tapTimesRef s) = Some t -> (now - t <= 2000)%Z) ->
  let pushed := tapTimesRef s ++ [now] in
  let times' := if (4 <? length pushed)%nat then tail pushed else pushed in
  tapTimesRef (tapBpm now s) = times' /\
  bpm (tapBpm now s) =
    if (2 <=? length times')%nat then Spec.tapTempo times' else bpm s.
Proof.
  intros Hgap. unfold tapBpm.
  destruct (last (tapTimesRef s)) as [t|] eqn:Hlast.
  - specialize (Hgap t eq_refl).
    replace (2000 <? now - t)%Z with false by (symmetry; apply Z.ltb_ge; lia).
    cbv zeta.
    destruct (2 <=? length _)%nat; simpl; rewrite ?tapTempo_spec; split; reflexivity.
  - cbv zeta.
    destruct (2 <=? length _)%nat; simpl; rewrite ?tapTempo_spec; split; reflexivity.
Qed.

(** A run of taps without a stale one, after the stamps [tapTimesRef s]
    already held. *)
Lemma taps_fresh (s : Deck) (stamps : list Z) :
  (length (tapTimesRef s) <= 4)%nat ->
  Forall (fun g => (g <= 2000)%Z) (Spec.gaps (tapTimesRef s ++ stamps)) ->
  tapTimesRef (taps stamps s) = Spec.recent 4 (tapTimesRef s ++ stamps) /\
  bpm (taps stamps s) =
    if (1 <=? length stamps)%nat && (2 <=? length (tapTimesRef s ++ stamps))%nat
    then Spec.tapTempo (Spec.recent 4 (tapTimesRef s ++ stamps))
    else bpm s.
Proof.
  intros Hheld.
  induction stamps as [|x l IH] using rev_ind; intros Hgaps.
  - rewrite app_nil_r. split; [|reflexivity].
    unfold Spec.recent. replace (length (tapTimesRef s) - 4)%nat with 0%nat by lia.
    reflexivity.
  - rewrite app_assoc in Hgaps |- *.
    set (all := tapTimesRef s ++ l) in *.
    assert (Hl : Forall (fun g => (g <= 2000)%Z) (Spec.gaps all) /\
                 forall t, last all = Some t -> (x - t <= 2000)%Z).
    { destruct (last all) as [t|] eqn:Hlast.
      - rewrite (gaps_snoc all t x Hlast) in Hgaps.
        apply Forall_app in Hgaps as [Hl Hx]. split; [exact Hl|].
        intros t' [= <-]. inversion Hx; assumption.
      - apply last_None in Hlast. rewrite Hlast.
        split; [constructor | discriminate]. }
    destruct Hl as [Hl Hx]. destruct (IH Hl) as [IHbuf IHbpm].
    unfold taps in *. rewrite fold_left_app. simpl fold_left.
    set (s1 := fold_left (fun s now => tapBpm now s) l s) in *.
    destruct (tapBpm_fresh s1 x) as [Hbuf Hbpm].
    { rewrite IHbuf, last_recent by lia. exact Hx. }
    cbv zeta in Hbuf, Hbpm. rewrite IHbuf in Hbuf, Hbpm.
    pose proof (recent_push all x) as Hpush. cbv zeta in Hpush.
    rewrite Hpush in Hbuf, Hbpm.
    split; [exact Hbuf|]. rewrite Hbpm, recent_length, !length_app.
    change (length [x]) with 1%nat.
    replace (1 <=? length l + 1)%nat with true
      by (symmetry; apply Nat.leb_le; lia).
    rewrite andb_true_l.
    destruct (le_lt_dec 1 (length all)) as [Hone|Hnone].
    + replace (2 <=? Nat.min 4 (length all + 1))%nat with true
        by (symmetry; apply Nat.leb_le; lia).
      replace (2 <=? length all + 1)%nat with true
        by (symmetry; apply Nat.leb_le; lia).
      reflexivity.
    + replace (2 <=? Nat.min 4 (length all + 1))%nat with false
        by (symmetry; apply Nat.leb_gt; lia).
      replace (2 <=? length all + 1)%nat with false
        by (symmetry; apply Nat.leb_gt; lia).
      rewrite IHbpm.
      assert (Hnil : all = []) by (destruct all; [reflexivity | simpl in Hnone; lia]).
      apply app_eq_nil in Hnil as [_ ->]. reflexivity.
Qed.

(** A stale tap replaces the buffer by the new stamp alone and leaves
    the tempo as it is. *)
Lemma tapBpm_stale (s : Deck) (t now : Z) :
  last (tapTimesRef s) = Some t -> (2000 < now - t)%Z ->
  tapBpm now s = setTapTimesRef [now] s.
Proof.
  intros Hlast Hgap. unfold tapBpm. rewrite Hlast.
  replace (2000 <? now - t)%Z with true by (symmetry; apply Z.ltb_lt; lia).
  reflexivity.
Qed.

(** The exact rounding of the model is a rounding to a nearest tenth. *)
Lemma tapTempo_nearestTenth (stamps : list Z) :
  Spec.nearestTenth stamps (Spec.tapTempo stamps).
Proof.
  unfold Spec.nearestTenth, Spec.tapTempo.
  destruct (Qeq_bool (Spec.mean (Spec.gaps stamps)) 0) eqn:E.
  - apply Qeq_bool_iff in E. split; [reflexivity|]. intros Hne. contradiction.
  - split.
    + intros Hz. apply Qeq_bool_iff in Hz. congruence.
    + intros _. exists (JsNum.round (60000 / Spec.mean (Spec.gaps stamps) * 10)).
      split; [reflexivity|].
      set (v := 60000 / Spec.mean (Spec.gaps stamps) * 10).
      unfold JsNum.round.
      pose proof (Qfloor_le (v + (1 # 2))) as Hlo.
      pose proof (Qlt_floor (v + (1 # 2))) as Hhi.
      rewrite inject_Z_plus in Hhi. change (inject_Z 1) with 1 in Hhi.
      apply Qabs_Qle_condition. split; lra.
Qed.

(** C8, as stated, fails: for taps at 0, 1066, 2133 and 3200 ms the mean
    gap is 3200/3 and 60000 over it is 56.25, which rounds to 56.3; the
    code's binary64 product [newBpm * 10] is 562.49999999999989, and it
    sets 56.2. *)
Lemma tapBpm_tie_rounds_down :
  exists claimed code : Q,
    Spec.tapTempo [0; 1066; 2133; 3200]%Z = Bpm claimed /\
    claimed == 563 # 10 /\
    Binary64.toQ (Binary64.tapTempo [0; 1066; 2133; 3200]%Z) = Some code /\
    Qabs (code - (562 # 10)) < 1 # 1000000000000 /\
    ~ code == claimed.
Proof.
  eexists _, _.
  split; [vm_compute; reflexivity|]. split; [reflexivity|].
  split; [vm_compute; reflexivity|]. split; [reflexivity|]. discriminate.
Qed.

(** C8, amended.  After any run of taps whose consecutive gaps (the stamps
    held before included) are at most 2000 ms the buffer holds the most
    recent up-to-4 stamps, and a tap that brings the buffer to 2 stamps or
    more sets the BPM to 60000 over the mean gap of the buffered stamps
    rounded to a nearest tenth (either neighbour when the quotient is
    half-way between two tenths), while a first tap leaves the BPM as it
    was; from an empty buffer four taps 500 ms apart give 120.  A tap more
    than 2000 ms after the last one leaves only itself in the buffer and
    the BPM unchanged, and the next tap within 2000 ms sets the BPM from
    those two stamps. *)
Theorem tapBpm_nearest_tenth (s : Deck) (stamps : list Z) :
  (length (tapTimesRef s) <= 4)%nat ->
  Forall (fun g => (g <= 2000)%Z) (Spec.gaps (tapTimesRef s ++ stamps)) ->
  let held := tapTimesRef s ++ stamps in
  (tapTimesRef (taps stamps s) = Spec.recent 4 held /\
   (length (tapTimesRef (taps stamps s)) <= 4)%nat /\
   ((1 <= length stamps)%nat -> (2 <= length held)%nat ->
      Spec.nearestTenth (Spec.recent 4 held) (bpm (taps stamps s))) /\
   ((length held < 2)%nat -> bpm (taps stamps s) = bpm s)) /\
  (forall t0,
     tapTimesRef s = [] ->
     stamps = [t0; t0 + 500; t0 + 1000; t0 + 1500]%Z ->
     exists q, bpm (taps stamps s) = Bpm q /\ q == 120) /\
  (forall t late,
     last held = Some t -> (2000 < late - t)%Z ->
     tapTimesRef (tapBpm late (taps stamps s)) = [late] /\
     bpm (tapBpm late (taps stamps s)) = bpm (taps stamps s) /\
     forall next, (next - late <= 2000)%Z ->
       tapTimesRef (tapBpm next (tapBpm late (taps stamps s))) = [late; next] /\
       Spec.nearestTenth [late; next]
         (bpm (tapBpm next (tapBpm late (taps stamps s))))).
Proof.
  intros Hheld Hgaps held.
  destruct (taps_fresh s stamps Hheld Hgaps) as [Hbuf Hbpm].
  fold held in Hbuf, Hbpm.
  split; [|split].
  - split; [exact Hbuf|]. split.
    { rewrite Hbuf, recent_length. lia. }
    split.
    + intros Hone Htwo. rewrite Hbpm.
      replace (1 <=? length stamps)%nat with true
        by (symmetry; apply Nat.leb_le; lia).
      replace (2 <=? length held)%nat with true
        by (symmetry; apply Nat.leb_le; lia).
      apply tapTempo_nearestTenth.
    + intros Hlen. rewrite Hbpm.
      replace (2 <=? length held)%nat with false
        by (symmetry; apply Nat.leb_gt; lia).
      rewrite andb_false_r. reflexivity.
  - intros t0 Hempty Hstamps. rewrite Hbpm. subst held.
    rewrite Hempty, Hstamps. simpl app. simpl Nat.leb. cbv iota. simpl andb. cbv iota.
    change (Spec.recent 4 [t0; t0 + 500; t0 + 1000; t0 + 1500]%Z)
      with [t0; t0 + 500; t0 + 1000; t0 + 1500]%Z.
    unfold Spec.tapTempo. rewrite mean_gaps_span.
    change (List.last [t0 + 500; t0 + 1000; t0 + 1500]%Z t0) with (t0 + 1500)%Z.
    replace (t0 + 1500 - t0)%Z with 1500%Z by lia.
    eexists. split; reflexivity.
  - intros t late Hlast Hlate.
    assert (Hlast' : last (tapTimesRef (taps stamps s)) = Some t).
    { rewrite Hbuf, last_recent by lia. exact Hlast. }
    rewrite (tapBpm_stale _ t late Hlast' Hlate).
    split; [reflexivity|]. split; [reflexivity|].
    intros next Hnext.
    destruct (tapBpm_fresh (setTapTimesRef [late] (taps stamps s)) next) as [Hb Hp].
    { intros t' [= <-]. exact Hnext. }
    split; [exact Hb|]. rewrite Hp. apply tapTempo_nearestTenth.
Qed.

Lemma tapBpm_nearest_tenth_witness :
  (tapTimesRef (taps [0; 1066; 2133; 3200; 4266]%Z initial)
     = [1066; 2133; 3200; 4266]%Z /\
   Spec.nearestTenth [1066; 2133; 3200; 4266]%Z
     (bpm (taps [0; 1066; 2133; 3200; 4266]%Z initial))) /\
  (tapTimesRef (tapBpm 7000 (taps [0; 1066; 2133; 3200; 4266]%Z initial))
     = [7000%Z] /\
   bpm (tapBpm 7000 (taps [0; 1066; 2133; 3200; 4266]%Z initial))
     = bpm (taps [0; 1066; 2133; 3200; 4266]%Z initial)).
Proof.
  destruct (tapBpm_nearest_tenth initial [0; 1066; 2133; 3200; 4266]%Z)
    as (Hrun & _ & Hstale).
  - simpl. lia.
  - repeat constructor; vm_compute; discriminate.
  - destruct Hrun as (Hbuf & _ & Hbpm & _).
    destruct (Hstale 4266%Z 7000%Z) as (Hb & Hp & _); [reflexivity | lia |].
    split; [split; [exact Hbuf | apply Hbpm; simpl; lia] | split; [exact Hb | exact Hp]].
Defined.

End TapTempo.

(* ===================================================================== *)
(** ** The BPM detector                                                   *)
(* ===================================================================== *)

Section OctaveFolding.
Import BpmDetect.

Lemma pow2_zero : Spec.pow2 0 == 1.
Proof. reflexivity. Qed.

Lemma pow2_succ (n : nat) : Spec.pow2 (S n) == 2 * Spec.pow2 n.
Proof.
  unfold Spec.pow2. rewrite Nat2Z.inj_succ, Z.pow_succ_r by lia.
  rewrite inject_Z_mult. reflexivity.
Qed.

Lemma pow2_pos (n : nat) : 0 < Spec.pow2 n.
Proof.
  unfold Spec.pow2. change 0 with (inject_Z 0). rewrite <- Zlt_Qlt.
  apply Z.pow_pos_nonneg; lia.
Qed.

(** [2 ^ n] outgrows [n]. *)
Lemma pow2_above (n : nat) : inject_Z (Z.of_nat n) <= Spec.pow2 n.
Proof.
  unfold Spec.pow2. rewrite <- Zle_Qle.
  pose proof (Z.pow_gt_lin_r 2 (Z.of_nat n)). lia.
Qed.

(** With [fuel] doublings reaching 70 from a positive [b], the first loop
    exits after the least number [a] of doublings that reaches 70. *)
Lemma doubleBelow_exits (fuel : nat) : forall b : Q,
  70 <= b * Spec.pow2 fuel ->
  exists (q : Q) (a : nat),
    doubleBelow fuel b = Some q /\ q == b * Spec.pow2 a /\ 70 <= q /\
    forall a', (a' < a)%nat -> b * Spec.pow2 a' < 70.
Proof.
  induction fuel as [|fuel IH]; intros b Hreach.
  - rewrite pow2_zero in Hreach.
    exists b, O. simpl. rewrite (proj2 (ltb_ge b 70)) by lra.
    split; [reflexivity|]. rewrite pow2_zero.
    split; [ring|]. split; [lra|]. intros a' Ha'. lia.
  - simpl. destruct (JsNum.ltb b 70) eqn:E.
    + apply ltb_lt in E. rewrite pow2_succ in Hreach.
      destruct (IH (b * 2)) as (q & a & Hrun & Hq & Hge & Hmin); [lra|].
      exists q, (S a). split; [exact Hrun|]. rewrite pow2_succ.
      split; [lra|]. split; [exact Hge|].
      intros [|a'] Ha'.
      * rewrite pow2_zero. lra.
      * rewrite pow2_succ. specialize (Hmin a' ltac:(lia)). lra.
    + apply ltb_ge in E. exists b, O. rewrite pow2_zero.
      split; [reflexivity|]. split; [ring|]. split; [exact E|].
      intros a' Ha'. lia.
Qed.

Lemma doubleBelow_mono (n : nat) : forall (fuel : nat) (b q : Q),
  (n <= fuel)%nat -> doubleBelow n b = Some q -> doubleBelow fuel b = Some q.
Proof.
  induction n as [|n IH]; intros fuel b q Hle Hn.
  - simpl in Hn. destruct (JsNum.ltb b 70) eqn:E; [discriminate|].
    destruct fuel; simpl; rewrite E; exact Hn.
  - destruct fuel as [|fuel]; [lia|]. simpl in Hn |- *.
    destruct (JsNum.ltb b 70) eqn:E; [|exact Hn].
    apply IH; [lia | exact Hn].
Qed.

(** With [fuel] halvings reaching 180 from [b], the second loop exits
    after the least number [c] of halvings that reaches 180. *)
Lemma halveAbove_exits (fuel : nat) : forall b : Q,
  b <= 180 * Spec.pow2 fuel ->
  exists (q : Q) (c : nat),
    halveAbove fuel b = Some q /\ q * Spec.pow2 c == b /\ q <= 180 /\
    forall c', (c' < c)%nat -> 180 * Spec.pow2 c' < b.
Proof.
  induction fuel as [|fuel IH]; intros b Hreach.
  - rewrite pow2_zero in Hreach.
    exists b, O. simpl. rewrite (proj2 (ltb_ge 180 b)) by lra.
    split; [reflexivity|]. rewrite pow2_zero.
    split; [ring|]. split; [lra|]. intros c' Hc'. lia.
  - simpl. destruct (JsNum.ltb 180 b) eqn:E.
    + apply ltb_lt in E. rewrite pow2_succ in Hreach.
      assert (Hhalf : b / 2 * 2 == b) by field.
      destruct (IH (b / 2)) as (q & c & Hrun & Hq & Hle & Hmin); [lra|].
      exists q, (S c). split; [exact Hrun|]. rewrite pow2_succ.
      split; [lra|]. split; [exact Hle|].
      intros [|c'] Hc'.
      * rewrite pow2_zero. lra.
      * rewrite pow2_succ. specialize (Hmin c' ltac:(lia)). lra.
    + apply ltb_ge in E. exists b, O. rewrite pow2_zero.
      split; [reflexivity|]. split; [ring|]. split; [exact E|].
      intros c' Hc'. lia.
Qed.

Lemma halveAbove_mono (n : nat) : forall (fuel : nat) (b q : Q),
  (n <= fuel)%nat -> halveAbove n b = Some q -> halveAbove fuel b = Some q.
Proof.
  induction n as [|n IH]; intros fuel b q Hle Hn.
  - simpl in Hn. destruct (JsNum.ltb 180 b) eqn:E; [discriminate|].
    destruct fuel; simpl; rewrite E; exact Hn.
  - destruct fuel as [|fuel]; [lia|]. simpl in Hn |- *.
    destruct (JsNum.ltb 180 b) eqn:E; [|exact Hn].
    apply IH; [lia | exact Hn].
Qed.

(** Enough doublings exist for a positive tempo. *)
Lemma doublings_reach (b : Q) :
  0 < b -> 70 <= b * Spec.pow2 (Z.to_nat (Qceiling (70 / b))).
Proof.
  intros Hb. set (n := Z.to_nat (Qceiling (70 / b))).
  pose proof (pow2_above n) as Hpow.
  pose proof (Qle_ceiling (70 / b)) as Hc.
  assert (Hn : inject_Z (Qceiling (70 / b)) <= inject_Z (Z.of_nat n)).
  { rewrite <- Zle_Qle. subst n. lia. }
  assert (Hq : 70 / b <= Spec.pow2 n) by lra.
  apply (Qmult_le_l _ _ b Hb) in Hq.
  assert (Hs : b * (70 / b) == 70) by (field; lra).
  lra.
Qed.

(** Enough halvings exist for any tempo. *)
Lemma halvings_reach (b : Q) :
  b <= 180 * Spec.pow2 (Z.to_nat (Qceiling (b / 180))).
Proof.
  set (n := Z.to_nat (Qceiling (b / 180))).
  pose proof (pow2_above n) as Hpow.
  pose proof (Qle_ceiling (b / 180)) as Hc.
  assert (Hn : inject_Z (Qceiling (b / 180)) <= inject_Z (Z.of_nat n)).
  { rewrite <- Zle_Qle. subst n. lia. }
  assert (Hs : 180 * (b / 180) == b) by field.
  lra.
Qed.

(** [Math.round] is within a half of its argument and keeps the bounds
    70 and 180. *)
Lemma round_nearest (v : Q) :
  v - (1 # 2) < inject_Z (JsNum.round v) /\ inject_Z (JsNum.round v) <= v + (1 # 2).
Proof.
  unfold JsNum.round.
  pose proof (Qfloor_le (v + (1 # 2))) as Hlo.
  pose proof (Qlt_floor (v + (1 # 2))) as Hhi.
  rewrite inject_Z_plus in Hhi. change (inject_Z 1) with 1 in Hhi.
  split; lra.
Qed.

Lemma round_canonical (v : Q) :
  70 <= v -> v <= 180 -> (70 <= JsNum.round v <= 180)%Z.
Proof.
  intros Hlo Hhi. unfold JsNum.round. split.
  - change 70%Z with (Qfloor 70). apply Qfloor_resp_le. lra.
  - change 180%Z with (Qfloor (180 + (1 # 2))). apply Qfloor_resp_le. lra.
Qed.

End OctaveFolding.

Section PeakAnalysis.
Import BpmDetect.

(** The peaks found from index [i] on lie at [i] or later. *)
Lemma pickPeaks_lower (th md : Q) (data : list Q) : forall (i : Z) (lp : Q),
  Forall (fun p => (i <= p)%Z) (pickPeaks th md data i lp).
Proof.
  induction data as [|x rest IH]; intros i lp; simpl; [constructor|].
  destruct (JsNum.ltb th x && JsNum.ltb md (inject_Z i - lp)).
  - constructor; [lia|].
    eapply Forall_impl; [apply IH|]. simpl. intros p Hp. lia.
  - eapply Forall_impl; [apply IH|]. simpl. intros p Hp. lia.
Qed.

(** Peaks are found in increasing order: every interval is positive. *)
Lemma pickPeaks_intervals_pos (th md : Q) (data : list Q) :
  forall (i : Z) (lp : Q),
    Forall (fun g => (0 < g)%Z) (intervals (pickPeaks th md data i lp)).
Proof.
  induction data as [|x rest IH]; intros i lp; simpl; [constructor|].
  destruct (JsNum.ltb th x && JsNum.ltb md (inject_Z i - lp)); [|apply IH].
  pose proof (pickPeaks_lower th md rest (i + 1) (inject_Z i)) as Hlow.
  specialize (IH (i + 1)%Z (inject_Z i)).
  destruct (pickPeaks th md rest (i + 1) (inject_Z i)) as [|b more];
    [constructor|].
  change (intervals (i :: b :: more)) with ((b - i)%Z :: intervals (b :: more)).
  constructor; [|exact IH].
  inversion Hlow; subst. lia.
Qed.

Lemma bucket_nonneg (iv : Z) : (0 <= iv)%Z -> (0 <= bucket iv)%Z.
Proof.
  intros Hiv. unfold bucket, JsNum.round.
  assert (H0 : (0 <= Qfloor (inject_Z iv / 500 + (1 # 2)))%Z).
  { change 0%Z with (Qfloor 0). apply Qfloor_resp_le.
    assert (0 <= inject_Z iv) by (change 0 with (inject_Z 0); rewrite <- Zle_Qle; lia).
    assert (0 <= inject_Z iv / 500) by (apply Qle_shift_div_l; lra).
    lra. }
  lia.
Qed.

Lemma bump_keys (key : Z) (h : list (Z * nat)) :
  (0 <= key)%Z -> Forall (fun e => (0 <= fst e)%Z) h ->
  Forall (fun e => (0 <= fst e)%Z) (bump key h).
Proof.
  intros Hkey. induction h as [|[k c] rest IH]; intros Hh; simpl.
  - constructor; [exact Hkey | constructor].
  - inversion Hh as [|? ? Hk Hrest]; subst.
    destruct (key =? k)%Z; [constructor; assumption|].
    destruct (key <? k)%Z.
    + constructor; [exact Hkey | exact Hh].
    + constructor; [exact Hk | apply IH; exact Hrest].
Qed.

Lemma histogram_keys (ivs : list Z) :
  Forall (fun g => (0 < g)%Z) ivs ->
  Forall (fun e => (0 <= fst e)%Z) (histogram ivs).
Proof.
  unfold histogram.
  assert (Hgen : forall h : list (Z * nat),
             Forall (fun e => (0 <= fst e)%Z) h ->
             Forall (fun g => (0 < g)%Z) ivs ->
             Forall (fun e => (0 <= fst e)%Z)
               (fold_left (fun h iv => bump (bucket iv) h) ivs h)).
  { induction ivs as [|iv rest IH]; intros h Hh Hpos; simpl; [exact Hh|].
    inversion Hpos; subst.
    apply IH; [|assumption].
    apply bump_keys; [apply bucket_nonneg; lia | exact Hh]. }
  intros Hpos. apply Hgen; [constructor | exact Hpos].
Qed.

(** The dominant interval is 0 or a key of the histogram. *)
Lemma dominant_nonneg (h : list (Z * nat)) :
  Forall (fun e => (0 <= fst e)%Z) h -> (0 <= dominant h)%Z.
Proof.
  unfold dominant.
  assert (Hgen : forall acc : nat * Z,
             (0 <= snd acc)%Z -> Forall (fun e => (0 <= fst e)%Z) h ->
             (0 <= snd (fold_left dominantStep h acc))%Z).
  { induction h as [|e rest IH]; intros acc Hacc Hh; simpl; [exact Hacc|].
    inversion Hh; subst. apply IH; [|assumption].
    unfold dominantStep. destruct (fst acc <? snd e)%nat; simpl; assumption. }
  intros Hh. apply Hgen; [simpl; lia | exact Hh].
Qed.

(** Past the fallbacks the dominant interval is positive. *)
Lemma dominant_peaks_pos (sampleRate : Q) (data : list Q) :
  dominant (histogram (intervals (detectPeaks sampleRate data))) <> 0%Z ->
  (0 < dominant (histogram (intervals (detectPeaks sampleRate data))))%Z.
Proof.
  intros Hnz.
  pose proof (dominant_nonneg _ (histogram_keys _
    (pickPeaks_intervals_pos (sparseMax data 0 0 * (35 # 100))
       ((3 # 10) * sampleRate) data 0 (- ((3 # 10) * sampleRate))))) as Hge.
  unfold detectPeaks in *. cbv zeta in *. lia.
Qed.

(** The analysis past its fallbacks: both loops exit, after the least
    numbers of doublings and halvings, on a tempo between 70 and 180. *)
Lemma analyse_folds (sampleRate : Q) (data : list Q) :
  0 < sampleRate ->
  (10 <= length (detectPeaks sampleRate data))%nat ->
  let bestInterval := dominant (histogram (intervals (detectPeaks sampleRate data))) in
  bestInterval <> 0%Z ->
  let raw := 60 / (inject_Z bestInterval / sampleRate) in
  exists (fuel0 a c : nat) (v : Q),
    (forall fuel, (fuel0 <= fuel)%nat ->
       analyse fuel sampleRate data = Some (JsNum.round v)) /\
    0 < raw /\
    v * Spec.pow2 c == raw * Spec.pow2 a /\
    (70 <= raw * Spec.pow2 a /\
     forall a', (a' < a)%nat -> raw * Spec.pow2 a' < 70) /\
    (v <= 180 /\
     forall c', (c' < c)%nat -> 180 * Spec.pow2 c' < raw * Spec.pow2 a) /\
    70 <= v.
Proof.
  intros Hsr Hpeaks best Hnz raw.
  assert (Hbest : 0 < inject_Z best).
  { change 0 with (inject_Z 0). rewrite <- Zlt_Qlt.
    apply dominant_peaks_pos. exact Hnz. }
  assert (Hraw : 0 < raw).
  { unfold raw. apply Qlt_shift_div_l.
    - apply Qlt_shift_div_l; [exact Hsr | lra].
    - lra. }
  set (f1 := Z.to_nat (Qceiling (70 / raw))).
  destruct (doubleBelow_exits f1 raw (doublings_reach raw Hraw))
    as (q1 & a & Hrun1 & Hq1 & Hge1 & Hmin1).
  set (f2 := Z.to_nat (Qceiling (q1 / 180))).
  destruct (halveAbove_exits f2 q1 (halvings_reach q1))
    as (v & c & Hrun2 & Hv & Hle2 & Hmin2).
  exists (Nat.max f1 f2), a, c, v.
  split; [|split; [exact Hraw|]]; [|split; [|split; [|split]]].
  - intros fuel Hfuel. unfold analyse. cbv zeta.
    replace (length (detectPeaks sampleRate data) <? 10)%nat with false
      by (symmetry; apply Nat.ltb_ge; lia).
    fold best.
    replace (best =? 0)%Z with false by (symmetry; apply Z.eqb_neq; exact Hnz).
    fold raw.
    rewrite (doubleBelow_mono f1 fuel raw q1) by (lia || exact Hrun1). simpl.
    rewrite (halveAbove_mono f2 fuel q1 v) by (lia || exact Hrun2). reflexivity.
  - rewrite Hv. exact Hq1.
  - split; [lra | exact Hmin1].
  - split; [exact Hle2|]. intros c' Hc'. specialize (Hmin2 c' Hc'). lra.
  - destruct c as [|c].
    + rewrite pow2_zero in Hv. lra.
    + specialize (Hmin2 c ltac:(lia)). rewrite pow2_succ in Hv.
      pose proof (pow2_pos c) as Hpc.
      assert (Hlt : 180 * Spec.pow2 c < v * 2 * Spec.pow2 c) by lra.
      assert (Hv2 : 180 < v * 2).
      { apply (Qmult_lt_r _ _ (Spec.pow2 c) Hpc). exact Hlt. }
      lra.
Qed.

End PeakAnalysis.

Section DetectorFacts.
Import WebAudio BpmDetect.

Variable render : Q -> list Q -> option (list Q).

(** C9.  For every input buffer [detectBpm] resolves with exactly 128
    when the rendering of the filtered slice fails and when fewer than 10
    peaks are found in it; and it always resolves with a number: an error
    is never passed on to the caller. *)
Theorem detectBpm_fallback (fuel : nat) (buffer : AudioBuffer) :
  let sampleRate := buf_sampleRate buffer in
  (render sampleRate (slice buffer) = None ->
     detectBpm render fuel buffer = Some 128%Z) /\
  (forall data,
     render sampleRate (slice buffer) = Some data ->
     (length (detectPeaks sampleRate data) < 10)%nat ->
     detectBpm render fuel buffer = Some 128%Z) /\
  (0 < sampleRate ->
     exists fuel0 : nat, forall fuel', (fuel0 <= fuel')%nat ->
       exists bpm : Z, detectBpm render fuel' buffer = Some bpm).
Proof.
  intros sampleRate. unfold detectBpm. fold sampleRate. split; [|split].
  - intros ->. reflexivity.
  - intros data -> Hfew. unfold analyse. cbv zeta.
    replace (length (detectPeaks sampleRate data) <? 10)%nat with true
      by (symmetry; apply Nat.ltb_lt; lia).
    reflexivity.
  - intros Hsr. destruct (render sampleRate (slice buffer)) as [data|];
      [|exists O; intros; eexists; reflexivity].
    destruct (le_lt_dec 10 (length (detectPeaks sampleRate data))) as [Hmany|Hfew].
    + destruct (Z.eq_dec
        (dominant (histogram (intervals (detectPeaks sampleRate data)))) 0%Z)
        as [Hz|Hnz].
      * exists O. intros fuel' _. exists 128%Z. unfold analyse. cbv zeta.
        replace (length (detectPeaks sampleRate data) <? 10)%nat with false
          by (symmetry; apply Nat.ltb_ge; lia).
        rewrite Hz. reflexivity.
      * destruct (analyse_folds sampleRate data Hsr Hmany Hnz)
          as (fuel0 & a & c & v & Hrun & _).
        exists fuel0. intros fuel' Hfuel'. eexists. apply Hrun. exact Hfuel'.
    + exists O. intros fuel' _. exists 128%Z. unfold analyse. cbv zeta.
      replace (length (detectPeaks sampleRate data) <? 10)%nat with true
        by (symmetry; apply Nat.ltb_lt; lia).
      reflexivity.
Qed.

(** C10.  Past the fallbacks (at least 10 peaks, a dominant interval other
    than 0) [detectBpm] resolves with the whole number nearest to [v],
    where [v] is [60 / (bestInterval / sampleRate)] doubled as long as it
    is below 70 and then halved as long as it is above 180; [v] and the
    result lie between 70 and 180. *)
Theorem detectBpm_canonical (buffer : AudioBuffer) (data : list Q) :
  let sampleRate := buf_sampleRate buffer in
  0 < sampleRate ->
  render sampleRate (slice buffer) = Some data ->
  (10 <= length (detectPeaks sampleRate data))%nat ->
  let bestInterval := dominant (histogram (intervals (detectPeaks sampleRate data))) in
  bestInterval <> 0%Z ->
  let raw := 60 / (inject_Z bestInterval / sampleRate) in
  exists (fuel0 a c : nat) (v : Q),
    (forall fuel, (fuel0 <= fuel)%nat ->
       detectBpm render fuel buffer = Some (JsNum.round v)) /\
    v * Spec.pow2 c == raw * Spec.pow2 a /\
    (70 <= raw * Spec.pow2 a /\
     forall a', (a' < a)%nat -> raw * Spec.pow2 a' < 70) /\
    (v <= 180 /\
     forall c', (c' < c)%nat -> 180 * Spec.pow2 c' < raw * Spec.pow2 a) /\
    (v - (1 # 2) < inject_Z (JsNum.round v) /\
     inject_Z (JsNum.round v) <= v + (1 # 2)) /\
    (70 <= v /\ v <= 180) /\
    (70 <= JsNum.round v <= 180)%Z.
Proof.
  intros sampleRate Hsr Hrender Hmany best Hnz raw.
  destruct (analyse_folds sampleRate data Hsr Hmany Hnz)
    as (fuel0 & a & c & v & Hrun & _ & Hv & Ha & Hc & Hlo).
  exists fuel0, a, c, v.
  split.
  { intros fuel Hfuel. unfold detectBpm. fold sampleRate.
    rewrite Hrender. apply Hrun. exact Hfuel. }
  split; [exact Hv|]. split; [exact Ha|]. split; [exact Hc|].
  split; [apply round_nearest|].
  split; [split; [exact Hlo | apply Hc]|].
  apply round_canonical; [exact Hlo | apply Hc].
Qed.

End DetectorFacts.

Lemma detectBpm_fallback_witness :
  BpmDetect.detectBpm Session.failing 0 Session.clickTrack = Some 128%Z /\
  BpmDetect.detectBpm Session.passThrough 0 Session.silence = Some 128%Z /\
  exists fuel0 : nat, forall fuel', (fuel0 <= fuel')%nat ->
    exists bpm : Z, BpmDetect.detectBpm Session.passThrough fuel' Session.clickTrack = Some bpm.
Proof.
  destruct (detectBpm_fallback Session.failing 0 Session.clickTrack) as (Hfail & _ & _).
  destruct (detectBpm_fallback Session.passThrough 0 Session.silence) as (_ & Hfew & _).
  destruct (detectBpm_fallback Session.passThrough 0 Session.clickTrack) as (_ & _ & Hrun).
  split; [apply Hfail; reflexivity|].
  split; [|apply Hrun; reflexivity].
  apply (Hfew (BpmDetect.slice Session.silence)); [reflexivity|].
  vm_compute. lia.
Defined.

Lemma detectBpm_canonical_witness :
  let raw := 60 / (inject_Z 500 / 1000) in
  exists (fuel0 a c : nat) (v : Q),
    (forall fuel, (fuel0 <= fuel)%nat ->
       BpmDetect.detectBpm Session.passThrough fuel Session.clickTrack = Some (JsNum.round v)) /\
    v * Spec.pow2 c == raw * Spec.pow2 a /\
    (70 <= raw * Spec.pow2 a /\
     forall a', (a' < a)%nat -> raw * Spec.pow2 a' < 70) /\
    (v <= 180 /\
     forall c', (c' < c)%nat -> 180 * Spec.pow2 c' < raw * Spec.pow2 a) /\
    (v - (1 # 2) < inject_Z (JsNum.round v) /\
     inject_Z (JsNum.round v) <= v + (1 # 2)) /\
    (70 <= v /\ v <= 180) /\
    (70 <= JsNum.round v <= 180)%Z.
Proof.
  assert (Hbest : BpmDetect.dominant (BpmDetect.histogram (BpmDetect.intervals
            (BpmDetect.detectPeaks 1000 (BpmDetect.slice Session.clickTrack))))
          = 500%Z) by (vm_compute; reflexivity).
  pose proof (detectBpm_canonical Session.passThrough Session.clickTrack
                (BpmDetect.slice Session.clickTrack)) as H.
  cbv zeta in H. change (WebAudio.buf_sampleRate Session.clickTrack) with 1000 in H.
  rewrite Hbest in H. cbv zeta. apply H.
  - reflexivity.
  - reflexivity.
  - vm_compute. lia.
  - discriminate.
Defined.


(* ===================================================================== *)
(** ** More on the BPM detector                                           *)
(* ===================================================================== *)

Section PeakFacts.
Import BpmDetect.

(** A first peak found by the scan lies more than [md] after [lp]. *)
Lemma pickPeaks_head (th md : Q) (data : list Q) : forall (i : Z) (lp : Q) p rest,
  pickPeaks th md data i lp = p :: rest -> md < inject_Z p - lp.
Proof.
  induction data as [|x more IH]; intros i lp p rest; simpl; [discriminate|].
  destruct (JsNum.ltb th x) eqn:Ex; simpl.
  - destruct (JsNum.ltb md (inject_Z i - lp)) eqn:Ed.
    + intros [= <- _]. apply ltb_lt. exact Ed.
    + apply IH.
  - apply IH.
Qed.

(** Consecutive peaks lie more than [md] apart. *)
Lemma pickPeaks_spaced (th md : Q) (data : list Q) : forall (i : Z) (lp : Q),
  Forall (fun g => md < inject_Z g) (intervals (pickPeaks th md data i lp)).
Proof.
  induction data as [|x more IH]; intros i lp; simpl; [constructor|].
  destruct (JsNum.ltb th x && JsNum.ltb md (inject_Z i - lp)); [|apply IH].
  pose proof (pickPeaks_head th md more (i + 1) (inject_Z i)) as Hhead.
  specialize (IH (i + 1)%Z (inject_Z i)).
  destruct (pickPeaks th md more (i + 1) (inject_Z i)) as [|b rest]; [constructor|].
  change (intervals (i :: b :: rest)) with ((b - i)%Z :: intervals (b :: rest)).
  constructor; [|exact IH].
  specialize (Hhead b rest eq_refl).
  unfold Zminus. rewrite inject_Z_plus, inject_Z_opp. lra.
Qed.

(** Every peak is the index of a sample above the threshold. *)
Lemma pickPeaks_above (th md : Q) (data : list Q) : forall (i : Z) (lp : Q),
  Forall (fun p => exists x, data !! Z.to_nat (p - i) = Some x /\ th < x)
    (pickPeaks th md data i lp).
Proof.
  induction data as [|x more IH]; intros i lp; simpl; [constructor|].
  pose proof (pickPeaks_lower th md more (i + 1)) as Hlow.
  assert (Hshift : forall lp',
    Forall (fun p => exists y, (x :: more) !! Z.to_nat (p - i) = Some y /\ th < y)
      (pickPeaks th md more (i + 1) lp')).
  { intros lp'. specialize (IH (i + 1)%Z lp'). specialize (Hlow lp').
    rewrite Forall_forall in IH, Hlow |- *. intros p Hp.
    destruct (IH p Hp) as (y & Hy & Hth). exists y. split; [|exact Hth].
    specialize (Hlow p Hp).
    replace (Z.to_nat (p - i)) with (S (Z.to_nat (p - (i + 1)))) by lia.
    exact Hy. }
  destruct (JsNum.ltb th x) eqn:Ex; simpl; [|apply Hshift].
  destruct (JsNum.ltb md (inject_Z i - lp)); [|apply Hshift].
  constructor; [|apply Hshift].
  exists x. rewrite Z.sub_diag. split; [reflexivity | apply ltb_lt; exact Ex].
Qed.

(** Every peak lies within the data. *)
Lemma pickPeaks_upper (th md : Q) (data : list Q) : forall (i : Z) (lp : Q),
  Forall (fun p => (p < i + Z.of_nat (length data))%Z) (pickPeaks th md data i lp).
Proof.
  induction data as [|x more IH]; intros i lp; simpl length; simpl pickPeaks;
    [constructor|].
  destruct (JsNum.ltb th x && JsNum.ltb md (inject_Z i - lp)).
  - constructor; [lia|].
    eapply Forall_impl; [apply IH|]. simpl. intros p Hp. lia.
  - eapply Forall_impl; [apply IH|]. simpl. intros p Hp. lia.
Qed.

(** Index 0 is never a peak: the scan starts exactly [minDistance] after
    the initial [lastPeak]. *)
Lemma detectPeaks_positive (sampleRate : Q) (data : list Q) :
  Forall (fun p => (0 < p)%Z) (detectPeaks sampleRate data).
Proof.
  unfold detectPeaks. cbv zeta. destruct data as [|x more]; [constructor|].
  simpl pickPeaks.
  replace (JsNum.ltb ((3 # 10) * sampleRate)
             (inject_Z 0 - - ((3 # 10) * sampleRate))) with false.
  - rewrite andb_false_r.
    eapply Forall_impl; [apply pickPeaks_lower|]. simpl. intros p Hp. lia.
  - symmetry. apply ltb_ge. change (inject_Z 0) with 0. lra.
Qed.

(** The span of [k + 1] stamps whose gaps all exceed [md] exceeds [k * md]. *)
Lemma spaced_span (md : Q) (rest : list Z) : forall a : Z,
  Forall (fun g => md < inject_Z g) (intervals (a :: rest)) ->
  inject_Z (Z.of_nat (length rest)) * md <= inject_Z (List.last rest a - a).
Proof.
  induction rest as [|b rest IH]; intros a Hgaps.
  - change (List.last [] a) with a. rewrite Z.sub_diag.
    change (inject_Z (Z.of_nat (length (@nil Z)))) with 0.
    change (inject_Z 0) with 0. lra.
  - change (intervals (a :: b :: rest)) with ((b - a)%Z :: intervals (b :: rest)) in Hgaps.
    inversion Hgaps as [|? ? Hg Hrest]; subst.
    specialize (IH b Hrest).
    rewrite (last_cons_default b rest a).
    change (length (b :: rest)) with (S (length rest)).
    rewrite inject_nat_succ.
    replace (List.last rest b - a)%Z with ((List.last rest b - b) + (b - a))%Z by lia.
    rewrite inject_Z_plus. lra.
Qed.

Lemma last_in_cons (rest : list Z) (a : Z) : In (List.last rest a) (a :: rest).
Proof.
  revert a. induction rest as [|b rest IH]; intros a; [left; reflexivity|].
  rewrite (last_cons_default b rest a). right. apply IH.
Qed.

(** The number [k >= 1] of peaks in [n] samples: the first peak is at
    index 1 or later, the last one before [n], so
    [(k - 1) * minDistance + 2 <= n]. *)
Lemma detectPeaks_count (sampleRate : Q) (data : list Q) :
  (1 <= length (detectPeaks sampleRate data))%nat ->
  (inject_Z (Z.of_nat (length (detectPeaks sampleRate data))) - 1)
    * ((3 # 10) * sampleRate) + 2
  <= inject_Z (Z.of_nat (length data)).
Proof.
  intros Hone.
  pose proof (detectPeaks_positive sampleRate data) as Hpos.
  assert (Hup : Forall (fun p => (p < Z.of_nat (length data))%Z)
                  (detectPeaks sampleRate data)).
  { unfold detectPeaks. cbv zeta.
    eapply Forall_impl; [apply pickPeaks_upper|]. simpl. intros p Hp. lia. }
  assert (Hsp : Forall (fun g => (3 # 10) * sampleRate < inject_Z g)
                  (intervals (detectPeaks sampleRate data))).
  { unfold detectPeaks. cbv zeta. apply pickPeaks_spaced. }
  destruct (detectPeaks sampleRate data) as [|a rest]; [simpl in Hone; lia|].
  pose proof (spaced_span _ rest a Hsp) as Hspan.
  pose proof (last_in_cons rest a) as Hin.
  rewrite Forall_forall in Hup, Hpos.
  assert (Hlast : (List.last rest a < Z.of_nat (length data))%Z).
  { apply Hup. apply list_elem_of_In. exact Hin. }
  assert (Ha : (0 < a)%Z).
  { apply Hpos. apply list_elem_of_In. left. reflexivity. }
  assert (Hz : inject_Z (List.last rest a - a) + 2 <= inject_Z (Z.of_nat (length data))).
  { change 2 with (inject_Z 2). rewrite <- inject_Z_plus, <- Zle_Qle. lia. }
  change (length (a :: rest)) with (S (length rest)). rewrite inject_nat_succ.
  set (k := inject_Z (Z.of_nat (length rest))) in *.
  set (md := (3 # 10) * sampleRate) in *.
  assert (Hk : (k + 1 - 1) * md == k * md) by ring.
  lra.
Qed.

(** More fuel does not change the outcome of the analysis. *)
Lemma analyse_mono (n fuel : nat) (sampleRate : Q) (data : list Q) (z : Z) :
  (n <= fuel)%nat ->
  analyse n sampleRate data = Some z -> analyse fuel sampleRate data = Some z.
Proof.
  intros Hle. unfold analyse. cbv zeta.
  destruct (length (detectPeaks sampleRate data) <? 10)%nat; [auto|].
  destruct (dominant (histogram (intervals (detectPeaks sampleRate data))) =? 0)%Z;
    [auto|].
  destruct (doubleBelow n _) as [q1|] eqn:E1; [|discriminate].
  rewrite (doubleBelow_mono n fuel _ q1 Hle E1). simpl.
  destruct (halveAbove n q1) as [q2|] eqn:E2; [|discriminate].
  rewrite (halveAbove_mono n fuel q1 q2 Hle E2). simpl. auto.
Qed.

(** From the first sample on with the last peak at [-minDistance], the
    sample at index 0 is never picked. *)
Lemma pickPeaks_from_one (threshold minDistance : Q) (data : list Q) :
  Forall (fun p => (0 < p)%Z)
    (pickPeaks threshold minDistance data 0 (- minDistance)).
Proof.
  destruct data as [|x more]; [constructor|].
  simpl pickPeaks.
  replace (JsNum.ltb minDistance (inject_Z 0 - - minDistance)) with false.
  - rewrite andb_false_r.
    eapply Forall_impl; [apply pickPeaks_lower|]. simpl. intros p Hp. lia.
  - symmetry. apply ltb_ge. change (inject_Z 0) with 0. lra.
Qed.

(** X1.  Whatever the threshold and the minimum distance are (the code
    takes the binary64 products [maxAmp * 0.35] and [0.3 * sampleRate]),
    the peak-picking loop returns indices from 1 on, each of a sample that
    exceeds the threshold, and two consecutive peaks lie more than the
    minimum distance apart. *)
Theorem pickPeaks_sound (threshold minDistance : Q) (data : list Q) :
  let peaks := pickPeaks threshold minDistance data 0 (- minDistance) in
  Forall (fun p => (0 < p)%Z /\
            exists x, data !! Z.to_nat p = Some x /\ threshold < x) peaks /\
  Forall (fun g => minDistance < inject_Z g) (intervals peaks).
Proof.
  intros peaks. subst peaks. split.
  - pose proof (pickPeaks_from_one threshold minDistance data) as Hpos.
    pose proof (pickPeaks_above threshold minDistance data 0 (- minDistance))
      as Habove.
    rewrite Forall_forall in Hpos, Habove |- *. intros p Hp.
    split; [apply Hpos; exact Hp|].
    destruct (Habove p Hp) as (x & Hx & Hth). exists x.
    rewrite Z.sub_0_r in Hx. split; assumption.
  - apply pickPeaks_spaced.
Qed.

End PeakFacts.

Section DetectorMore.
Import WebAudio BpmDetect.

Variable render : Q -> list Q -> option (list Q).

(** X2.  When the filtered slice is at most 2.7 seconds long
    (at most [2.7 * sampleRate] samples) there is no room for 10 peaks 0.3
    seconds apart, and [detectBpm] resolves with 128 whatever the samples
    are. *)
Theorem detectBpm_short_slice (fuel : nat) (buffer : AudioBuffer) (data : list Q) :
  0 < buf_sampleRate buffer ->
  render (buf_sampleRate buffer) (slice buffer) = Some data ->
  inject_Z (Z.of_nat (length data)) <= (27 # 10) * buf_sampleRate buffer ->
  detectBpm render fuel buffer = Some 128%Z.
Proof.
  intros Hsr Hrender Hshort. unfold detectBpm. rewrite Hrender.
  unfold analyse. cbv zeta.
  set (sr := buf_sampleRate buffer) in *.
  destruct (le_lt_dec 10 (length (detectPeaks sr data))) as [Hmany|Hfew].
  - exfalso.
    pose proof (detectPeaks_count sr data ltac:(lia)) as Hcount.
    assert (Hk : 10 <= inject_Z (Z.of_nat (length (detectPeaks sr data)))).
    { change 10 with (inject_Z 10). rewrite <- Zle_Qle. lia. }
    set (k := inject_Z (Z.of_nat (length (detectPeaks sr data)))) in *.
    assert (Hprod : 9 * ((3 # 10) * sr) <= (k - 1) * ((3 # 10) * sr)).
    { apply Qmult_le_compat_r; lra. }
    lra.
  - replace (length (detectPeaks sr data) <? 10)%nat with true
      by (symmetry; apply Nat.ltb_lt; lia).
    reflexivity.
Qed.

(** X3.  Whatever the buffer and the rendering, a value [detectBpm]
    resolves with is a whole number from 70 to 180. *)
Theorem detectBpm_range (fuel : nat) (buffer : AudioBuffer) (bpm : Z) :
  0 < buf_sampleRate buffer ->
  detectBpm render fuel buffer = Some bpm -> (70 <= bpm <= 180)%Z.
Proof.
  intros Hsr. unfold detectBpm.
  set (sr := buf_sampleRate buffer) in *.
  destruct (render sr (slice buffer)) as [data|]; [|intros [= <-]; lia].
  intros Hrun.
  destruct (le_lt_dec 10 (length (detectPeaks sr data))) as [Hmany|Hfew].
  - destruct (Z.eq_dec (dominant (histogram (intervals (detectPeaks sr data)))) 0%Z)
      as [Hz|Hnz].
    + unfold analyse in Hrun. cbv zeta in Hrun.
      replace (length (detectPeaks sr data) <? 10)%nat with false in Hrun
        by (symmetry; apply Nat.ltb_ge; lia).
      rewrite Hz in Hrun. simpl in Hrun. injection Hrun as <-. lia.
    + destruct (analyse_folds sr data Hsr Hmany Hnz)
        as (fuel0 & a & c & v & Hv & _ & _ & _ & [Hle _] & Hge).
      pose proof (analyse_mono fuel (Nat.max fuel fuel0) sr data bpm
                    (Nat.le_max_l _ _) Hrun) as Hbig.
      rewrite (Hv _ (Nat.le_max_r _ _)) in Hbig. injection Hbig as <-.
      apply round_canonical; assumption.
  - unfold analyse in Hrun. cbv zeta in Hrun.
    replace (length (detectPeaks sr data) <? 10)%nat with true in Hrun
      by (symmetry; apply Nat.ltb_lt; lia).
    injection Hrun as <-. lia.
Qed.

End DetectorMore.

Lemma detectBpm_short_slice_witness :
  BpmDetect.detectBpm Session.passThrough 0
    (WebAudio.mkBuffer 2 1000 (concat (repeat Session.beat 4))) = Some 128%Z.
Proof.
  apply (detectBpm_short_slice Session.passThrough 0
           (WebAudio.mkBuffer 2 1000 (concat (repeat Session.beat 4)))
           (BpmDetect.slice (WebAudio.mkBuffer 2 1000 (concat (repeat Session.beat 4))))).
  - reflexivity.
  - reflexivity.
  - vm_compute. discriminate.
Defined.

Lemma detectBpm_range_witness :
  BpmDetect.detectBpm Session.passThrough 3 Session.clickTrack = Some 120%Z /\
  (70 <= 120 <= 180)%Z.
Proof.
  split; [vm_compute; reflexivity|].
  apply (detectBpm_range Session.passThrough 3 Session.clickTrack 120).
  - reflexivity.
  - vm_compute. reflexivity.
Defined.

Section HistogramFacts.
Import BpmDetect Tally.

Lemma bump_keys_from (key : Z) (h : list (Z * nat)) (lo : Z) :
  (lo < key)%Z -> Forall (fun k => (lo < k)%Z) (map fst h) ->
  Forall (fun k => (lo < k)%Z) (map fst (bump key h)).
Proof.
  intros Hkey. induction h as [|[k c] rest IH]; intros Hh; simpl.
  - constructor; [exact Hkey | constructor].
  - inversion Hh as [|? ? Hk Hrest]; subst.
    destruct (key =? k)%Z; [constructor; assumption|].
    destruct (key <? k)%Z.
    + constructor; [exact Hkey | exact Hh].
    + simpl. constructor; [exact Hk | apply IH; exact Hrest].
Qed.

(** [bump] keeps the keys ascending. *)
Lemma bump_ascending (key : Z) (h : list (Z * nat)) :
  ascending (map fst h) -> ascending (map fst (bump key h)).
Proof.
  induction h as [|[k c] rest IH]; intros Hasc; simpl.
  - split; [constructor | exact I].
  - destruct Hasc as [Hk Hrest]. simpl in Hk.
    destruct (key =? k)%Z eqn:E; [split; assumption|].
    destruct (key <? k)%Z eqn:L.
    + apply Z.ltb_lt in L. simpl. split; [|split; assumption].
      constructor; [exact L|].
      eapply Forall_impl; [exact Hk|]. simpl. intros k' Hk'. lia.
    + apply Z.eqb_neq in E. apply Z.ltb_ge in L. simpl.
      split; [|apply IH; exact Hrest].
      apply bump_keys_from; [lia | exact Hk].
Qed.

Lemma countOf_absent (key : Z) (h : list (Z * nat)) :
  Forall (fun k => (key < k)%Z) (map fst h) -> countOf key h = 0%nat.
Proof.
  induction h as [|[k c] rest IH]; intros Hh; [reflexivity|].
  inversion Hh as [|? ? Hk Hrest]; subst. simpl in Hk |- *.
  replace (key =? k)%Z with false by (symmetry; apply Z.eqb_neq; lia).
  apply IH. exact Hrest.
Qed.

(** [bump] adds one to the count of [key] and leaves the others. *)
Lemma countOf_bump (key k : Z) (h : list (Z * nat)) :
  ascending (map fst h) ->
  countOf k (bump key h) =
    if (k =? key)%Z then S (countOf k h) else countOf k h.
Proof.
  induction h as [|[k0 c] rest IH]; intros Hasc; simpl.
  - destruct (k =? key)%Z; reflexivity.
  - destruct Hasc as [Hk0 Hrest]. simpl in Hk0.
    destruct (key =? k0)%Z eqn:E.
    + apply Z.eqb_eq in E. subst k0. simpl.
      destruct (k =? key)%Z; reflexivity.
    + destruct (key <? k0)%Z eqn:L.
      * apply Z.ltb_lt in L. simpl.
        destruct (k =? key)%Z eqn:Ek; [|reflexivity].
        apply Z.eqb_eq in Ek. subst k. rewrite E.
        rewrite countOf_absent; [reflexivity|].
        eapply Forall_impl; [exact Hk0|]. simpl. intros k' Hk'. lia.
      * simpl. destruct (k =? k0)%Z eqn:Ek0.
        -- apply Z.eqb_eq in Ek0. subst k0. rewrite Z.eqb_sym, E. reflexivity.
        -- apply IH. exact Hrest.
Qed.

Lemma bump_counts_pos (key : Z) (h : list (Z * nat)) :
  Forall (fun e => (1 <= snd e)%nat) h ->
  Forall (fun e => (1 <= snd e)%nat) (bump key h).
Proof.
  induction h as [|[k c] rest IH]; intros Hh; simpl.
  - constructor; [simpl; lia | constructor].
  - inversion Hh as [|? ? Hc Hrest]; subst. simpl in Hc.
    destruct (key =? k)%Z; [constructor; [simpl; lia | exact Hrest]|].
    destruct (key <? k)%Z.
    + constructor; [simpl; lia | exact Hh].
    + constructor; [exact Hc | apply IH; exact Hrest].
Qed.

(** The histogram as built from the left, generalised over its start. *)
Lemma histogram_from (ivs : list Z) : forall h : list (Z * nat),
  ascending (map fst h) -> Forall (fun e => (1 <= snd e)%nat) h ->
  let h' := fold_left (fun h iv => bump (bucket iv) h) ivs h in
  ascending (map fst h') /\ Forall (fun e => (1 <= snd e)%nat) h' /\
  forall k, countOf k h' = (countOf k h + occurrences k ivs)%nat.
Proof.
  induction ivs as [|iv rest IH]; intros h Hasc Hpos; simpl.
  - split; [exact Hasc|]. split; [exact Hpos|]. intros k. unfold occurrences. simpl. lia.
  - destruct (IH (bump (bucket iv) h) (bump_ascending _ _ Hasc) (bump_counts_pos _ _ Hpos))
      as (Ha & Hp & Hc).
    split; [exact Ha|]. split; [exact Hp|].
    intros k. rewrite Hc, (countOf_bump _ _ _ Hasc). unfold occurrences.
    rewrite filter_cons.
    destruct (decide (bucket iv = k)) as [Heq|Hne].
    + subst k. rewrite Z.eqb_refl. simpl. lia.
    + replace (k =? bucket iv)%Z with false by (symmetry; apply Z.eqb_neq; congruence).
      lia.
Qed.

(** X4.  The histogram lists its buckets in strictly ascending
    order, every listed bucket has a count of at least 1, and the count of a
    bucket is the number of intervals that round to it. *)
Theorem histogram_counts (ivs : list Z) :
  ascending (map fst (histogram ivs)) /\
  Forall (fun e => (1 <= snd e)%nat) (histogram ivs) /\
  forall k, countOf k (histogram ivs) = occurrences k ivs.
Proof.
  destruct (histogram_from ivs [] I (Forall_nil_2 _)) as (Ha & Hp & Hc).
  split; [exact Ha|]. split; [exact Hp|]. intros k. rewrite Hc. reflexivity.
Qed.

(** X5.  An interval is rounded to a multiple of 500 samples at most
    250 samples away from it. *)
Theorem bucket_nearest (iv : Z) :
  (exists m : Z, bucket iv = m * 500)%Z /\ (Z.abs (bucket iv - iv) <= 250)%Z.
Proof.
  unfold bucket. split; [eexists; reflexivity|].
  destruct (round_nearest (inject_Z iv / 500)) as [Hlo Hhi].
  set (m := JsNum.round (inject_Z iv / 500)) in *.
  assert (Hiv : inject_Z iv / 500 * 500 == inject_Z iv) by field.
  assert (H1 : inject_Z (m * 500 - iv) <= inject_Z 250).
  { unfold Zminus. rewrite inject_Z_plus, inject_Z_mult, inject_Z_opp.
    change (inject_Z 500) with 500. change (inject_Z 250) with 250. lra. }
  assert (H2 : inject_Z (-250) <= inject_Z (m * 500 - iv)).
  { unfold Zminus. rewrite inject_Z_plus, inject_Z_mult, inject_Z_opp.
    change (inject_Z 500) with 500. change (inject_Z (-250)) with (-250). lra. }
  rewrite <- Zle_Qle in H1, H2. lia.
Qed.

Lemma ascending_app (l1 l2 : list Z) :
  ascending (l1 ++ l2) ->
  forall a b, In a l1 -> In b l2 -> (a < b)%Z.
Proof.
  induction l1 as [|x l1 IH]; intros Hasc a b Ha Hb; [destruct Ha|].
  destruct Hasc as [Hx Hrest]. destruct Ha as [<-|Ha].
  - rewrite Forall_forall in Hx. apply Hx.
    apply list_elem_of_In. apply in_or_app. right. exact Hb.
  - apply (IH Hrest a b Ha Hb).
Qed.

Lemma countOf_In (h : list (Z * nat)) (k : Z) (c : nat) :
  ascending (map fst h) -> In (k, c) h -> countOf k h = c.
Proof.
  induction h as [|[k0 c0] rest IH]; intros Hasc Hin; [destruct Hin|].
  destruct Hasc as [Hk0 Hrest]. simpl in Hk0. simpl.
  destruct Hin as [[= -> ->]|Hin].
  - rewrite Z.eqb_refl. reflexivity.
  - replace (k =? k0)%Z with false; [apply IH; assumption|].
    symmetry. apply Z.eqb_neq.
    rewrite Forall_forall in Hk0.
    assert (k0 < k)%Z; [|lia].
    apply Hk0. apply list_elem_of_In. apply (in_map fst rest (k, c)). exact Hin.
Qed.

Lemma countOf_pos_In (h : list (Z * nat)) (k : Z) :
  (1 <= countOf k h)%nat -> In (k, countOf k h) h.
Proof.
  induction h as [|[k0 c0] rest IH]; simpl; [lia|].
  destruct (k =? k0)%Z eqn:E.
  - apply Z.eqb_eq in E. subst k0. intros _. left. reflexivity.
  - intros Hpos. right. apply IH. exact Hpos.
Qed.

Lemma dominant_fold (h : list (Z * nat)) : forall (pre : list (Z * nat)) (acc : nat * Z),
  ascending (map fst (pre ++ h)) ->
  Forall (fun e => (1 <= snd e)%nat) (pre ++ h) ->
  scanned pre acc -> scanned (pre ++ h) (fold_left dominantStep h acc).
Proof.
  induction h as [|[k c] rest IH]; intros pre acc Hasc Hpos Hinv.
  - rewrite app_nil_r. exact Hinv.
  - simpl fold_left.
    replace (pre ++ (k, c) :: rest) with ((pre ++ [(k, c)]) ++ rest) in *
      by (rewrite <- app_assoc; reflexivity).
    apply IH; [exact Hasc | exact Hpos|].
    assert (Hc : (1 <= c)%nat).
    { rewrite Forall_forall in Hpos. apply (Hpos (k, c)).
      apply list_elem_of_In. apply in_or_app. left. apply in_or_app. right. left.
      reflexivity. }
    assert (Hbefore : forall k' c', In (k', c') pre -> (k' < k)%Z).
    { intros k' c' Hin. rewrite <- app_assoc, map_app in Hasc.
      apply (ascending_app _ _ Hasc k' k).
      - apply (in_map fst pre (k', c')). exact Hin.
      - left. reflexivity. }
    right. unfold dominantStep. simpl snd. simpl fst.
    destruct Hinv as [[-> ->]|[Hin Hmax]].
    + cbn [fst snd].
      replace (0 <? c)%nat with true by (symmetry; apply Nat.ltb_lt; lia).
      simpl. split; [left; reflexivity|].
      intros k' c' [[= <- <-]|[]]. split; [lia | intros _; lia].
    + destruct acc as [mc bk]. simpl in *.
      destruct (mc <? c)%nat eqn:E; simpl.
      * apply Nat.ltb_lt in E. split; [apply in_or_app; right; left; reflexivity|].
        intros k' c' Hin'. apply in_app_or in Hin' as [Hin'|[[= <- <-]|[]]].
        -- destruct (Hmax k' c' Hin') as [Hle _]. split; [lia | intros ->; lia].
        -- split; [lia | intros _; lia].
      * apply Nat.ltb_ge in E. split; [apply in_or_app; left; exact Hin|].
        intros k' c' Hin'. apply in_app_or in Hin' as [Hin'|[[= <- <-]|[]]].
        -- apply Hmax. exact Hin'.
        -- split; [exact E|]. intros _.
           specialize (Hbefore bk mc Hin). lia.
Qed.

(** X6.  For a non-empty list of positive intervals the dominant
    interval is a bucket that occurs at least once and at least as often as
    every other bucket, and among the most frequent buckets it is the
    smallest. *)
Theorem dominant_most_frequent (ivs : list Z) :
  ivs <> [] -> Forall (fun g => (0 < g)%Z) ivs ->
  let best := dominant (histogram ivs) in
  (1 <= occurrences best ivs)%nat /\
  forall k,
    (occurrences k ivs <= occurrences best ivs)%nat /\
    (occurrences k ivs = occurrences best ivs -> (best <= k)%Z).
Proof.
  intros Hne _ best.
  destruct (histogram_from ivs [] I (Forall_nil_2 _)) as (Hasc & Hpos & Hcount0).
  fold (histogram ivs) in Hasc, Hpos, Hcount0.
  assert (Hcount : forall k, countOf k (histogram ivs) = occurrences k ivs).
  { intros k. rewrite Hcount0. reflexivity. }
  clear Hcount0.
  pose proof (dominant_fold (histogram ivs) [] (0%nat, 0%Z) Hasc Hpos
                (or_introl (conj eq_refl eq_refl))) as Hscan.
  simpl app in Hscan. fold (dominant (histogram ivs)) in Hscan.
  set (acc := fold_left dominantStep (histogram ivs) (0%nat, 0%Z)) in *.
  assert (Hbest : best = snd acc) by reflexivity.
  destruct Hscan as [[Hnil _]|[Hin Hmax]].
  - exfalso. destruct ivs as [|iv rest]; [congruence|].
    pose proof (Hcount (bucket iv)) as Hc. rewrite Hnil in Hc. simpl in Hc.
    unfold occurrences in Hc. rewrite filter_cons in Hc.
    destruct (decide (bucket iv = bucket iv)); [simpl in Hc; lia | congruence].
  - rewrite <- Hbest in Hin, Hmax.
    pose proof (countOf_In _ _ _ Hasc Hin) as Hbc. rewrite Hcount in Hbc.
    assert (Hone : (1 <= fst acc)%nat).
    { rewrite Forall_forall in Hpos. apply (Hpos (best, fst acc)).
      apply list_elem_of_In. exact Hin. }
    split; [lia|].
    intros k. rewrite Hbc.
    destruct (Nat.eq_dec (occurrences k ivs) 0%nat) as [Hz|Hnz].
    + rewrite Hz. split; lia.
    + assert (Hk : In (k, occurrences k ivs) (histogram ivs)).
      { rewrite <- Hcount. apply countOf_pos_In. rewrite Hcount. lia. }
      apply Hmax. exact Hk.
Qed.

Lemma dominant_most_frequent_witness :
  let ivs := [400; 900; 800; 400; 1300; 900]%Z in
  let best := dominant (histogram ivs) in
  (1 <= occurrences best ivs)%nat /\
  forall k,
    (occurrences k ivs <= occurrences best ivs)%nat /\
    (occurrences k ivs = occurrences best ivs -> (best <= k)%Z).
Proof.
  apply (dominant_most_frequent [400; 900; 800; 400; 1300; 900]%Z).
  - discriminate.
  - repeat constructor.
Defined.

End HistogramFacts.

Section SliceFacts.
Import WebAudio BpmDetect.

Lemma trunc_inject (z : Z) : JsNum.trunc (inject_Z z) = z.
Proof. unfold JsNum.trunc. simpl. apply Z.quot_1_r. Qed.

Lemma min_spec (a b : Q) :
  (b < a -> JsNum.min a b = b) /\ (a <= b -> JsNum.min a b = a).
Proof.
  unfold JsNum.min. split; intros H.
  - rewrite (proj2 (ltb_lt b a) H). reflexivity.
  - rewrite (proj2 (ltb_ge b a) H). reflexivity.
Qed.

(** The start and the length of the slice for a whole sample rate [r]. *)
Lemma slice_bounds (buffer : AudioBuffer) (r : Z) :
  buf_sampleRate buffer = inject_Z r ->
  let len := Z.of_nat (length (buf_channel0 buffer)) in
  slice buffer =
    take (Z.to_nat (Z.min (30 * r) len))
      (drop (Z.to_nat (Z.max 0 ((len - 30 * r) / 2))) (buf_channel0 buffer)).
Proof.
  intros Hsr len. unfold slice. rewrite Hsr. cbv zeta. fold len.
  assert (Hss : 30 * inject_Z r == inject_Z (30 * r)).
  { rewrite inject_Z_mult. reflexivity. }
  assert (Hstart : JsNum.floor ((inject_Z len - 30 * inject_Z r) / 2)
                   = ((len - 30 * r) / 2)%Z).
  { unfold JsNum.floor. rewrite Zdiv_Qdiv. apply Qfloor_comp.
    unfold Zminus. rewrite inject_Z_plus, inject_Z_opp, Hss. reflexivity. }
  rewrite Hstart.
  assert (Hlen : JsNum.trunc (JsNum.min (30 * inject_Z r) (inject_Z len))
                 = Z.min (30 * r) len).
  { destruct (min_spec (30 * inject_Z r) (inject_Z len)) as [Hlt Hge].
    destruct (Z_lt_le_dec len (30 * r)) as [Hz|Hz].
    - rewrite Hlt, trunc_inject; [lia|]. rewrite Hss, <- Zlt_Qlt. exact Hz.
    - rewrite Hge by (rewrite Hss, <- Zle_Qle; exact Hz).
      change (30 * inject_Z r) with (inject_Z (30 * r)).
      rewrite trunc_inject. lia. }
  rewrite Hlen. f_equal. f_equal.
  destruct ((len - 30 * r) / 2 <? 0)%Z eqn:E.
  - apply Z.ltb_lt in E. lia.
  - apply Z.ltb_ge in E. lia.
Qed.

(** X7.  With a whole sample rate [r], a buffer of at most 30 seconds
    is analysed as a whole; of a longer one exactly [30 * r] samples are
    taken from the middle: the samples left out before and after differ in
    number by at most one. *)
Theorem slice_centred (buffer : AudioBuffer) (r : Z) :
  buf_sampleRate buffer = inject_Z r -> (0 < r)%Z ->
  let source := buf_channel0 buffer in
  let len := Z.of_nat (length source) in
  ((len <= 30 * r)%Z -> slice buffer = source) /\
  ((30 * r < len)%Z ->
     exists before after : list Q,
       source = before ++ slice buffer ++ after /\
       Z.of_nat (length (slice buffer)) = (30 * r)%Z /\
       Z.of_nat (length before) = ((len - 30 * r) / 2)%Z /\
       (length after = length before \/ length after = S (length before))).
Proof.
  intros Hsr Hr source len. rewrite (slice_bounds buffer r Hsr). fold source len.
  split; intros Hlen.
  - assert (Hdiv : ((len - 30 * r) / 2 <= 0)%Z).
    { apply Z.div_le_upper_bound; lia. }
    replace (Z.to_nat (Z.max 0 ((len - 30 * r) / 2))) with 0%nat by lia.
    rewrite drop_0. apply take_ge. unfold len. lia.
  - set (start := Z.to_nat (Z.max 0 ((len - 30 * r) / 2))).
    set (n := Z.to_nat (Z.min (30 * r) len)).
    assert (Hdiv : (0 <= (len - 30 * r) / 2)%Z) by (apply Z.div_pos; lia).
    assert (Hdiv2 : (2 * ((len - 30 * r) / 2) <= len - 30 * r)%Z)
      by (apply Z.mul_div_le; lia).
    assert (Hdiv3 : (len - 30 * r < 2 * ((len - 30 * r) / 2) + 2)%Z).
    { pose proof (Z.mod_pos_bound (len - 30 * r) 2 ltac:(lia)).
      pose proof (Z.div_mod (len - 30 * r) 2 ltac:(lia)). lia. }
    exists (take start source), (drop n (drop start source)).
    split; [|split; [|split]].
    + rewrite take_drop. rewrite take_drop. reflexivity.
    + rewrite length_take, length_drop. unfold n, start, len in *. lia.
    + rewrite length_take. unfold start, len in *. lia.
    + rewrite length_take, !length_drop. unfold n, start, len in *. lia.
Qed.

Lemma slice_centred_witness :
  (exists before after : list Q,
     buf_channel0 (mkBuffer 33 1 (repeat 1 33)) =
       before ++ slice (mkBuffer 33 1 (repeat 1 33)) ++ after /\
     Z.of_nat (length (slice (mkBuffer 33 1 (repeat 1 33)))) = (30 * 1)%Z /\
     Z.of_nat (length before) = ((33 - 30 * 1) / 2)%Z /\
     (length after = length before \/ length after = S (length before))).
Proof.
  apply (slice_centred (mkBuffer 33 1 (repeat 1 33)) 1); reflexivity.
Defined.

End SliceFacts.

(* ===================================================================== *)
(** ** More on tap tempo                                                  *)
(* ===================================================================== *)

Section TapFacts.
Import Deck.

Lemma gaps_drop (P : Z -> Prop) (l : list Z) : forall k : nat,
  Forall P (Spec.gaps l) -> Forall P (Spec.gaps (drop k l)).
Proof.
  induction l as [|a rest IH]; intros k Hall.
  - rewrite drop_nil. exact Hall.
  - destruct k as [|k]; [exact Hall|]. simpl drop. apply IH.
    destruct rest as [|b rest]; [constructor|].
    change (Spec.gaps (a :: b :: rest)) with ((b - a)%Z :: Spec.gaps (b :: rest)) in Hall.
    inversion Hall; assumption.
Qed.

(** Gaps in [(0, 2000]] add up to a span in [(0, 2000 * count]]. *)
Lemma gaps_span_bounds (rest : list Z) : forall a : Z,
  rest <> [] ->
  Forall (fun g => (0 < g <= 2000)%Z) (Spec.gaps (a :: rest)) ->
  (0 < List.last rest a - a <= 2000 * Z.of_nat (length rest))%Z.
Proof.
  induction rest as [|b rest IH]; intros a Hne Hall; [congruence|].
  change (Spec.gaps (a :: b :: rest)) with ((b - a)%Z :: Spec.gaps (b :: rest)) in Hall.
  inversion Hall as [|? ? Hg Hrest]; subst.
  rewrite (last_cons_default b rest a).
  change (length (b :: rest)) with (S (length rest)).
  destruct rest as [|c rest].
  - simpl. lia.
  - specialize (IH b ltac:(discriminate) Hrest). lia.
Qed.

(** [Math.round(x * 10) / 10] does not depend on how [x] is written. *)
Lemma oneDecimal_comp (x y : Q) : x == y -> Spec.oneDecimal x = Spec.oneDecimal y.
Proof.
  intros Hxy. unfold Spec.oneDecimal, JsNum.round. f_equal. f_equal.
  apply Qfloor_comp. rewrite Hxy. reflexivity.
Qed.

Lemma oneDecimal_lower (x b : Q) :
  inject_Z (Qfloor (b * 10)) == b * 10 -> b <= x -> b <= Spec.oneDecimal x.
Proof.
  intros Hb Hx. unfold Spec.oneDecimal, JsNum.round.
  assert (Hfl : (Qfloor (b * 10) <= Qfloor (x * 10 + (1 # 2)))%Z).
  { apply Qfloor_resp_le. lra. }
  rewrite Zle_Qle in Hfl.
  apply Qle_shift_div_l; [reflexivity|]. lra.
Qed.

(** X8.  When the stamps grow strictly (and no gap exceeds 2000
    ms, or the buffer would have been reset) a tempo set by tapping is a
    finite number of at least 30 BPM. *)
Theorem tapBpm_at_least_30 (s : Deck) (stamps : list Z) :
  (length (tapTimesRef s) <= 4)%nat ->
  Forall (fun g => (0 < g <= 2000)%Z) (Spec.gaps (tapTimesRef s ++ stamps)) ->
  (1 <= length stamps)%nat -> (2 <= length (tapTimesRef s ++ stamps))%nat ->
  exists q : Q, bpm (taps stamps s) = Bpm q /\ 30 <= q.
Proof.
  intros Hheld Hgaps Hone Htwo.
  set (held := tapTimesRef s ++ stamps) in *.
  destruct (taps_fresh s stamps Hheld) as [_ Hbpm].
  { eapply Forall_impl; [exact Hgaps|]. simpl. intros g Hg. lia. }
  fold held in Hbpm.
  replace (1 <=? length stamps)%nat with true in Hbpm
    by (symmetry; apply Nat.leb_le; lia).
  replace (2 <=? length held)%nat with true in Hbpm
    by (symmetry; apply Nat.leb_le; lia).
  simpl in Hbpm. rewrite Hbpm.
  pose proof (gaps_drop _ held (length held - 4) Hgaps) as Hrecent.
  fold (Spec.recent 4 held) in Hrecent.
  pose proof (recent_length held) as Hlen.
  destruct (Spec.recent 4 held) as [|a rest] eqn:Erec;
    [change (length (@nil Z)) with 0%nat in Hlen; lia|].
  assert (Hrest : rest <> []).
  { destruct rest; [|discriminate].
    change (length [a]) with 1%nat in Hlen. lia. }
  destruct (gaps_span_bounds rest a Hrest Hrecent) as [Hlo Hhi].
  unfold Spec.tapTempo. rewrite mean_gaps_span.
  set (span := (List.last rest a - a)%Z) in *.
  set (n := Z.of_nat (length rest)) in *.
  assert (Hn : (0 < n)%Z) by (unfold n; destruct rest; [congruence | simpl; lia]).
  assert (Hnq : 0 < inject_Z n) by (change 0 with (inject_Z 0); rewrite <- Zlt_Qlt; lia).
  assert (Hsq : 0 < inject_Z span) by (change 0 with (inject_Z 0); rewrite <- Zlt_Qlt; lia).
  assert (Hmean_pos : 0 < inject_Z span / inject_Z n).
  { apply Qlt_shift_div_l; lra. }
  assert (Hmean_le : inject_Z span / inject_Z n <= 2000).
  { apply Qle_shift_div_r; [exact Hnq|].
    change 2000 with (inject_Z 2000). rewrite <- inject_Z_mult, <- Zle_Qle. lia. }
  destruct (Qeq_bool (inject_Z span / inject_Z n) 0) eqn:E.
  { apply Qeq_bool_iff in E. lra. }
  eexists. split; [reflexivity|].
  apply oneDecimal_lower; [reflexivity|].
  apply Qle_shift_div_l; [exact Hmean_pos|]. lra.
Qed.

Lemma tapBpm_at_least_30_witness :
  exists q : Q, bpm (taps [0; 1900; 3800]%Z initial) = Bpm q /\ 30 <= q.
Proof.
  apply (tapBpm_at_least_30 initial [0; 1900; 3800]%Z).
  - simpl. lia.
  - simpl. repeat constructor; lia.
  - simpl. lia.
  - simpl. lia.
Defined.

Lemma steady_from (t0 g : Z) (a m : nat) :
  map (fun i => (t0 + Z.of_nat i * g)%Z) (seq a (S m)) =
  (t0 + Z.of_nat a * g)%Z :: map (fun i => (t0 + Z.of_nat i * g)%Z) (seq (S a) m).
Proof. reflexivity. Qed.

Lemma steady_gaps (t0 g : Z) (m : nat) : forall a : nat,
  Forall (fun d => d = g) (Spec.gaps (map (fun i => (t0 + Z.of_nat i * g)%Z) (seq a m))).
Proof.
  induction m as [|m IH]; intros a; [constructor|].
  rewrite steady_from. specialize (IH (S a)).
  destruct m as [|m]; [constructor|].
  rewrite steady_from in IH |- *.
  match goal with
  | |- Forall _ (Spec.gaps (?x :: ?y :: ?l)) =>
      change (Spec.gaps (x :: y :: l)) with ((y - x)%Z :: Spec.gaps (y :: l))
  end.
  constructor; [lia | exact IH].
Qed.

Lemma steady_last (t0 g : Z) (m : nat) : forall (a : nat) (d : Z),
  List.last (map (fun i => (t0 + Z.of_nat i * g)%Z) (seq (S a) m))
    (t0 + Z.of_nat a * g)%Z
  = (t0 + Z.of_nat (a + m) * g)%Z.
Proof.
  induction m as [|m IH]; intros a d.
  - simpl. f_equal. f_equal. lia.
  - rewrite steady_from, last_cons_default, (IH (S a) d). f_equal. f_equal. lia.
Qed.

(** X9.  From an empty buffer, two or more taps exactly [g]
    milliseconds apart ([g] not 0 and at most 2000) set the BPM to
    [60000 / g] rounded to one decimal, however many taps are made. *)
Theorem tapBpm_steady (s : Deck) (t0 g : Z) (n : nat) :
  tapTimesRef s = [] -> (2 <= n)%nat -> g <> 0%Z -> (g <= 2000)%Z ->
  bpm (taps (Taps.steady t0 g n) s) = Bpm (Spec.oneDecimal (60000 / inject_Z g)).
Proof.
  intros Hempty Hn Hg Hmax.
  assert (Hlen : length (Taps.steady t0 g n) = n).
  { unfold Taps.steady. rewrite length_map, length_seq. reflexivity. }
  destruct (taps_fresh s (Taps.steady t0 g n)) as [_ Hbpm].
  { rewrite Hempty. simpl. lia. }
  { rewrite Hempty. simpl app. unfold Taps.steady.
    eapply Forall_impl; [apply steady_gaps|]. simpl. intros d ->. exact Hmax. }
  rewrite Hempty in Hbpm. simpl app in Hbpm. rewrite Hlen in Hbpm.
  replace (1 <=? n)%nat with true in Hbpm by (symmetry; apply Nat.leb_le; lia).
  replace (2 <=? n)%nat with true in Hbpm by (symmetry; apply Nat.leb_le; lia).
  simpl andb in Hbpm. cbv iota in Hbpm. rewrite Hbpm.
  unfold Spec.recent. rewrite Hlen. unfold Taps.steady.
  rewrite skipn_map, skipn_seq.
  set (a := (0 + (n - 4))%nat). set (m := (n - (n - 4))%nat).
  assert (Hm : (2 <= m)%nat) by (unfold m; lia).
  destruct m as [|m']; [lia|]. rewrite steady_from.
  unfold Spec.tapTempo. rewrite mean_gaps_span.
  rewrite (steady_last t0 g m' a 0%Z), length_map, length_seq.
  assert (Hmean : inject_Z (t0 + Z.of_nat (a + m') * g - (t0 + Z.of_nat a * g))
                  / inject_Z (Z.of_nat m') == inject_Z g).
  { replace (t0 + Z.of_nat (a + m') * g - (t0 + Z.of_nat a * g))%Z
      with (g * Z.of_nat m')%Z by lia.
    rewrite inject_Z_mult. field.
    change 0 with (inject_Z 0). rewrite inject_Z_injective. lia. }
  destruct (Qeq_bool _ 0) eqn:E.
  - apply Qeq_bool_iff in E. rewrite Hmean in E.
    change 0 with (inject_Z 0) in E. rewrite inject_Z_injective in E. contradiction.
  - f_equal. apply oneDecimal_comp. rewrite Hmean. reflexivity.
Qed.

Lemma tapBpm_steady_witness :
  bpm (taps (Taps.steady 1000 480 7) initial)
  = Bpm (Spec.oneDecimal (60000 / inject_Z 480)).
Proof.
  apply (tapBpm_steady initial 1000 480 7); [reflexivity | lia | lia | lia].
Defined.

End TapFacts.

(* ===================================================================== *)
(** ** What every command keeps                                           *)
(* ===================================================================== *)

Section Invariants.
Import Deck Transport.

(** A result of the normalisation, whatever the fuel, is the point of
    [[0, d)] congruent to the input. *)
Lemma normalize_result (fuel : nat) (d p q : Q) :
  0 < d -> SampleClock.normalize fuel d p = Some q ->
  within d q /\ exists k : Z, q == p + inject_Z k * d.
Proof.
  intros Hd Hrun.
  destruct (normalize_total d p Hd) as (q' & Hrange & Hk & Htotal).
  specialize (Htotal (Nat.max fuel (SampleClock.budget d p)) (Nat.le_max_r _ _)).
  unfold SampleClock.normalize in Hrun, Htotal.
  rewrite (proj2 (ltb_lt 0 d) Hd) in Hrun, Htotal.
  destruct (SampleClock.wrap_negative fuel d p) as [w|] eqn:Ew; [|discriminate].
  rewrite (wrap_negative_mono fuel _ d p w (Nat.le_max_l _ _) Ew) in Htotal.
  simpl in Hrun, Htotal. rewrite Hrun in Htotal. injection Htotal as ->.
  split; [exact Hrange | exact Hk].
Qed.

(** The render keeps the invariant when the handler's outcome has its
    parts other than the remembered rate, and left that one as it was or
    wrote 1 into it. *)
Lemma commit_consistent (fuel : nat) (now : Q) (old new s' : Deck) :
  consistent old ->
  audioContextRef new = true ->
  (isPlaying new = true -> is_Some (audioBuffer new) /\ is_Some (sourceNodeRef new)) ->
  (forall buf, audioBuffer new = Some buf ->
     duration new = buf_duration buf /\ isLoaded new = true) ->
  length (hotCues new) = 3%nat -> (length (tapTimesRef new) <= 4)%nat ->
  (lastPlaybackRateRef new = lastPlaybackRateRef old \/ lastPlaybackRateRef new = 1) ->
  commit fuel now old new = Some s' -> consistent s'.
Proof.
  intros (_ & _ & _ & _ & _ & Hold) Hctx Hplay Hbuf Hcues Htaps Hlast. unfold commit.
  destruct (depsChanged old new) eqn:Hdeps.
  - unfold rateEffect. rewrite Hctx, andb_true_r.
    destruct (isPlaying new) eqn:Hp.
    + destruct (Hplay eq_refl) as [Hb [src Hsrc]]. rewrite Hsrc.
      destruct (SampleClock.normalize _ _ _) as [n|]; [|discriminate].
      simpl. intros [= <-]. unfold consistent. simpl.
      split; [exact Hctx|]. split; [intros _; split; [exact Hb | eauto]|].
      split; [exact Hbuf|]. split; [exact Hcues|]. split; [exact Htaps|].
      left. reflexivity.
    + intros [= <-]. unfold consistent. simpl. rewrite Hp.
      split; [exact Hctx|]. split; [discriminate|].
      split; [exact Hbuf|]. split; [exact Hcues|]. split; [exact Htaps|].
      left. reflexivity.
  - intros [= <-]. unfold consistent.
    split; [exact Hctx|]. split; [exact Hplay|].
    split; [exact Hbuf|]. split; [exact Hcues|]. split; [exact Htaps|].
    unfold depsChanged in Hdeps. apply negb_false_iff in Hdeps.
    apply andb_true_iff in Hdeps as [Hdeps _].
    apply andb_true_iff in Hdeps as [Hrate _].
    apply Qeq_bool_iff in Hrate.
    destruct Hlast as [Hl|Hl]; rewrite Hl; [|right; reflexivity].
    destruct Hold as [H|H]; [left; rewrite H; exact Hrate | right; exact H].
Qed.

Lemma tapBpm_buffer_bound (now : Z) (s : Deck) :
  (length (tapTimesRef s) <= 4)%nat -> (length (tapTimesRef (tapBpm now s)) <= 4)%nat.
Proof.
  intros Hlen. unfold tapBpm.
  destruct (match last (tapTimesRef s) with
            | Some t => (2000 <? now - t)%Z
            | None => false
            end); [simpl; lia|].
  cbv zeta.
  assert (Hpush : length (tapTimesRef s ++ [now]) = S (length (tapTimesRef s))).
  { rewrite length_app. simpl. lia. }
  destruct (4 <? length (tapTimesRef s ++ [now]))%nat eqn:E.
  - assert (Htail : (length (tail (tapTimesRef s ++ [now])) <= 4)%nat).
    { destruct (tapTimesRef s ++ [now]); simpl in *; lia. }
    destruct (2 <=? length _)%nat; simpl; exact Htail.
  - apply Nat.ltb_ge in E.
    destruct (2 <=? length _)%nat; simpl; exact E.
Qed.

(** The outcomes of [pause] and of [seek]. *)
Lemma pause_outcome (fuel : nat) (now : Q) (s s' : Deck) :
  pause fuel now s = Some s' ->
  s' = s \/
  exists n, SampleClock.normalize fuel (duration s)
              (pauseTimeRef s + (now - startTimeRef s) * playbackRate s) = Some n /\
            s' = setIsPlaying false (setPauseTimeRef n (setSourceNodeRef None s)).
Proof.
  unfold pause. destruct (sourceNodeRef s); [|intros [= <-]; left; reflexivity].
  destruct (isPlaying s && audioContextRef s); [|intros [= <-]; left; reflexivity].
  destruct (SampleClock.normalize _ _ _) as [n|]; [|discriminate].
  simpl. intros [= <-]. right. exists n. split; reflexivity.
Qed.

Lemma play_outcome (now : Q) (s : Deck) :
  play now s = s \/
  exists buf off,
    audioContextRef s = true /\ audioBuffer s = Some buf /\
    play now s =
      setIsPlaying true
        (setSourceNodeRef (Some (mkSource (playbackRate s) (isLooping s) off))
           (setStartTimeRef (now - off) s)).
Proof.
  unfold play. destruct (audioContextRef s); [|left; reflexivity].
  destruct (audioBuffer s) as [buf|]; [|left; reflexivity].
  right. eexists _, _. repeat split.
Qed.

Ltac keeps_by_fields :=
  unfold handlerKeeps, consistent, is_Some in *; simpl in *;
  intuition (eauto; try congruence; try discriminate).

Lemma dispatch_consistent (fuel : nat) (now : Q) (handler : Deck -> option Deck)
    (s s' : Deck) :
  consistent s ->
  (forall new, handler s = Some new -> handlerKeeps s new) ->
  dispatch fuel now handler s = Some s' -> consistent s'.
Proof.
  intros Hwf Hkeeps. unfold dispatch.
  destruct (handler s) as [new|] eqn:Hh; [|discriminate]. simpl.
  destruct (Hkeeps new eq_refl) as (H1 & H2 & H3 & H4 & H5 & H6).
  apply (commit_consistent fuel now s new s' Hwf H1 H2 H3 H4 H5 (or_introl H6)).
Qed.

Lemma play_keeps (now : Q) (s0 s : Deck) :
  handlerKeeps s0 s -> handlerKeeps s0 (play now s).
Proof.
  intros Hk. destruct (play_outcome now s) as [->|(buf & off & Hctx & Hbuf & ->)];
    [exact Hk|].
  keeps_by_fields.
Qed.

Lemma consistent_keeps (s : Deck) : consistent s -> handlerKeeps s s.
Proof. keeps_by_fields. Qed.

Lemma pause_keeps (fuel : nat) (now : Q) (s new : Deck) :
  consistent s -> pause fuel now s = Some new ->
  handlerKeeps s new /\ isPlaying new = false \/ new = s.
Proof.
  intros Hwf Hp. destruct (pause_outcome fuel now s new Hp) as [->|(n & _ & ->)];
    [right; reflexivity|].
  left. split; [|reflexivity]. keeps_by_fields.
Qed.

Lemma seek_keeps (fuel : nat) (now time : Q) (s new : Deck) :
  consistent s -> seek fuel now time s = Some new -> handlerKeeps s new.
Proof.
  intros Hwf. unfold seek.
  destruct (isPlaying s) eqn:Hplay.
  - destruct (pause fuel now s) as [s1|] eqn:Hp; [|discriminate]. simpl.
    intros [= <-]. apply play_keeps.
    destruct (pause_keeps fuel now s s1 Hwf Hp) as [[Hk Hpaused] | ->].
    + keeps_by_fields.
    + pose proof (consistent_keeps s Hwf). keeps_by_fields.
  - simpl. intros [= <-]. pose proof (consistent_keeps s Hwf). keeps_by_fields.
Qed.

(** The part of [loadFile] that runs when decoding settles keeps the
    invariant, whatever happened since the load started. *)
Lemma settle_consistent (fuel : nat) (now : Q) (decoded : option AudioBuffer)
    (s s' : Deck) :
  consistent s ->
  commit fuel now s
    match decoded with
    | Some buf => loadFile_decoded buf s
    | None => loadFile_failed s
    end = Some s' ->
  consistent s'.
Proof.
  intros Hwf. pose proof Hwf as (Hctx & Hplay & Hbuf & Hcues & Htaps & _).
  destruct decoded as [buf|].
  - apply (commit_consistent fuel now s (loadFile_decoded buf s) s' Hwf); simpl.
    + exact Hctx.
    + intros Hp. split; [eauto | apply Hplay; exact Hp].
    + intros b [= <-]. split; reflexivity.
    + reflexivity.
    + exact Htaps.
    + right. reflexivity.
  - apply (commit_consistent fuel now s (loadFile_failed s) s' Hwf); simpl;
      try assumption.
    left. reflexivity.
Qed.

(** Every command keeps [consistent]. *)
Lemma exec_consistent (fuel : nat) (now : Q) (c : Command) (s s' : Deck) :
  consistent s -> exec fuel now c s = Some s' -> consistent s'.
Proof.
  intros Hwf. pose proof (consistent_keeps s Hwf) as Hk.
  destruct c; simpl exec;
    try (apply dispatch_consistent; [exact Hwf|]; intros new [= <-];
         solve [keeps_by_fields]).
  - (* Play *)
    apply dispatch_consistent; [exact Hwf|]. intros new [= <-].
    apply play_keeps. exact Hk.
  - (* Pause *)
    apply dispatch_consistent; [exact Hwf|]. intros new Hp.
    destruct (pause_keeps fuel now s new Hwf Hp) as [[Hn _] | ->]; assumption.
  - (* TogglePlay *)
    apply dispatch_consistent; [exact Hwf|]. intros new. unfold togglePlay.
    destruct (isPlaying s).
    + intros Hp. destruct (pause_keeps fuel now s new Hwf Hp) as [[Hn _] | ->]; assumption.
    + intros [= <-]. apply play_keeps. exact Hk.
  - (* Seek *)
    apply dispatch_consistent; [exact Hwf|]. intros new. apply seek_keeps. exact Hwf.
  - (* ToggleLoop *)
    apply dispatch_consistent; [exact Hwf|]. intros new [= <-]. unfold toggleLoop.
    destruct (sourceNodeRef s) eqn:Hsrc; keeps_by_fields.
  - (* SyncToBpm *)
    apply dispatch_consistent; [exact Hwf|]. intros new [= <-]. unfold syncToBpm.
    destruct (bpm s) as [b|]; [destruct (Qeq_bool b 0)|]; keeps_by_fields.
  - (* TapBpm *)
    apply dispatch_consistent; [exact Hwf|]. intros new [= <-].
    pose proof (tapBpm_buffer_bound stamp s) as Hb.
    assert (Hsame : forall f : Deck -> bool, True) by auto.
    unfold handlerKeeps. destruct Hk as (H1 & H2 & H3 & H4 & H5 & H6).
    assert (Hfields : audioContextRef (tapBpm stamp s) = audioContextRef s /\
                      isPlaying (tapBpm stamp s) = isPlaying s /\
                      audioBuffer (tapBpm stamp s) = audioBuffer s /\
                      sourceNodeRef (tapBpm stamp s) = sourceNodeRef s /\
                      duration (tapBpm stamp s) = duration s /\
                      isLoaded (tapBpm stamp s) = isLoaded s /\
                      hotCues (tapBpm stamp s) = hotCues s /\
                      lastPlaybackRateRef (tapBpm stamp s) = lastPlaybackRateRef s).
    { unfold tapBpm.
      destruct (match last (tapTimesRef s) with
                | Some t => (2000 <? stamp - t)%Z
                | None => false
                end); [repeat split|].
      cbv zeta. destruct (2 <=? length _)%nat; repeat split. }
    destruct Hfields as (F1 & F2 & F3 & F4 & F5 & F6 & F7 & F8).
    rewrite F1, F2, F3, F4, F5, F6, F7, F8.
    repeat split; try assumption; try (apply H2; assumption);
      try (apply (H3 buf); assumption).
    apply Hb. exact H5.
  - (* TriggerHotCue *)
    apply dispatch_consistent; [exact Hwf|]. intros new. unfold triggerHotCue.
    destruct (hotCues s !! index) as [[cue|]|]; [| |discriminate].
    + apply seek_keeps. exact Hwf.
    + intros [= <-]. unfold handlerKeeps in *. simpl. rewrite length_insert. exact Hk.
  - (* DeleteHotCue *)
    apply dispatch_consistent; [exact Hwf|]. intros new [= <-].
    unfold handlerKeeps, deleteHotCue in *. simpl. rewrite length_insert. exact Hk.
  - (* LoadFile *)
    unfold loadFile. destruct Hwf as (Hctx & Hrest). rewrite Hctx.
    destruct (commit fuel now s (loadFile_begin name s)) as [s1|] eqn:E1;
      [|discriminate]. simpl.
    assert (H1 : consistent s1).
    { apply (dispatch_consistent fuel now (fun s => Some (loadFile_begin name s)) s s1
               (conj Hctx Hrest)); [|unfold dispatch; simpl; exact E1].
      intros new [= <-]. keeps_by_fields. }
    intros Hrun. apply (settle_consistent fuel now decoded s1 s' H1).
    destruct decoded; exact Hrun.
  - (* LoadStart *)
    destruct (audioContextRef s); [|intros [= <-]; exact Hwf].
    apply dispatch_consistent; [exact Hwf|]. intros new [= <-]. keeps_by_fields.
  - (* LoadSettle *)
    apply (settle_consistent fuel now decoded s s' Hwf).
  - (* Tick *)
    apply dispatch_consistent; [exact Hwf|]. intros new. unfold updateLoop.
    destruct (isPlaying s && audioContextRef s).
    + destruct (SampleClock.normalize _ _ _); [|discriminate].
      simpl. intros [= <-]. keeps_by_fields.
    + destruct (negb (isPlaying s)); intros [= <-]; keeps_by_fields.
Qed.

Lemma initial_consistent : consistent initial.
Proof.
  unfold consistent. simpl.
  split; [reflexivity|]. split; [discriminate|]. split; [discriminate|].
  split; [reflexivity|]. split; [lia|]. left. reflexivity.
Qed.

(** X10.  In every state the deck reaches from its initial state by
    commands, loads that start and settle at any moments (also while other
    commands run in between), completed analyses and display ticks, in any
    order and at any times: a deck that plays has a decoded buffer and a
    source node; the duration is that of the loaded buffer; there are
    three cue slots and at most four tap stamps; and the rate remembered
    for re-anchoring is the current rate or the 1 written by a load that
    settled. *)
Theorem run_consistent (fuel : nat) (events : list (Q * Command)) (s' : Deck) :
  run fuel events initial = Some s' -> consistent s'.
Proof.
  generalize initial initial_consistent.
  induction events as [|[now c] rest IH]; intros s Hwf; simpl.
  - intros [= <-]. exact Hwf.
  - destruct (exec fuel now c s) as [s1|] eqn:He; [|discriminate]. simpl.
    apply IH. apply (exec_consistent fuel now c s s1 Hwf He).
Qed.

Lemma run_consistent_witness :
  exists s' : Deck,
    run 2 [(0, LoadFile "a.mp3" (Some Session.track100)); (1, SetSpeed (3 # 2));
           (2, Play); (3, LoadStart "a.mp3"); (4, Play);
           (5, LoadSettle (Some Session.track100)); (9, Tick)] initial
      = Some s' /\ consistent s' /\
    isPlaying s' = true /\ lastPlaybackRateRef s' == 1 /\
    playbackRate s' == 3 # 2.
Proof.
  eexists. split; [vm_compute; reflexivity|]. split.
  - apply (run_consistent 2
             [(0, LoadFile "a.mp3" (Some Session.track100)); (1, SetSpeed (3 # 2));
              (2, Play); (3, LoadStart "a.mp3"); (4, Play);
              (5, LoadSettle (Some Session.track100)); (9, Tick)]).
    vm_compute. reflexivity.
  - vm_compute. repeat split; reflexivity.
Defined.

(** The render keeps positions in range: it moves the anchor only to a
    normalised position. *)
Lemma commit_ranged (fuel : nat) (now : Q) (old new s' : Deck) :
  ranged new -> commit fuel now old new = Some s' -> ranged s'.
Proof.
  intros Hr. unfold commit.
  destruct (depsChanged old new); [|intros [= <-]; exact Hr].
  unfold rateEffect.
  destruct (isPlaying new && audioContextRef new);
    [destruct (sourceNodeRef new)|].
  - destruct (SampleClock.normalize _ _ _) as [n|] eqn:En; [|discriminate].
    simpl. intros [= <-]. unfold ranged in *. simpl. intros Hd.
    destruct (Hr Hd) as (_ & Hcur & Hcues).
    split; [|split; assumption].
    apply (normalize_result _ _ _ _ Hd En).
  - intros [= <-]. exact Hr.
  - intros [= <-]. exact Hr.
Qed.

Lemma play_ranged (now : Q) (s : Deck) : ranged s -> ranged (play now s).
Proof.
  intros Hr. destruct (play_outcome now s) as [->|(buf & off & _ & _ & ->)];
    [exact Hr|]. exact Hr.
Qed.

Lemma pause_ranged (fuel : nat) (now : Q) (s s' : Deck) :
  ranged s -> pause fuel now s = Some s' -> ranged s'.
Proof.
  intros Hr Hp. destruct (pause_outcome fuel now s s' Hp) as [->|(n & Hn & ->)];
    [exact Hr|].
  unfold ranged in *. simpl. intros Hd. destruct (Hr Hd) as (_ & Hcur & Hcues).
  split; [|split; assumption]. apply (normalize_result _ _ _ _ Hd Hn).
Qed.

Lemma pause_duration (fuel : nat) (now : Q) (s s' : Deck) :
  pause fuel now s = Some s' -> duration s' = duration s /\ hotCues s' = hotCues s.
Proof.
  intros Hp. destruct (pause_outcome fuel now s s' Hp) as [->|(n & _ & ->)];
    split; reflexivity.
Qed.

Lemma seek_ranged (fuel : nat) (now time : Q) (s s' : Deck) :
  ranged s -> (0 < duration s -> within (duration s) time) ->
  seek fuel now time s = Some s' -> ranged s'.
Proof.
  intros Hr Htime. unfold seek.
  destruct (if isPlaying s then pause fuel now s else Some s) as [s1|] eqn:E1;
    [|discriminate].
  simpl. intros [= <-].
  assert (H1 : duration s1 = duration s /\ hotCues s1 = hotCues s).
  { destruct (isPlaying s); [apply (pause_duration fuel now s s1 E1)|].
    injection E1 as <-. split; reflexivity. }
  destruct H1 as [Hd1 Hc1].
  assert (Hr2 : ranged (setCurrentTime time (setPauseTimeRef time s1))).
  { unfold ranged in *. simpl. rewrite Hd1, Hc1. intros Hd.
    destruct (Hr Hd) as (_ & _ & Hcues). specialize (Htime Hd).
    split; [exact Htime|]. split; [exact Htime | exact Hcues]. }
  destruct (isPlaying s); [apply play_ranged|]; exact Hr2.
Qed.

(** Every command with an admissible seek target keeps [ranged]. *)
Lemma exec_ranged (fuel : nat) (now : Q) (c : Command) (s s' : Deck) :
  ranged s -> admissible s c -> exec fuel now c s = Some s' -> ranged s'.
Proof.
  intros Hr Hadm.
  assert (Hdisp : forall handler,
            (forall new, handler s = Some new -> ranged new) ->
            dispatch fuel now handler s = Some s' -> ranged s').
  { intros handler Hh. unfold dispatch.
    destruct (handler s) as [new|] eqn:E; [|discriminate]. simpl.
    apply commit_ranged. apply Hh. reflexivity. }
  destruct c; simpl exec;
    try (apply Hdisp; intros new [= <-]; solve [exact Hr]).
  - apply Hdisp. intros new [= <-]. apply play_ranged. exact Hr.
  - apply Hdisp. intros new. apply pause_ranged. exact Hr.
  - apply Hdisp. intros new. unfold togglePlay. destruct (isPlaying s).
    + apply pause_ranged. exact Hr.
    + intros [= <-]. apply play_ranged. exact Hr.
  - apply Hdisp. intros new. apply seek_ranged; [exact Hr | exact Hadm].
  - apply Hdisp. intros new [= <-]. unfold toggleLoop.
    destruct (sourceNodeRef s); exact Hr.
  - apply Hdisp. intros new [= <-]. unfold syncToBpm.
    destruct (bpm s) as [b|]; [destruct (Qeq_bool b 0)|]; exact Hr.
  - apply Hdisp. intros new [= <-]. unfold tapBpm.
    destruct (match last (tapTimesRef s) with
              | Some t => (2000 <? stamp - t)%Z
              | None => false
              end); [exact Hr|].
    cbv zeta. destruct (2 <=? length _)%nat; exact Hr.
  - apply Hdisp. intros new. unfold triggerHotCue.
    destruct (hotCues s !! index) as [[cue|]|] eqn:El; [| |discriminate].
    + apply seek_ranged; [exact Hr|]. intros Hd.
      destruct (Hr Hd) as (_ & _ & Hcues).
      rewrite Forall_lookup in Hcues. apply (Hcues index (Some cue) El).
    + intros [= <-]. unfold ranged in *. simpl. intros Hd.
      destruct (Hr Hd) as (Hp & Hcur & Hcues).
      split; [exact Hp|]. split; [exact Hcur|].
      apply Forall_insert; [exact Hcues | exact Hcur].
  - apply Hdisp. intros new [= <-]. unfold ranged, deleteHotCue in *. simpl.
    intros Hd. destruct (Hr Hd) as (Hp & Hcur & Hcues).
    split; [exact Hp|]. split; [exact Hcur|].
    apply Forall_insert; [exact Hcues | exact I].
  - unfold loadFile. destruct (audioContextRef s); [|intros [= <-]; exact Hr].
    destruct (commit_not_playing fuel now s (loadFile_begin name s) eq_refl)
      as (r1 & ->). simpl.
    match goal with
    | |- match decoded with _ => _ end = _ -> _ => destruct decoded as [buf|]
    end.
    + match goal with
      | |- commit fuel now ?a ?b = _ -> _ =>
          destruct (commit_not_playing fuel now a b eq_refl) as (r2 & ->)
      end.
      intros [= <-]. unfold ranged. simpl. intros Hd.
      split; [split; [lra | exact Hd]|]. split; [split; [lra | exact Hd]|].
      repeat constructor.
    + match goal with
      | |- commit fuel now ?a ?b = _ -> _ =>
          destruct (commit_not_playing fuel now a b eq_refl) as (r2 & ->)
      end.
      intros [= <-]. exact Hr.
  - destruct (audioContextRef s); [|intros [= <-]; exact Hr].
    apply Hdisp. intros new [= <-]. exact Hr.
  - apply Hdisp. intros new [= <-]. destruct decoded as [buf|]; [|exact Hr].
    unfold ranged. simpl. intros Hd.
    split; [split; [lra | exact Hd]|]. split; [split; [lra | exact Hd]|].
    repeat constructor.
  - apply Hdisp. intros new. unfold updateLoop.
    destruct (isPlaying s && audioContextRef s).
    + destruct (SampleClock.normalize _ _ _) as [n|] eqn:En; [|discriminate].
      simpl. intros [= <-]. unfold ranged in *. simpl. intros Hd.
      destruct (Hr Hd) as (Hp & _ & Hcues).
      split; [exact Hp|]. split; [|exact Hcues].
      apply (normalize_result _ _ _ _ Hd En).
    + destruct (negb (isPlaying s)); intros [= <-]; [|exact Hr].
      unfold ranged in *. simpl. intros Hd. destruct (Hr Hd) as (Hp & _ & Hcues).
      split; [exact Hp|]. split; [exact Hp | exact Hcues].
Qed.

(** X11.  As long as every seek targets a position of the track loaded at
    that moment, the clock anchor, the displayed position and every hot
    cue stay in [[0, duration)] through all commands, loads that start and
    settle at any moments (also with other commands in between), analyses
    and display ticks. *)
Theorem run_ranged (fuel : nat) (events : list (Q * Command)) (s' : Deck) :
  admissibleRun fuel events initial ->
  run fuel events initial = Some s' -> ranged s'.
Proof.
  assert (Hinit : ranged initial).
  { unfold ranged. simpl. intros Hd. discriminate. }
  revert Hinit. generalize initial.
  induction events as [|[now c] rest IH]; intros s Hr; simpl.
  - intros _ [= <-]. exact Hr.
  - intros [Hadm Hrest].
    destruct (exec fuel now c s) as [s1|] eqn:He; [|discriminate]. simpl.
    apply IH; [|exact Hrest]. apply (exec_ranged fuel now c s s1 Hr Hadm He).
Qed.

Lemma run_ranged_witness :
  exists s' : Deck,
    run 2 [(0, LoadFile "a.mp3" (Some Session.track100)); (1, Play);
           (5, ToggleReverse); (30, Seek 70); (40, TriggerHotCue 0);
           (41, LoadStart "b.mp3"); (42, Play); (43, Seek 99);
           (44, LoadSettle (Some Session.clickTrack)); (50, Pause);
           (51, Tick)] initial = Some s' /\
    ranged s'.
Proof.
  eexists. split; [vm_compute; reflexivity|].
  apply (run_ranged 2
           [(0, LoadFile "a.mp3" (Some Session.track100)); (1, Play);
            (5, ToggleReverse); (30, Seek 70); (40, TriggerHotCue 0);
            (41, LoadStart "b.mp3"); (42, Play); (43, Seek 99);
            (44, LoadSettle (Some Session.clickTrack)); (50, Pause);
            (51, Tick)]).
  - vm_compute. repeat split; intros; discriminate.
  - vm_compute. reflexivity.
Defined.

End Invariants.

(* ===================================================================== *)
(** ** Hot cues                                                           *)
(* ===================================================================== *)

Section HotCues.
Import Deck Transport.

(** X12.  Triggering an unset slot captures the displayed position in
    that slot and changes nothing else; triggering the slot again on the
    paused deck, wherever the playhead has moved in between, puts the anchor
    and the displayed position exactly on the captured position and leaves
    the cues as they are. *)
Theorem hotCue_round_trip (s : Deck) (i : nat) (fuel : nat) (now : Q) :
  hotCues s !! i = Some None ->
  exists s1 : Deck,
    triggerHotCue fuel now i s = Some s1 /\
    hotCues s1 !! i = Some (Some (currentTime s)) /\
    (forall j, j <> i -> hotCues s1 !! j = hotCues s !! j) /\
    pauseTimeRef s1 = pauseTimeRef s /\ currentTime s1 = currentTime s /\
    isPlaying s1 = isPlaying s /\
    forall (s2 : Deck) (fuel2 fuel3 : nat) (now2 now3 : Q),
      hotCues s2 = hotCues s1 -> isPlaying s2 = false ->
      exists s3 : Deck,
        triggerHotCue fuel2 now2 i s2 = Some s3 /\
        pauseTimeRef s3 = currentTime s /\ currentTime s3 = currentTime s /\
        hotCues s3 = hotCues s1 /\ isPlaying s3 = false /\
        reported fuel3 now3 s3 = Some (currentTime s).
Proof.
  intros Hslot. unfold triggerHotCue at 1. rewrite Hslot.
  assert (Hi : (i < length (hotCues s))%nat) by (eapply lookup_lt_Some; exact Hslot).
  eexists. split; [reflexivity|]. simpl.
  split; [apply list_lookup_insert_eq; exact Hi|].
  split; [intros j Hj; apply list_lookup_insert_ne; congruence|].
  repeat (split; [reflexivity|]).
  intros s2 fuel2 fuel3 now2 now3 Hcues Hpaused.
  unfold triggerHotCue. rewrite Hcues. simpl.
  rewrite list_lookup_insert_eq by exact Hi.
  unfold seek. rewrite Hpaused. simpl.
  eexists. split; [reflexivity|]. simpl.
  repeat (split; [first [reflexivity | exact Hcues | exact Hpaused]|]).
  unfold reported. rewrite updateLoop_paused by exact Hpaused. reflexivity.
Qed.

Lemma hotCue_round_trip_witness :
  exists s1 : Deck,
    triggerHotCue 0 5 1 (setCurrentTime 42 Session.pausedAtZero) = Some s1 /\
    hotCues s1 !! 1%nat = Some (Some 42) /\
    exists s3 : Deck,
      triggerHotCue 0 9 1 (setCurrentTime 7 (setPauseTimeRef 7 s1)) = Some s3 /\
      pauseTimeRef s3 = 42 /\ currentTime s3 = 42 /\
      reported 0 10 s3 = Some 42.
Proof.
  destruct (hotCue_round_trip (setCurrentTime 42 Session.pausedAtZero) 1 0 5 eq_refl)
    as (s1 & Hset & Hslot & _ & _ & _ & _ & Hagain).
  exists s1. split; [exact Hset|]. split; [exact Hslot|].
  destruct (Hagain (setCurrentTime 7 (setPauseTimeRef 7 s1)) 0%nat 0%nat 9 10)
    as (s3 & Htrig & Hp & Hc & _ & _ & Hrep).
  - reflexivity.
  - injection Hset as <-. reflexivity.
  - exists s3. repeat split; assumption.
Defined.

(** X13.  Deleting an existing cue slot empties that slot and no
    other, and the next trigger of the slot captures the displayed position
    instead of seeking. *)
Theorem deleteHotCue_clears (s : Deck) (i : nat) (fuel : nat) (now : Q) :
  (i < length (hotCues s))%nat ->
  hotCues (deleteHotCue i s) !! i = Some None /\
  (forall j, j <> i -> hotCues (deleteHotCue i s) !! j = hotCues s !! j) /\
  length (hotCues (deleteHotCue i s)) = length (hotCues s) /\
  exists s' : Deck,
    triggerHotCue fuel now i (deleteHotCue i s) = Some s' /\
    hotCues s' !! i = Some (Some (currentTime s)) /\
    pauseTimeRef s' = pauseTimeRef s /\ isPlaying s' = isPlaying s.
Proof.
  intros Hi. unfold deleteHotCue. simpl.
  split; [apply list_lookup_insert_eq; exact Hi|].
  split; [intros j Hj; apply list_lookup_insert_ne; congruence|].
  split; [apply length_insert|].
  unfold triggerHotCue. simpl. rewrite list_lookup_insert_eq by exact Hi.
  eexists. split; [reflexivity|]. simpl.
  split; [|split; reflexivity].
  apply list_lookup_insert_eq. rewrite length_insert. exact Hi.
Qed.

Lemma deleteHotCue_clears_witness :
  hotCues (deleteHotCue 2 (setHotCues [Some 1; None; Some 3] Session.pausedAtZero))
    !! 2%nat = Some None /\
  hotCues (deleteHotCue 2 (setHotCues [Some 1; None; Some 3] Session.pausedAtZero))
    !! 0%nat = Some (Some 1).
Proof.
  destruct (deleteHotCue_clears
              (setHotCues [Some 1; None; Some 3] Session.pausedAtZero) 2 0 0)
    as (Hcleared & Hothers & _).
  - simpl. lia.
  - split; [exact Hcleared|]. rewrite (Hothers 0%nat) by lia. reflexivity.
Defined.

End HotCues.

(* ===================================================================== *)
(** ** The clock under rate changes, pause and play                       *)
(* ===================================================================== *)

Section ClockContinuity.
Import Deck Transport.

(** The render after a handler that changed rate factors only: the deck
    keeps playing, remembers its new rate, and its clock continues from
    the position it had at [now]. *)
Lemma rate_change_continues (s new : Deck) (now : Q) :
  playing s -> lastPlaybackRateRef s == playbackRate s -> sameButRate s new ->
  exists (s1 : Deck) (fuel0 : nat),
    (forall fuel, (fuel0 <= fuel)%nat -> commit fuel now s new = Some s1) /\
    playing s1 /\ duration s1 = duration s /\
    playbackRate s1 = playbackRate new /\
    pitch s1 = pitch new /\ bend s1 = bend new /\ syncRate s1 = syncRate new /\
    isReverse s1 = isReverse new /\
    lastPlaybackRateRef s1 == playbackRate s1 /\
    forall t, exists k : Z,
      unwrapped s1 t ==
      unwrapped s now + (t - now) * playbackRate s1 + inject_Z k * duration s.
Proof.
  intros Hp Hlast (Hplay & Hdur & Hctx & Hsrc & Hstart & Hpause & Hlast').
  assert (Hp' : playing new).
  { destruct Hp as (Hd & Hpl & Hc & Hs). unfold playing.
    rewrite Hdur, Hplay, Hctx, Hsrc. auto. }
  unfold commit, depsChanged. rewrite Hdur, Hplay.
  rewrite (proj2 (Qeq_bool_iff (duration s) (duration s)) (Qeq_refl _)).
  rewrite eqb_reflx, !andb_true_r.
  destruct (Qeq_bool (playbackRate s) (playbackRate new)) eqn:E; simpl.
  - apply Qeq_bool_iff in E.
    exists new, O. split; [reflexivity|]. split; [exact Hp'|].
    split; [exact Hdur|]. repeat (split; [reflexivity|]).
    split; [rewrite Hlast', Hlast; exact E|].
    intros t. exists 0%Z. unfold unwrapped. rewrite Hpause, Hstart, E.
    change (inject_Z 0) with 0. ring.
  - destruct (rateEffect_playing new now Hp') as (n & k & src & Hn & Hk & Hrun).
    eexists _, _. split; [exact Hrun|].
    destruct Hp' as (Hd & Hpl & Hc & Hs).
    split; [repeat split; try assumption; simpl; eauto|].
    split; [exact Hdur|]. repeat (split; [reflexivity|]).
    intros t. exists k. unfold unwrapped. simpl.
    change (playbackRate (setLastPlaybackRateRef _ _)) with (playbackRate new).
    rewrite Hk, Hpause, Hstart, Hlast', Hlast, Hdur. ring.
Qed.

Lemma rateCommand_sameButRate (now : Q) (c : Command) (s : Deck) :
  rateCommand c ->
  exists new, sameButRate s new /\
    forall fuel, exec fuel now c s = commit fuel now s new.
Proof.
  destruct c; simpl; try contradiction; intros _.
  - exists (toggleReverse s). split; [repeat split|]. intros fuel. reflexivity.
  - exists (setSpeed v s). split; [repeat split|]. intros fuel. reflexivity.
  - exists (setBendAmount v s). split; [repeat split|]. intros fuel. reflexivity.
  - exists (syncToBpm targetBpm s). split; [|intros fuel; reflexivity].
    unfold syncToBpm. destruct (bpm s) as [b|]; [destruct (Qeq_bool b 0)|];
      repeat split.
Qed.

(** X14.  A change of pitch, bend, sync rate or direction on a
    playing deck does not move the playhead: the position reported at the
    instant of the change is the same before and after, and from then on
    the position advances at the new rate. *)
Theorem rate_change_keeps_position (s : Deck) (now : Q) (c : Command) :
  playing s -> lastPlaybackRateRef s == playbackRate s -> rateCommand c ->
  exists (fuel0 : nat) (p : Q) (s1 : Deck),
    within (duration s) p /\
    (forall fuel, (fuel0 <= fuel)%nat ->
       reported fuel now s = Some p /\ exec fuel now c s = Some s1) /\
    playing s1 /\ lastPlaybackRateRef s1 == playbackRate s1 /\
    forall t, exists (fuel1 : nat) (q : Q) (k : Z),
      (forall fuel, (fuel1 <= fuel)%nat -> reported fuel t s1 = Some q) /\
      within (duration s) q /\
      q == p + (t - now) * playbackRate s1 + inject_Z k * duration s /\
      (t == now -> q == p).
Proof.
  intros Hp Hlast Hc.
  destruct (reported_playing s now Hp) as (p & kp & f0 & Hrange & Hpk & Hrun0).
  destruct (rateCommand_sameButRate now c s Hc) as (new & Hsame & Hexec).
  destruct (rate_change_continues s new now Hp Hlast Hsame)
    as (s1 & f1 & Hrun1 & Hp1 & Hd1 & _ & _ & _ & _ & _ & Hlast1 & Hclock).
  exists (Nat.max f0 f1), p, s1. split; [exact Hrange|]. split.
  { intros fuel Hfuel. split; [apply Hrun0; lia|].
    rewrite Hexec. apply Hrun1. lia. }
  split; [exact Hp1|]. split; [exact Hlast1|].
  intros t.
  destruct (reported_playing s1 t Hp1) as (q & kq & f2 & Hqrange & Hqk & Hrunq).
  destruct (Hclock t) as (k1 & Hk1).
  rewrite Hd1 in Hqrange, Hqk.
  exists f2, q, (kq + k1 - kp)%Z.
  split; [exact Hrunq|]. split; [exact Hqrange|].
  assert (Hcong : q == p + (t - now) * playbackRate s1
                       + inject_Z (kq + k1 - kp) * duration s).
  { unfold Zminus. rewrite !inject_Z_plus, inject_Z_opp.
    rewrite Hqk, Hk1, Hpk. ring. }
  split; [exact Hcong|].
  intros Ht. destruct Hp as (Hd & _). destruct Hrange, Hqrange.
  apply (congruent_in_range (duration s) q p (kq + k1 - kp)); try assumption.
  rewrite Hcong, Ht. ring.
Qed.

Lemma rate_change_keeps_position_witness :
  exists (fuel0 : nat) (p : Q) (s1 : Deck),
    within (duration Session.playingFromZero) p /\
    (forall fuel, (fuel0 <= fuel)%nat ->
       reported fuel 30 Session.playingFromZero = Some p /\
       exec fuel 30 (SetSpeed (3 # 2)) Session.playingFromZero = Some s1) /\
    playing s1 /\ lastPlaybackRateRef s1 == playbackRate s1 /\
    forall t, exists (fuel1 : nat) (q : Q) (k : Z),
      (forall fuel, (fuel1 <= fuel)%nat -> reported fuel t s1 = Some q) /\
      within (duration Session.playingFromZero) q /\
      q == p + (t - 30) * playbackRate s1
           + inject_Z k * duration Session.playingFromZero /\
      (t == 30 -> q == p).
Proof.
  apply (rate_change_keeps_position Session.playingFromZero 30 (SetSpeed (3 # 2))).
  - repeat split; simpl; eauto.
  - reflexivity.
  - exact I.
Defined.

(** X15.  Holding a bend of [b] for [delta] seconds on a playing deck
    and then setting the bend back to what it was moves the playhead, at
    every later time, by [(b - bend) * delta] in the playing direction
    against where it would have been (up to whole track lengths); the rate
    afterwards is the one before. *)
Theorem bend_nudge (s : Deck) (t delta b : Q) :
  playing s -> lastPlaybackRateRef s == playbackRate s ->
  exists (fuel0 : nat) (s1 s2 : Deck),
    (forall fuel, (fuel0 <= fuel)%nat ->
       exec fuel t (SetBendAmount b) s = Some s1 /\
       exec fuel (t + delta) (SetBendAmount (bend s)) s1 = Some s2) /\
    playing s2 /\ playbackRate s2 == playbackRate s /\
    forall T, exists k : Z,
      unwrapped s2 T ==
      unwrapped s T + (b - bend s) * direction s * delta + inject_Z k * duration s.
Proof.
  intros Hp Hlast.
  assert (Hsame1 : sameButRate s (setBendAmount b s)) by repeat split.
  destruct (rate_change_continues s (setBendAmount b s) t Hp Hlast Hsame1)
    as (s1 & f1 & Hrun1 & Hp1 & Hd1 & Hr1 & Hpi1 & Hb1 & Hsy1 & Hrev1 & Hlast1 & Hclock1).
  assert (Hsame2 : sameButRate s1 (setBendAmount (bend s) s1)) by repeat split.
  destruct (rate_change_continues s1 (setBendAmount (bend s) s1) (t + delta)
              Hp1 Hlast1 Hsame2)
    as (s2 & f2 & Hrun2 & Hp2 & Hd2 & Hr2 & Hpi2 & Hb2 & Hsy2 & Hrev2 & _ & Hclock2).
  assert (Hrate1 : playbackRate s1 == playbackRate s + (b - bend s) * direction s).
  { rewrite Hr1. unfold playbackRate, direction. simpl. ring. }
  assert (Hrate2 : playbackRate s2 == playbackRate s).
  { rewrite Hr2. unfold playbackRate. simpl. rewrite Hpi1, Hsy1, Hrev1. simpl. ring. }
  exists (Nat.max f1 f2), s1, s2. split.
  { intros fuel Hfuel. split.
    - simpl exec. unfold dispatch. simpl. apply Hrun1. lia.
    - simpl exec. unfold dispatch. simpl. apply Hrun2. lia. }
  split; [exact Hp2|]. split; [exact Hrate2|].
  intros T. destruct (Hclock2 T) as (k2 & Hk2).
  destruct (Hclock1 (t + delta)) as (k1 & Hk1).
  exists (k2 + k1)%Z. rewrite inject_Z_plus.
  rewrite Hk2, Hk1, Hd1, Hrate2, Hrate1. unfold unwrapped. ring.
Qed.

Lemma bend_nudge_witness :
  exists (fuel0 : nat) (s1 s2 : Deck),
    (forall fuel, (fuel0 <= fuel)%nat ->
       exec fuel 10 (SetBendAmount (1 # 10)) Session.playingFromZero = Some s1 /\
       exec fuel (10 + 2) (SetBendAmount (bend Session.playingFromZero)) s1 = Some s2) /\
    playing s2 /\ playbackRate s2 == playbackRate Session.playingFromZero /\
    forall T, exists k : Z,
      unwrapped s2 T ==
      unwrapped Session.playingFromZero T
      + ((1 # 10) - bend Session.playingFromZero) * direction Session.playingFromZero * 2
      + inject_Z k * duration Session.playingFromZero.
Proof.
  apply (bend_nudge Session.playingFromZero 10 2 (1 # 10)).
  - repeat split; simpl; eauto.
  - reflexivity.
Defined.

(** X16.  Pausing a playing deck freezes the playhead where the
    display had it at that instant: the anchor becomes the position reported
    at the time of the pause, and every later display tick reports that same
    position. *)
Theorem pause_freezes (s : Deck) (now : Q) :
  playing s ->
  exists (fuel0 : nat) (p : Q) (s' : Deck),
    within (duration s) p /\
    isPlaying s' = false /\ sourceNodeRef s' = None /\ pauseTimeRef s' = p /\
    (forall fuel, (fuel0 <= fuel)%nat ->
       reported fuel now s = Some p /\ exec fuel now Pause s = Some s') /\
    forall fuel' now', reported fuel' now' s' = Some p.
Proof.
  intros (Hd & Hplay & Hctx & [src Hsrc]).
  destruct (normalize_total (duration s)
              (pauseTimeRef s + (now - startTimeRef s) * playbackRate s) Hd)
    as (p & Hrange & _ & Hrun).
  set (paused := setIsPlaying false (setPauseTimeRef p (setSourceNodeRef None s))).
  exists (SampleClock.budget (duration s)
            (pauseTimeRef s + (now - startTimeRef s) * playbackRate s)),
    p, (setLastPlaybackRateRef (playbackRate paused) paused).
  split; [exact Hrange|]. repeat (split; [reflexivity|]).
  split.
  - intros fuel Hfuel. split.
    + unfold reported, updateLoop. rewrite Hplay, Hctx. simpl.
      rewrite (Hrun fuel Hfuel). reflexivity.
    + simpl exec. unfold dispatch, pause. rewrite Hsrc, Hplay, Hctx. simpl.
      rewrite (Hrun fuel Hfuel). simpl. fold paused.
      unfold commit, depsChanged. rewrite Hplay.
      change (isPlaying paused) with false. simpl Bool.eqb.
      rewrite andb_false_r. simpl negb. cbv iota.
      unfold rateEffect. change (isPlaying paused) with false. reflexivity.
  - intros fuel' now'. unfold reported.
    rewrite updateLoop_paused by reflexivity. reflexivity.
Qed.

Lemma pause_freezes_witness :
  exists (fuel0 : nat) (p : Q) (s' : Deck),
    within (duration Session.playingFromZero) p /\
    isPlaying s' = false /\ sourceNodeRef s' = None /\ pauseTimeRef s' = p /\
    (forall fuel, (fuel0 <= fuel)%nat ->
       reported fuel 130 Session.playingFromZero = Some p /\
       exec fuel 130 Pause Session.playingFromZero = Some s') /\
    forall fuel' now', reported fuel' now' s' = Some p.
Proof.
  apply (pause_freezes Session.playingFromZero 130).
  repeat split; simpl; eauto.
Defined.

(** Toward zero, [trunc] of a non-positive number is its ceiling. *)
Lemma trunc_nonpos_ceiling (a : Q) : a <= 0 -> JsNum.trunc a = Qceiling a.
Proof.
  destruct a as [n d]. unfold Qle, JsNum.trunc, Qceiling, Qfloor. simpl. intros H.
  rewrite <- (Z.opp_involutive n) at 1. rewrite Z.quot_opp_l by lia.
  f_equal. apply Z.quot_div_nonneg; lia.
Qed.

(** On a negative dividend and a positive divisor [%] lands in [(-b, 0]]. *)
Lemma rem_neg_range (a b : Q) :
  a <= 0 -> 0 < b ->
  - b < JsNum.rem a b /\ JsNum.rem a b <= 0 /\
  JsNum.rem a b == a - b * inject_Z (Qceiling (a / b)).
Proof.
  intros Ha Hb. unfold JsNum.rem.
  assert (Hq : a / b <= 0).
  { apply Qle_shift_div_r; [exact Hb|]. lra. }
  rewrite (trunc_nonpos_ceiling _ Hq).
  pose proof (Qle_ceiling (a / b)) as Hhi.
  pose proof (Qceiling_lt (a / b)) as Hlo.
  unfold Zminus in Hlo. rewrite inject_Z_plus in Hlo.
  change (inject_Z (-1)) with (- (1)) in Hlo.
  set (k := inject_Z (Qceiling (a / b))) in *.
  assert (Hab : a == b * (a / b)) by (field; lra).
  split; [|split; [|reflexivity]].
  - assert (b * (k + - (1)) < b * (a / b)) by (apply Qmult_lt_l; assumption). lra.
  - assert (b * (a / b) <= b * k) by (apply Qmult_le_l; assumption). lra.
Qed.

(** X17.  Wherever the anchor is, also negative or beyond the
    end, [play] with a loaded buffer of positive duration starts the source
    at an offset in [[0, duration)] that differs from the anchor by whole
    track lengths, sets the anchor time to [now] minus that offset, and
    leaves the anchor position as it is. *)
Theorem play_offset_in_buffer (s : Deck) (buf : AudioBuffer) (now : Q) :
  audioContextRef s = true -> audioBuffer s = Some buf -> 0 < buf_duration buf ->
  exists (off : Q) (k : Z),
    play now s =
      setIsPlaying true
        (setSourceNodeRef (Some (mkSource (playbackRate s) (isLooping s) off))
           (setStartTimeRef (now - off) s)) /\
    within (buf_duration buf) off /\
    off == pauseTimeRef s + inject_Z k * buf_duration buf.
Proof.
  intros Hctx Hbuf Hd. unfold play. rewrite Hctx, Hbuf.
  set (p := pauseTimeRef s). set (d := buf_duration buf) in *.
  destruct (Qlt_le_dec p 0) as [Hneg|Hpos].
  - destruct (rem_neg_range p d ltac:(lra) Hd) as (Hlo & Hhi & Hrem).
    destruct (JsNum.ltb (JsNum.rem p d) 0) eqn:E.
    + apply ltb_lt in E.
      exists (d + JsNum.rem p d), (1 - Qceiling (p / d))%Z.
      split; [reflexivity|]. split; [split; lra|].
      unfold Zminus. rewrite inject_Z_plus, inject_Z_opp.
      change (inject_Z 1) with 1. rewrite Hrem. ring.
    + apply ltb_ge in E.
      exists (JsNum.rem p d), (- Qceiling (p / d))%Z.
      split; [reflexivity|]. split; [split; lra|].
      rewrite inject_Z_opp, Hrem. ring.
  - destruct (rem_nonneg_range p d Hpos Hd) as (Hlo & Hhi & Hrem).
    rewrite (proj2 (ltb_ge (JsNum.rem p d) 0) Hlo).
    exists (JsNum.rem p d), (- Qfloor (p / d))%Z.
    split; [reflexivity|]. split; [split; assumption|].
    rewrite inject_Z_opp, Hrem. ring.
Qed.

Lemma play_offset_in_buffer_witness :
  exists (off : Q) (k : Z),
    play 50 (setPauseTimeRef (-250) Session.pausedAtZero) =
      setIsPlaying true
        (setSourceNodeRef
           (Some (mkSource (playbackRate (setPauseTimeRef (-250) Session.pausedAtZero))
                    (isLooping (setPauseTimeRef (-250) Session.pausedAtZero)) off))
           (setStartTimeRef (50 - off) (setPauseTimeRef (-250) Session.pausedAtZero))) /\
    within (buf_duration Session.track100) off /\
    off == pauseTimeRef (setPauseTimeRef (-250) Session.pausedAtZero)
           + inject_Z k * buf_duration Session.track100.
Proof.
  apply (play_offset_in_buffer (setPauseTimeRef (-250) Session.pausedAtZero)
           Session.track100 50); reflexivity.
Defined.

(** X18.  When decoding fails, the deck keeps its buffer, duration,
    anchor, cues, rate factors and its source node (which keeps sounding),
    but it shows the new file name, BPM 128 with no analysis pending, and
    is marked as not playing; from then on every display tick shows the
    anchor, whatever position was displayed before. *)
Theorem load_failure_keeps_track (s : Deck) (fuel : nat) (now : Q) (name : string) :
  audioContextRef s = true ->
  exists s' : Deck,
    loadFile fuel now name None s = Some s' /\
    (audioBuffer s' = audioBuffer s /\ duration s' = duration s /\
     isLoaded s' = isLoaded s /\ pauseTimeRef s' = pauseTimeRef s /\
     startTimeRef s' = startTimeRef s /\ sourceNodeRef s' = sourceNodeRef s /\
     hotCues s' = hotCues s /\ pitch s' = pitch s /\ bend s' = bend s /\
     syncRate s' = syncRate s /\ isReverse s' = isReverse s) /\
    (fileName s' = Some name /\ bpm s' = Bpm 128 /\
     isBpmAnalyzing s' = false /\ isPlaying s' = false) /\
    forall fuel' now', reported fuel' now' s' = Some (pauseTimeRef s).
Proof.
  intros Hctx. unfold loadFile. rewrite Hctx.
  destruct (commit_not_playing fuel now s (loadFile_begin name s) eq_refl)
    as (r1 & ->). simpl.
  match goal with
  | |- context [commit fuel now ?a ?b] =>
      destruct (commit_not_playing fuel now a b eq_refl) as (r2 & ->)
  end.
  eexists. split; [reflexivity|]. simpl.
  split; [repeat split|]. split; [repeat split|].
  intros fuel' now'. unfold reported.
  rewrite updateLoop_paused by reflexivity. reflexivity.
Qed.

Lemma load_failure_keeps_track_witness :
  exists s' : Deck,
    loadFile 1 7 "broken.mp3" None Session.playingFromZero = Some s' /\
    audioBuffer s' = Some Session.track100 /\
    sourceNodeRef s' = sourceNodeRef Session.playingFromZero /\
    fileName s' = Some "broken.mp3"%string /\ isPlaying s' = false /\
    reported 0 9 s' = Some (pauseTimeRef Session.playingFromZero).
Proof.
  destruct (load_failure_keeps_track Session.playingFromZero 1 7 "broken.mp3" eq_refl)
    as (s' & Hrun & (Hbuf & _ & _ & _ & _ & Hsrc & _) & (Hname & _ & _ & Hplay)
        & Hshown).
  exists s'. repeat split; try assumption. apply Hshown.
Defined.

End ClockContinuity.

(* ===================================================================== *)
(** ** The application: sync and keyboard                                 *)
(* ===================================================================== *)

Section AppFacts.
Import Deck Transport App.

Lemma max_spec (a b : Q) :
  a <= JsMath.max a b /\ b <= JsMath.max a b /\
  (JsMath.max a b = a \/ JsMath.max a b = b).
Proof.
  unfold JsMath.max. destruct (JsNum.ltb a b) eqn:E.
  - apply ltb_lt in E. repeat split; [lra | lra | right; reflexivity].
  - apply ltb_ge in E. repeat split; [lra | lra | left; reflexivity].
Qed.

Lemma min_le (a b : Q) :
  JsNum.min a b <= a /\ JsNum.min a b <= b /\
  (JsNum.min a b = a \/ JsNum.min a b = b).
Proof.
  unfold JsNum.min. destruct (JsNum.ltb b a) eqn:E.
  - apply ltb_lt in E. repeat split; [lra | lra | right; reflexivity].
  - apply ltb_ge in E. repeat split; [lra | lra | left; reflexivity].
Qed.

(** [Math.max(lo, Math.min(hi, x))] and [Math.min(hi, Math.max(lo, x))] lie
    between [lo] and [hi]. *)
Lemma max_min_between (lo hi x : Q) :
  lo <= hi -> between lo hi (JsMath.max lo (JsNum.min hi x)).
Proof.
  intros Hle. unfold between.
  destruct (max_spec lo (JsNum.min hi x)) as (H1 & H2 & [H3|H3]);
    destruct (min_le hi x) as (H4 & H5 & _); rewrite H3 in H1, H2 |- *; lra.
Qed.

Lemma min_max_between (lo hi x : Q) :
  lo <= hi -> between lo hi (JsNum.min hi (JsMath.max lo x)).
Proof.
  intros Hle. unfold between.
  destruct (min_le hi (JsMath.max lo x)) as (H1 & H2 & [H3|H3]);
    destruct (max_spec lo x) as (H4 & H5 & _); rewrite H3 in H1, H2 |- *; lra.
Qed.

(** The render leaves the controls as the handler set them. *)
Lemma commit_controls (fuel : nat) (now : Q) (old new s' : Deck) :
  commit fuel now old new = Some s' ->
  pitch s' = pitch new /\ bend s' = bend new /\ syncRate s' = syncRate new /\
  isReverse s' = isReverse new /\ fxWet s' = fxWet new /\
  activeFX s' = activeFX new /\ bpm s' = bpm new.
Proof.
  unfold commit. destruct (depsChanged old new);
    [|intros [= <-]; repeat split].
  unfold rateEffect.
  destruct (isPlaying new && audioContextRef new);
    [destruct (sourceNodeRef new)|].
  - destruct (SampleClock.normalize _ _ _); [|discriminate].
    simpl. intros [= <-]. repeat split.
  - intros [= <-]. repeat split.
  - intros [= <-]. repeat split.
Qed.

(** With enough fuel the render completes, on one outcome. *)
Lemma commit_total (now : Q) (old new : Deck) :
  exists (fuel0 : nat) (s' : Deck), forall fuel, (fuel0 <= fuel)%nat ->
    commit fuel now old new = Some s'.
Proof.
  unfold commit. destruct (depsChanged old new);
    [|exists O; eexists; intros; reflexivity].
  unfold rateEffect.
  destruct (isPlaying new && audioContextRef new);
    [destruct (sourceNodeRef new)|]; try (exists O; eexists; intros; reflexivity).
  destruct (Qlt_le_dec 0 (duration new)) as [Hd|Hd].
  - destruct (normalize_total (duration new)
                (pauseTimeRef new + (now - startTimeRef new) * lastPlaybackRateRef new)
                Hd) as (n & _ & _ & Hrun).
    eexists _, _. intros fuel Hfuel. rewrite (Hrun fuel Hfuel). simpl. reflexivity.
  - exists O. eexists. intros fuel _. rewrite normalize_no_duration by exact Hd.
    simpl. reflexivity.
Qed.

(** X19.  The sync button of deck A (with a finite non-zero BPM, no bend
    held, not reversed) makes deck A sound at the tempo deck B sounds at:
    [bpm * playbackRate] is then the same on both decks; deck A's pitch is
    reset to 1 and deck B is not touched. *)
Theorem handleSync_matches_tempo (st : State) (now : Q) (a b : Q) :
  bpm (deckA st) = Bpm a -> ~ a == 0 -> bpm (deckB st) = Bpm b ->
  bend (deckA st) == 0 -> isReverse (deckA st) = false ->
  (exists fuel0 : nat, forall fuel, (fuel0 <= fuel)%nat ->
     exists st', handleSync fuel now true st = Some st') /\
  forall fuel st', handleSync fuel now true st = Some st' ->
    deckB st' = deckB st /\
    pitch (deckA st') = 1 /\
    bpm (deckA st') = Bpm a /\
    a * playbackRate (deckA st') == b * playbackRate (deckB st).
Proof.
  intros Ha Hnz Hb Hbend Hrev. unfold handleSync. rewrite Hb. simpl exec.
  unfold dispatch. simpl.
  set (target := b * playbackRate (deckB st)).
  split.
  - destruct (commit_total now (deckA st) (syncToBpm target (deckA st)))
      as (fuel0 & d & Hrun).
    exists fuel0. intros fuel Hfuel. rewrite (Hrun fuel Hfuel).
    simpl. eexists. reflexivity.
  - intros fuel st'.
    destruct (commit fuel now (deckA st) (syncToBpm target (deckA st)))
      as [d|] eqn:Hc; [|discriminate].
    simpl. intros [= <-]. simpl.
    destruct (commit_controls _ _ _ _ _ Hc) as (Hp & Hbe & Hs & Hr & _ & _ & Hbpm).
    assert (Hsync : syncToBpm target (deckA st)
                    = setPitch 1 (setSyncRate (target / a) (deckA st))).
    { unfold syncToBpm. rewrite Ha.
      destruct (Qeq_bool a 0) eqn:E; [apply Qeq_bool_iff in E; contradiction|].
      reflexivity. }
    rewrite Hsync in Hp, Hbe, Hs, Hr, Hbpm. simpl in Hp, Hbe, Hs, Hr, Hbpm.
    split; [reflexivity|]. split; [exact Hp|]. split; [congruence|].
    unfold playbackRate at 1. rewrite Hp, Hbe, Hs, Hr, Hrev, Hbend. field. exact Hnz.
Qed.

Lemma handleSync_matches_tempo_witness :
  (exists fuel0 : nat, forall fuel, (fuel0 <= fuel)%nat ->
     exists st', handleSync fuel 3 true
                   (withDeckB (setSpeed (3 # 2) Deck.initial) App.initial) = Some st') /\
  forall fuel st',
    handleSync fuel 3 true (withDeckB (setSpeed (3 # 2) Deck.initial) App.initial)
      = Some st' ->
    deckB st' = setSpeed (3 # 2) Deck.initial /\
    pitch (deckA st') = 1 /\
    bpm (deckA st') = Bpm 128 /\
    128 * playbackRate (deckA st')
    == 128 * playbackRate (setSpeed (3 # 2) Deck.initial).
Proof.
  apply (handleSync_matches_tempo
           (withDeckB (setSpeed (3 # 2) Deck.initial) App.initial) 3 128 128);
    try reflexivity.
  discriminate.
Defined.

Lemma nudge_between (lo hi step dir v : Q) :
  lo <= hi -> between lo hi (nudge lo hi step dir v).
Proof. intros H. unfold nudge. apply max_min_between. exact H. Qed.

Lemma nudgeFx_result (fuel : nat) (now : Q) (fx : FXType) (dir : Q) (d0 d : Deck) :
  nudgeFx fuel now fx dir d0 = Some d ->
  fxWet d = JsMath.max 0 (JsNum.min 1 (fxWet d0 + (5 # 100) * dir)) /\
  activeFX d = fx /\ pitch d = pitch d0.
Proof.
  unfold nudgeFx, dispatch. simpl. intros Hc.
  destruct (commit_controls _ _ _ _ _ Hc) as (Hp & _ & _ & _ & Hw & Hfx & _).
  simpl in Hp, Hw, Hfx. auto.
Qed.

Lemma setSpeed_result (fuel : nat) (now v : Q) (d0 d : Deck) :
  exec fuel now (SetSpeed v) d0 = Some d ->
  pitch d = v /\ fxWet d = fxWet d0 /\ activeFX d = activeFX d0.
Proof.
  simpl exec. unfold dispatch. simpl. intros Hc.
  destruct (commit_controls _ _ _ _ _ Hc) as (Hp & _ & _ & _ & Hw & Hfx & _).
  simpl in Hp, Hw, Hfx. auto.
Qed.

Lemma nudgeFx_total (now : Q) (fx : FXType) (dir : Q) (d0 : Deck) :
  exists (fuel0 : nat) (d : Deck), forall fuel, (fuel0 <= fuel)%nat ->
    nudgeFx fuel now fx dir d0 = Some d.
Proof. unfold nudgeFx, dispatch. simpl. apply commit_total. Qed.

Lemma setSpeed_total (now v : Q) (d0 : Deck) :
  exists (fuel0 : nat) (d : Deck), forall fuel, (fuel0 <= fuel)%nat ->
    exec fuel now (SetSpeed v) d0 = Some d.
Proof. simpl exec. unfold dispatch. simpl. apply commit_total. Qed.

Ltac bounds_tac :=
  unfold inBounds, bandsBetween in *; simpl;
  intuition (try (apply nudge_between; lra); try (apply max_min_between; lra);
             try (apply min_max_between; lra)).

Ltac fx_branch :=
  let d := fresh "d" in
  let E := fresh "E" in
  let Hw := fresh "Hw" in
  let Hp := fresh "Hp" in
  match goal with
  | |- context [nudgeFx ?f ?n ?fx ?dir ?d0] =>
      destruct (nudgeFx f n fx dir d0) as [d|] eqn:E; [|discriminate];
      simpl; intros [= <-];
      destruct (nudgeFx_result _ _ _ _ _ _ E) as (Hw & _ & Hp);
      split; [|split; reflexivity];
      unfold inBounds, bandsBetween in *; simpl; rewrite ?Hw, ?Hp;
      intuition (try (apply max_min_between; lra))
  end.

Lemma handleUpDown_inBounds (fuel : nat) (now dir : Q) (st st' : State) :
  inBounds st -> handleUpDown fuel now dir st = Some st' ->
  inBounds st' /\ keysPressed st' = keysPressed st /\ crossfader st' = crossfader st.
Proof.
  intros Hr. unfold handleUpDown.
  repeat (match goal with
          | |- context [bool_decide ?P] => destruct (bool_decide P) eqn:?
          end;
          [first [ fx_branch
                 | intros [= <-]; split; [bounds_tac | split; reflexivity] ] | ]).
  destruct (exec fuel now _ (deckB st)) as [d|] eqn:E; [|discriminate].
  simpl. intros [= <-].
  destruct (setSpeed_result _ _ _ _ _ E) as (Hp & Hw & _).
  split; [|split; reflexivity].
  unfold inBounds, bandsBetween in *; simpl; rewrite ?Hw, ?Hp.
  intuition (try (apply min_max_between; lra)).
Qed.

Lemma handleUpDown_total (now dir : Q) (st : State) :
  exists (fuel0 : nat) (st' : State), forall fuel, (fuel0 <= fuel)%nat ->
    handleUpDown fuel now dir st = Some st'.
Proof.
  unfold handleUpDown.
  repeat (match goal with
          | |- context [bool_decide ?P] => destruct (bool_decide P)
          end;
          [first [ match goal with
                   | |- context [nudgeFx _ ?n ?fx ?d ?d0] =>
                       destruct (nudgeFx_total n fx d d0) as (f0 & d1 & Hrun);
                       exists f0; eexists; intros fuel Hfuel;
                       rewrite (Hrun fuel Hfuel); reflexivity
                   end
                 | exists O; eexists; intros; reflexivity ] | ]).
  match goal with
  | |- context [exec _ ?n (SetSpeed ?v) ?d0] =>
      destruct (setSpeed_total n v d0) as (f0 & d1 & Hrun)
  end.
  exists f0. eexists. intros fuel Hfuel. rewrite (Hrun fuel Hfuel). reflexivity.
Qed.

Variable toUpperCase : string -> string.

Lemma initial_inBounds : inBounds App.initial.
Proof. unfold inBounds, bandsBetween, between. simpl. repeat split; lra. Qed.

(** X20.  Whatever key goes down, whichever keys are held and
    whatever the decks are doing, [handleKeyDown] completes and leaves every
    control it can move in its range: crossfader and filters in [[-1, 1]],
    volumes and effect amounts in [[0, 1]], trims in [[0, 2]], the equaliser
    bands in [[-15, 15]] and both pitches in [[0.5, 1.5]]. *)
Theorem keyboard_keeps_bounds (now : Q) (e : KeyEvent) (st : State) :
  inBounds st ->
  (exists (fuel0 : nat) (st' : State), forall fuel, (fuel0 <= fuel)%nat ->
     handleKeyDown toUpperCase fuel now e st = Some st') /\
  forall fuel st',
    handleKeyDown toUpperCase fuel now e st = Some st' -> inBounds st'.
Proof.
  intros Hr. unfold handleKeyDown.
  destruct (String.eqb (targetTag e) "INPUT").
  { split; [exists O, st; intros; reflexivity | intros fuel st' [= <-]; exact Hr]. }
  cbv zeta.
  set (st0 := withKeysPressed ({[toUpperCase (key e)]} ∪ keysPressed st) st).
  set (st1 := if String.eqb (key e) "ArrowLeft"
              then withCrossfader (JsMath.max (-1) (crossfader st0 - (5 # 100))) st0
              else if String.eqb (key e) "ArrowRight"
                   then withCrossfader (JsNum.min 1 (crossfader st0 + (5 # 100))) st0
                   else st0).
  assert (Hr1 : inBounds st1).
  { subst st1. destruct Hr as ([Hlo Hhi] & Hrest).
    destruct (String.eqb (key e) "ArrowLeft").
    - split; [|exact Hrest]. simpl.
      destruct (max_spec (-1) (crossfader st - (5 # 100))) as (H1 & H2 & [H3|H3]);
        rewrite H3 in H1, H2 |- *; split; lra.
    - destruct (String.eqb (key e) "ArrowRight").
      + split; [|exact Hrest]. simpl.
        destruct (min_le 1 (crossfader st + (5 # 100))) as (H1 & H2 & [H3|H3]);
          rewrite H3 in H1, H2 |- *; split; lra.
      + split; [split; assumption | exact Hrest]. }
  clearbody st1. clear st0.
  set (stage2 := fun fuel =>
         if String.eqb (key e) "ArrowUp" || String.eqb (key e) "ArrowDown"
         then handleUpDown fuel now (if String.eqb (key e) "ArrowUp" then 1 else -1) st1
         else Some st1).
  assert (Hstage2 : (exists (fuel0 : nat) (st2 : State),
                       forall fuel, (fuel0 <= fuel)%nat -> stage2 fuel = Some st2) /\
                    forall fuel st2, stage2 fuel = Some st2 -> inBounds st2).
  { subst stage2. simpl.
    destruct (String.eqb (key e) "ArrowUp" || String.eqb (key e) "ArrowDown").
    - split; [apply handleUpDown_total|].
      intros fuel st2 H2. apply (handleUpDown_inBounds _ _ _ _ _ Hr1 H2).
    - split; [exists O, st1; intros; reflexivity | intros fuel st2 [= <-]; exact Hr1]. }
  destruct Hstage2 as [(f2 & st2 & Hrun2) Hb2].
  assert (Hstage3 : forall st2, inBounds st2 ->
            (exists (fuel0 : nat) (st3 : State), forall fuel, (fuel0 <= fuel)%nat ->
               (if String.eqb (code e) "KeyW"
                then d ← exec fuel now
                           (SetSpeed (JsNum.min (15 # 10) (pitch (deckA st2) + (5 # 1000))))
                           (deckA st2);
                     Some (withDeckA d st2)
                else if String.eqb (code e) "KeyS"
                     then d ← exec fuel now
                                (SetSpeed (JsMath.max (5 # 10)
                                             (pitch (deckA st2) - (5 # 1000))))
                                (deckA st2);
                          Some (withDeckA d st2)
                     else Some st2) = Some st3) /\
            forall fuel st3,
               (if String.eqb (code e) "KeyW"
                then d ← exec fuel now
                           (SetSpeed (JsNum.min (15 # 10) (pitch (deckA st2) + (5 # 1000))))
                           (deckA st2);
                     Some (withDeckA d st2)
                else if String.eqb (code e) "KeyS"
                     then d ← exec fuel now
                                (SetSpeed (JsMath.max (5 # 10)
                                             (pitch (deckA st2) - (5 # 1000))))
                                (deckA st2);
                          Some (withDeckA d st2)
                     else Some st2) = Some st3 -> inBounds st3).
  { intros s2 Hs2.
    destruct (String.eqb (code e) "KeyW"); [|destruct (String.eqb (code e) "KeyS")].
    - split.
      + match goal with
        | |- context [exec _ ?n (SetSpeed ?v) ?d0] =>
            destruct (setSpeed_total n v d0) as (f0 & d1 & Hrun)
        end.
        exists f0. eexists. intros fuel Hfuel. rewrite (Hrun fuel Hfuel). reflexivity.
      + intros fuel st3.
        destruct (exec fuel now _ (deckA s2)) as [d|] eqn:E; [|discriminate].
        simpl. intros [= <-].
        destruct (setSpeed_result _ _ _ _ _ E) as (Hp & Hw & _).
        unfold inBounds, bandsBetween, between in *. simpl. rewrite Hp, Hw.
        destruct (min_le (15 # 10) (pitch (deckA s2) + (5 # 1000)))
          as (H1 & H2 & [H3|H3]); rewrite H3 in H1, H2 |- *; intuition lra.
    - split.
      + match goal with
        | |- context [exec _ ?n (SetSpeed ?v) ?d0] =>
            destruct (setSpeed_total n v d0) as (f0 & d1 & Hrun)
        end.
        exists f0. eexists. intros fuel Hfuel. rewrite (Hrun fuel Hfuel). reflexivity.
      + intros fuel st3.
        destruct (exec fuel now _ (deckA s2)) as [d|] eqn:E; [|discriminate].
        simpl. intros [= <-].
        destruct (setSpeed_result _ _ _ _ _ E) as (Hp & Hw & _).
        unfold inBounds, bandsBetween, between in *. simpl. rewrite Hp, Hw.
        destruct (max_spec (5 # 10) (pitch (deckA s2) - (5 # 1000)))
          as (H1 & H2 & [H3|H3]); rewrite H3 in H1, H2 |- *; intuition lra.
    - split; [exists O, s2; intros; reflexivity | intros fuel st3 [= <-]; exact Hs2]. }
  subst stage2. cbv beta in Hrun2, Hb2. split.
  - destruct (Hstage3 st2 (Hb2 _ _ (Hrun2 f2 (le_n _)))) as [(f3 & st3 & Hrun3) _].
    exists (Nat.max f2 f3), st3. intros fuel Hfuel.
    rewrite (Hrun2 fuel ltac:(lia)). simpl mbind.
    apply Hrun3. lia.
  - intros fuel st'.
    match goal with
    | |- mbind _ ?x = _ -> _ => destruct x as [s2|] eqn:E2; [|discriminate]
    end.
    apply (Hstage3 s2 (Hb2 _ _ E2)).
Qed.

(** X21.  With Q held, an Up or Down arrow moves the echo
    amount of deck A by 0.05 (kept in [[0, 1]]) and selects echo there, and
    nothing else changes: not deck B, not a mixer value, not a pitch,
    whichever other modifier keys are held at the same time. *)
Theorem fx_modifier_wins (fuel : nat) (now : Q) (e : KeyEvent) (st st' : State) :
  targetTag e <> "INPUT"%string ->
  key e = "ArrowUp"%string \/ key e = "ArrowDown"%string ->
  code e <> "KeyW"%string -> code e <> "KeyS"%string ->
  "Q"%string ∈ ({[toUpperCase (key e)]} ∪ keysPressed st : gset string) ->
  handleKeyDown toUpperCase fuel now e st = Some st' ->
  let dir := if String.eqb (key e) "ArrowUp" then 1 else -1 in
  activeFX (deckA st') = ECHO /\
  fxWet (deckA st') = JsMath.max 0 (JsNum.min 1 (fxWet (deckA st) + (5 # 100) * dir)) /\
  pitch (deckA st') = pitch (deckA st) /\
  deckB st' = deckB st /\ crossfader st' = crossfader st /\
  volA st' = volA st /\ volB st' = volB st /\
  trimA st' = trimA st /\ trimB st' = trimB st /\
  filterA st' = filterA st /\ filterB st' = filterB st /\
  eqA st' = eqA st /\ eqB st' = eqB st /\
  keysPressed st' = {[toUpperCase (key e)]} ∪ keysPressed st.
Proof.
  intros Htag Hkey Hw Hs Hq. unfold handleKeyDown.
  rewrite (proj2 (String.eqb_neq _ _) Htag).
  rewrite (proj2 (String.eqb_neq _ _) Hw), (proj2 (String.eqb_neq _ _) Hs).
  assert (Hleft : String.eqb (key e) "ArrowLeft" = false)
    by (destruct Hkey as [-> | ->]; reflexivity).
  assert (Hright : String.eqb (key e) "ArrowRight" = false)
    by (destruct Hkey as [-> | ->]; reflexivity).
  assert (Hud : String.eqb (key e) "ArrowUp" || String.eqb (key e) "ArrowDown" = true)
    by (destruct Hkey as [-> | ->]; reflexivity).
  rewrite Hleft, Hright, Hud. cbv zeta.
  unfold handleUpDown. simpl keysPressed.
  rewrite (bool_decide_eq_true_2 _ Hq).
  destruct (nudgeFx fuel now ECHO _ _) as [d|] eqn:E; [|discriminate].
  simpl. intros [= <-]. simpl.
  destruct (nudgeFx_result _ _ _ _ _ _ E) as (Hwet & Hfx & Hp).
  simpl in Hwet, Hp.
  split; [exact Hfx|]. split; [exact Hwet|]. split; [exact Hp|].
  repeat split.
Qed.

End AppFacts.

Lemma keyboard_keeps_bounds_witness :
  (exists (fuel0 : nat) (st' : App.State), forall fuel, (fuel0 <= fuel)%nat ->
     App.handleKeyDown (fun k => k) fuel 4 (App.mkKey "ArrowUp" "ArrowUp" "BODY")
       App.initial = Some st') /\
  forall fuel st',
    App.handleKeyDown (fun k => k) fuel 4 (App.mkKey "ArrowUp" "ArrowUp" "BODY")
      App.initial = Some st' -> App.inBounds st'.
Proof.
  apply (keyboard_keeps_bounds (fun k => k) 4 (App.mkKey "ArrowUp" "ArrowUp" "BODY")
           App.initial).
  apply initial_inBounds.
Defined.

Lemma fx_modifier_wins_witness :
  exists st' : App.State,
    App.handleKeyDown (fun k => k) 1 4 (App.mkKey "ArrowUp" "ArrowUp" "BODY")
      (App.withKeysPressed {["Q"%string; "K"%string]} App.initial) = Some st' /\
    Deck.activeFX (App.deckA st') = Deck.ECHO /\
    Deck.fxWet (App.deckA st') == 5 # 100 /\
    App.volB st' = App.volB App.initial.
Proof.
  destruct (App.handleKeyDown (fun k => k) 1 4 (App.mkKey "ArrowUp" "ArrowUp" "BODY")
              (App.withKeysPressed {["Q"%string; "K"%string]} App.initial))
    as [st'|] eqn:E; [|vm_compute in E; discriminate].
  exists st'. split; [reflexivity|].
  destruct (fx_modifier_wins (fun k => k) 1 4 (App.mkKey "ArrowUp" "ArrowUp" "BODY")
              (App.withKeysPressed {["Q"%string; "K"%string]} App.initial) st')
    as (Hfx & Hwet & _ & _ & _ & _ & HvolB & _); try discriminate.
  - left. reflexivity.
  - simpl. set_solver.
  - exact E.
  - split; [exact Hfx|]. split; [rewrite Hwet; reflexivity | exact HvolB].
Defined.

(* ===================================================================== *)
(** ** Dragging a slider or a knob                                         *)
(* ===================================================================== *)

Section DragFacts.
Import Controls.

Lemma fraction_spec (relative size : Q) :
  0 < size ->
  0 <= fraction relative size /\ fraction relative size <= 1 /\
  (0 <= relative -> relative <= size -> fraction relative size == relative / size).
Proof.
  intros Hs. unfold fraction.
  destruct (JsNum.ltb (relative / size) 0) eqn:E0.
  - apply ltb_lt in E0.
    destruct (JsNum.ltb 1 0) eqn:E1; [apply ltb_lt in E1; lra|].
    split; [lra|]. split; [lra|]. intros Hr _.
    assert (0 <= relative / size) by (apply Qle_shift_div_l; lra). lra.
  - apply ltb_ge in E0.
    destruct (JsNum.ltb 1 (relative / size)) eqn:E1.
    + apply ltb_lt in E1. split; [lra|]. split; [lra|]. intros _ Hr.
      assert (relative / size <= 1) by (apply Qle_shift_div_r; lra). lra.
    + apply ltb_ge in E1. split; [lra|]. split; [lra|]. intros _ _. reflexivity.
Qed.

Lemma clamp_closer (lo hi r t : Q) :
  lo <= t -> t <= hi ->
  let v := JsNum.min (JsMath.max r lo) hi in
  lo <= v /\ v <= hi /\ Qabs (v - t) <= Qabs (r - t).
Proof.
  intros Hlo Hhi v. subst v. unfold JsNum.min, JsMath.max.
  destruct (JsNum.ltb r lo) eqn:E1; [apply ltb_lt in E1|apply ltb_ge in E1].
  - destruct (JsNum.ltb hi lo) eqn:E2; [apply ltb_lt in E2; lra|apply ltb_ge in E2].
    split; [lra|]. split; [lra|].
    apply Qabs_Qle_condition.
    assert (Qabs (r - t) == -(r - t)) by (apply Qabs_neg; lra). lra.
  - destruct (JsNum.ltb hi r) eqn:E2; [apply ltb_lt in E2|apply ltb_ge in E2].
    + split; [lra|]. split; [lra|].
      apply Qabs_Qle_condition.
      assert (Qabs (r - t) == r - t) by (apply Qabs_pos; lra). lra.
    + split; [lra|]. split; [lra|]. lra.
Qed.

(** X22.  On an element of positive extent and for [min <= max], the value
    a drag reports lies in [[min, max]]; it is within half a step of the point
    of the range at the pointer's fraction of the element (the fraction
    clamped to [[0, 1]]), and is that point when the step is not positive. *)
Theorem drag_value (relative size min max step : Q) :
  0 < size -> min <= max ->
  let p := fraction relative size in
  let target := min + p * (max - min) in
  let v := calculate relative size min max step in
  (0 <= relative -> relative <= size -> p == relative / size) /\
  (relative <= 0 -> p == 0) /\ (size <= relative -> p == 1) /\
  min <= v /\ v <= max /\
  (0 < step -> Qabs (v - target) <= step / 2) /\
  (step <= 0 -> v == target).
Proof.
  intros Hs Hmm p target v.
  destruct (fraction_spec relative size Hs) as (Hp0 & Hp1 & Hp).
  fold p in Hp0, Hp1, Hp.
  assert (Ht : min <= target /\ target <= max).
  { subst target. split; nra. }
  destruct Ht as [Ht0 Ht1].
  split; [exact Hp|].
  split.
  { intros Hr. subst p. unfold fraction.
    assert (relative / size <= 0).
    { apply Qle_shift_div_r; lra. }
    destruct (JsNum.ltb (relative / size) 0) eqn:E0.
    - destruct (JsNum.ltb 1 0) eqn:E1; [apply ltb_lt in E1; lra|reflexivity].
    - apply ltb_ge in E0.
      destruct (JsNum.ltb 1 (relative / size)) eqn:E1; [apply ltb_lt in E1; lra|lra]. }
  split.
  { intros Hr. subst p. unfold fraction.
    assert (1 <= relative / size).
    { apply Qle_shift_div_l; lra. }
    destruct (JsNum.ltb (relative / size) 0) eqn:E0; [apply ltb_lt in E0; lra|].
    destruct (JsNum.ltb 1 (relative / size)) eqn:E1; [reflexivity|].
    apply ltb_ge in E1. lra. }
  subst v. unfold calculate. fold p. fold target.
  destruct (JsNum.ltb 0 step) eqn:Est; [apply ltb_lt in Est|apply ltb_ge in Est].
  - destruct (clamp_closer min max (inject_Z (JsNum.round (target / step)) * step)
                target Ht0 Ht1) as (H1 & H2 & H3).
    cbv zeta in H1, H2, H3.
    split; [exact H1|]. split; [exact H2|]. split; [|intros; lra].
    intros _. eapply Qle_trans; [exact H3|].
    destruct (round_nearest (target / step)) as [Hlo Hhi].
    assert (Hts : target / step * step == target) by (field; lra).
    set (k := inject_Z (JsNum.round (target / step))) in *.
    set (q := target / step) in *.
    apply Qabs_Qle_condition.
    assert (E : step / 2 == step * (1 # 2)) by (field).
    split; nra.
  - destruct (clamp_closer min max target target Ht0 Ht1) as (H1 & H2 & H3).
    cbv zeta in H1, H2, H3.
    split; [exact H1|]. split; [exact H2|]. split; [intros; lra|].
    intros _.
    assert (Qabs (target - target) == 0).
    { assert (target - target == 0) by ring. rewrite H. reflexivity. }
    assert (Qabs (JsNum.min (JsMath.max target min) max - target) <= 0) by lra.
    apply Qabs_Qle_condition in H0. lra.
Qed.

End DragFacts.

(* ===================================================================== *)
(** ** The time display                                                    *)
(* ===================================================================== *)

Section DisplayFacts.
Import Deck DeckView.





End DisplayFacts.

(* ===================================================================== *)
(** ** Scrubbing the waveform                                              *)
(* ===================================================================== *)

Section ScrubFacts.
Import WebAudio Deck Transport App DeckView.

(** The render after a handler that leaves the deck paused needs no fuel. *)
Lemma commit_paused (fuel : nat) (now : Q) (old new : Deck) :
  isPlaying new = false ->
  commit fuel now old new =
    Some (if depsChanged old new
          then setLastPlaybackRateRef (playbackRate new) new else new).
Proof.
  intros Hp. unfold commit, rateEffect. rewrite Hp. simpl.
  destruct (depsChanged old new); reflexivity.
Qed.

Lemma seek_paused (now time : Q) (s : Deck) :
  isPlaying s = false ->
  exists s' : Deck,
    (forall fuel, exec fuel now (Seek time) s = Some s') /\
    currentTime s' = time /\ pauseTimeRef s' = time /\ isPlaying s' = false /\
    audioContextRef s' = audioContextRef s /\ audioBuffer s' = audioBuffer s /\
    duration s' = duration s.
Proof.
  intros Hp.
  set (new := setCurrentTime time (setPauseTimeRef time s)).
  exists (if depsChanged s new
          then setLastPlaybackRateRef (playbackRate new) new else new).
  split.
  - intros fuel. simpl. unfold dispatch, seek. rewrite Hp. simpl.
    apply commit_paused. exact Hp.
  - destruct (depsChanged s new); repeat split; simpl; try exact Hp.
Qed.

Lemma scrub_target (d cur delta : Q) :
  0 < d ->
  let t := JsMath.max 0 (JsNum.min d (cur - delta)) in
  between 0 d t /\
  (0 <= cur - delta -> cur - delta <= d -> t == cur - delta) /\
  (cur - delta <= 0 -> t == 0) /\ (d <= cur - delta -> t == d).
Proof.
  intros Hd t. subst t. unfold JsMath.max, JsNum.min, between.
  destruct (JsNum.ltb (cur - delta) d) eqn:E1;
    [apply ltb_lt in E1|apply ltb_ge in E1].
  - destruct (JsNum.ltb 0 (cur - delta)) eqn:E2;
      [apply ltb_lt in E2|apply ltb_ge in E2];
      repeat split; intros; lra.
  - destruct (JsNum.ltb 0 d) eqn:E2;
      [apply ltb_lt in E2|apply ltb_ge in E2];
      repeat split; intros; lra.
Qed.

Lemma move_paused (now clientX canvasWidth : Q) (r : Scrub) (s : Deck) :
  isScrubbingRef r = true -> isPlaying s = false -> 0 < duration s ->
  let t := JsMath.max 0 (JsNum.min (duration s)
             (currentTime s - (clientX - lastXRef r) / (canvasWidth / 4))) in
  exists s' : Deck,
    (forall fuel,
       handleScrubMove fuel now clientX canvasWidth (r, s)
       = Some (mkScrub true (wasPlayingRef r) clientX, s')) /\
    currentTime s' = t /\ pauseTimeRef s' = t /\ isPlaying s' = false /\
    audioContextRef s' = audioContextRef s /\ audioBuffer s' = audioBuffer s /\
    duration s' = duration s.
Proof.
  intros Hscrub Hp Hd t.
  destruct (seek_paused now t s Hp) as (s' & Hrun & Hrest).
  exists s'. split; [|exact Hrest].
  intros fuel. unfold handleScrubMove. rewrite Hscrub. simpl negb.
  rewrite orb_false_l.
  destruct (Qeq_bool (duration s) 0) eqn:E;
    [apply Qeq_bool_eq in E; lra|].
  cbv zeta. fold t. rewrite (Hrun fuel). reflexivity.
Qed.

(** X24.  A pointer move over the waveform of a paused deck being
    scrubbed completes and leaves it paused; dragging by [deltaX] pixels on
    a canvas [canvasWidth] wide moves the playhead back by
    [4 * deltaX / canvasWidth] seconds, stopped at 0 and at the duration:
    the playhead can come to rest at the duration itself. *)
Theorem scrub_move_on_track (now clientX canvasWidth : Q) (r : Scrub) (s : Deck) :
  isScrubbingRef r = true -> isPlaying s = false ->
  0 < duration s -> 0 < canvasWidth ->
  let wanted := currentTime s - (clientX - lastXRef r) * 4 / canvasWidth in
  exists (r' : Scrub) (s' : Deck),
    (forall fuel,
       handleScrubMove fuel now clientX canvasWidth (r, s) = Some (r', s')) /\
    lastXRef r' = clientX /\ isScrubbingRef r' = true /\
    isPlaying s' = false /\ pauseTimeRef s' = currentTime s' /\
    between 0 (duration s) (currentTime s') /\
    (0 <= wanted -> wanted <= duration s -> currentTime s' == wanted) /\
    (wanted <= 0 -> currentTime s' == 0) /\
    (duration s <= wanted -> currentTime s' == duration s).
Proof.
  intros Hscrub Hp Hd Hw wanted.
  destruct (move_paused now clientX canvasWidth r s Hscrub Hp Hd)
    as (s' & Hrun & Hcur & Hpause & Hp' & _).
  exists (mkScrub true (wasPlayingRef r) clientX), s'.
  split; [exact Hrun|].
  split; [reflexivity|]. split; [reflexivity|]. split; [exact Hp'|].
  split; [congruence|]. rewrite Hcur.
  set (delta := (clientX - lastXRef r) / (canvasWidth / 4)).
  assert (Hwd : currentTime s - delta == wanted).
  { subst delta wanted. field. lra. }
  destruct (scrub_target (duration s) (currentTime s) delta Hd)
    as (Hb & Hin & Hlo & Hhi).
  split; [exact Hb|].
  split; [intros; rewrite <- Hwd; apply Hin; lra|].
  split; [intros; apply Hlo; lra|intros; apply Hhi; lra].
Qed.

Lemma gesture_app (fuel : nat) (w : Q) (a b : list (Q * Pointer)) (v : Scrub * Deck) :
  gesture fuel w (a ++ b) v = (v' ← gesture fuel w a v; gesture fuel w b v').
Proof.
  revert v. induction a as [|[now e] a IH]; intros v; simpl; [reflexivity|].
  destruct (pointer fuel now w e v) as [v1|]; simpl; [apply IH|reflexivity].
Qed.

Lemma drag_held (s : Deck) (P : bool) (w : Q) (moves : list (Q * Q)) (v : Scrub * Deck) :
  0 < duration s -> held s P v ->
  exists v' : Scrub * Deck,
    (forall fuel, gesture fuel w (drag moves) v = Some v') /\ held s P v'.
Proof.
  intros Hd. revert v. induction moves as [|[now x] moves IH]; intros [r d] Hh.
  - exists (r, d). split; [reflexivity|exact Hh].
  - destruct Hh as (H1 & H2 & H3 & H4 & H5 & H6 & H7).
    simpl in H1, H2, H3, H4, H5, H6, H7.
    assert (Hd' : 0 < duration d) by (rewrite H6; exact Hd).
    destruct (move_paused now x w r d H1 H3 Hd')
      as (d' & Hrun & _ & Hpause & Hp' & Hc' & Hb' & Hdur').
    destruct (IH (mkScrub true (wasPlayingRef r) x, d')) as (v' & Hrest & Hh').
    { unfold held. simpl.
      split; [reflexivity|]. split; [exact H2|]. split; [exact Hp'|].
      split; [congruence|]. split; [congruence|]. split; [congruence|].
      rewrite Hpause, H6.
      apply (scrub_target (duration s) (currentTime d)
               ((x - lastXRef r) / (w / 4)) Hd). }
    exists v'. split; [|exact Hh'].
    intros fuel.
    change (gesture fuel w (drag ((now, x) :: moves)) (r, d))
      with (v1 ← handleScrubMove fuel now x w (r, d); gesture fuel w (drag moves) v1).
    rewrite (Hrun fuel). apply Hrest.
Qed.

(** X25.  Pressing on the waveform, dragging through any points
    and releasing completes, ends the gesture and leaves the deck playing
    if it played before and paused if it was paused, on the same track and
    with its anchor between 0 and the duration. *)
Theorem scrub_gesture_resumes (s : Deck) (canvasWidth t0 x0 t1 : Q)
    (moves : list (Q * Q)) :
  wellFormed s -> ranged s -> 0 < duration s -> 0 < canvasWidth ->
  exists (fuel0 : nat) (r' : Scrub) (s' : Deck),
    (forall fuel, (fuel0 <= fuel)%nat ->
       gesture fuel canvasWidth
         ((t0, PointerDown x0) :: drag moves ++ [(t1, PointerUp)]) (idle, s)
       = Some (r', s')) /\
    isScrubbingRef r' = false /\ isPlaying s' = isPlaying s /\
    duration s' = duration s /\ between 0 (duration s) (pauseTimeRef s').
Proof.
  intros Hwf Hr Hd Hw.
  assert (Hz : Qeq_bool (duration s) 0 = false).
  { destruct (Qeq_bool (duration s) 0) eqn:E; [apply Qeq_bool_eq in E; lra|reflexivity]. }
  (* pointer-down *)
  assert (Hdown : exists (f1 : nat) (v1 : Scrub * Deck),
            (forall fuel, (f1 <= fuel)%nat ->
               handleScrubStart fuel t0 x0 (idle, s) = Some v1) /\
            held s (isPlaying s) v1).
  { destruct (isPlaying s) eqn:Hp.
    - destruct Hwf as (Hctx & Hplay & _).
      destruct (Hplay Hp) as (Hbuf & [src Hsrc] & _).
      destruct (normalize_total (duration s)
                  (pauseTimeRef s + (t0 - startTimeRef s) * playbackRate s) Hd)
        as (p & Hrange & _ & Hrun).
      set (paused := setIsPlaying false (setPauseTimeRef p (setSourceNodeRef None s))).
      set (s1 := if depsChanged s paused
                 then setLastPlaybackRateRef (playbackRate paused) paused else paused).
      eexists _, (mkScrub true true x0, s1). split.
      + intros fuel Hfuel. unfold handleScrubStart. rewrite Hz, Hp.
        simpl. unfold dispatch, pause. rewrite Hsrc, Hp, Hctx. simpl.
        rewrite (Hrun fuel Hfuel). simpl. fold paused.
        rewrite (commit_paused fuel t0 s paused eq_refl). reflexivity.
      + unfold held, between. subst s1.
        destruct (depsChanged s paused); simpl; repeat split; lra.
    - exists O, (mkScrub true false x0, s). split.
      + intros fuel _. unfold handleScrubStart. rewrite Hz, Hp. reflexivity.
      + destruct (Hr Hd) as ([Hlo Hhi] & _).
        unfold held, between. simpl. repeat split; try assumption; lra. }
  destruct Hdown as (f1 & v1 & Hstart & Hheld1).
  destruct (drag_held s (isPlaying s) canvasWidth moves v1 Hd Hheld1)
    as ([r2 d2] & Hmoves & Hheld2).
  destruct Hheld2 as (H1 & H2 & H3 & H4 & H5 & H6 & H7).
  simpl in H1, H2, H3, H4, H5, H6, H7.
  (* pointer-up *)
  assert (Hup : exists (f2 : nat) (s' : Deck),
            (forall fuel, (f2 <= fuel)%nat ->
               handleScrubEnd fuel t1 (r2, d2)
               = Some (mkScrub false (wasPlayingRef r2) (lastXRef r2), s')) /\
            isPlaying s' = isPlaying s /\ duration s' = duration s /\
            between 0 (duration s) (pauseTimeRef s')).
  { destruct (isPlaying s) eqn:Hp.
    - destruct Hwf as (Hctx & Hplay & _).
      destruct (Hplay Hp) as ([buf Hbuf] & _ & _).
      rewrite Hctx in H4. rewrite Hbuf in H5.
      destruct (commit_total t1 d2 (play t1 d2)) as (f2 & s' & Hc).
      exists f2, s'. split.
      + intros fuel Hfuel. unfold handleScrubEnd. rewrite H1, H2. simpl.
        unfold dispatch. simpl. rewrite (Hc fuel Hfuel). reflexivity.
      + specialize (Hc f2 (le_n _)). revert Hc.
        unfold play. rewrite H4, H5.
        set (new := setIsPlaying true _).
        unfold commit.
        destruct (depsChanged d2 new).
        * unfold rateEffect. subst new. simpl. rewrite H4. simpl.
          destruct (SampleClock.normalize _ _ _) as [n|] eqn:En;
            [|simpl; intros Hx; discriminate Hx].
          simpl. intros [= <-]. simpl.
          split; [reflexivity|]. split; [exact H6|].
          rewrite H6 in En.
          destruct (normalize_result _ _ _ _ Hd En) as [[Hlo Hhi] _].
          unfold between. lra.
        * intros [= <-]. subst new. simpl.
          split; [reflexivity|]. split; [exact H6|exact H7].
    - exists O, d2. split.
      + intros fuel _. unfold handleScrubEnd. rewrite H1, H2. reflexivity.
      + split; [exact H3|]. split; [exact H6|exact H7]. }
  destruct Hup as (f2 & s' & Hend & Hfields).
  exists (Nat.max f1 f2), (mkScrub false (wasPlayingRef r2) (lastXRef r2)), s'.
  split; [|split; [reflexivity|exact Hfields]].
  intros fuel Hfuel.
  change (gesture fuel canvasWidth ((t0, PointerDown x0) :: drag moves ++ [(t1, PointerUp)]) (idle, s))
    with (v' ← handleScrubStart fuel t0 x0 (idle, s);
          gesture fuel canvasWidth (drag moves ++ [(t1, PointerUp)]) v').
  rewrite (Hstart fuel) by lia. simpl.
  rewrite gesture_app, (Hmoves fuel).
  change ((v' ← handleScrubEnd fuel t1 (r2, d2); Some v')
          = Some (mkScrub false (wasPlayingRef r2) (lastXRef r2), s')).
  rewrite (Hend fuel) by lia. reflexivity.
Qed.

End ScrubFacts.

Lemma drag_value_witness :
  let p := Controls.fraction 50 200 in
  let target := (92 # 100) + p * ((108 # 100) - (92 # 100)) in
  let v := Controls.calculate 50 200 (92 # 100) (108 # 100) (5 # 10000) in
  (0 <= 50 -> 50 <= 200 -> p == 50 / 200) /\
  (50 <= 0 -> p == 0) /\ (200 <= 50 -> p == 1) /\
  (92 # 100) <= v /\ v <= (108 # 100) /\
  (0 < (5 # 10000) -> Qabs (v - target) <= (5 # 10000) / 2) /\
  ((5 # 10000) <= 0 -> v == target).
Proof.
  apply (drag_value 50 200 (92 # 100) (108 # 100) (5 # 10000)); lra.
Defined.


Lemma scrub_move_on_track_witness :
  exists (r' : DeckView.Scrub) (s' : Deck.Deck),
    (forall fuel,
       DeckView.handleScrubMove fuel 7 50 800
         (DeckView.mkScrub true false 100, Session.pausedAtZero) = Some (r', s')) /\
    Deck.currentTime s' == 1 # 4 /\ Deck.pauseTimeRef s' = Deck.currentTime s' /\
    Deck.isPlaying s' = false.
Proof.
  destruct (scrub_move_on_track 7 50 800 (DeckView.mkScrub true false 100)
              Session.pausedAtZero)
    as (r' & s' & Hrun & _ & _ & Hp & Hpause & _ & Hin & _);
    [reflexivity | reflexivity | reflexivity | reflexivity |].
  exists r', s'. split; [exact Hrun|].
  split; [|split; [exact Hpause|exact Hp]].
  rewrite Hin; [reflexivity | discriminate | discriminate].
Defined.

Lemma scrub_gesture_resumes_witness :
  exists (fuel0 : nat) (r' : DeckView.Scrub) (s' : Deck.Deck),
    (forall fuel, (fuel0 <= fuel)%nat ->
       DeckView.gesture fuel 800
         ((10, DeckView.PointerDown 100)
            :: DeckView.drag [(11, 50); (12, 400)] ++ [(13, DeckView.PointerUp)])
         (DeckView.idle, Session.playingFromZero)
       = Some (r', s')) /\
    DeckView.isScrubbingRef r' = false /\
    Deck.isPlaying s' = Deck.isPlaying Session.playingFromZero /\
    Deck.duration s' = Deck.duration Session.playingFromZero /\
    App.between 0 (Deck.duration Session.playingFromZero) (Deck.pauseTimeRef s').
Proof.
  apply (scrub_gesture_resumes Session.playingFromZero 800 10 100 13
           [(11, 50); (12, 400)]).
  - unfold Transport.wellFormed. simpl.
    split; [reflexivity|].
    split; [intros _; split; [eauto|split; [eauto|reflexivity]]|].
    split; [intros buf [= <-]; split; reflexivity|].
    split; [reflexivity|lia].
  - intros _. simpl. unfold Transport.within.
    repeat split; try discriminate; try reflexivity.
    repeat constructor.
  - reflexivity.
  - reflexivity.
Defined.

(* ===================================================================== *)
(** ** The crossfader curves and the filter sweep                          *)
(* ===================================================================== *)

Section MixerFacts.
Import Reals Qreals Mixer.
Local Open Scope R_scope.

Lemma quarter_turn (x : R) :
  0 <= x <= 1 -> 0 <= cos (x * (5 / 10) * PI) <= 1.
Proof.
  intros [H0 H1]. pose proof PI_RGT_0 as Hpi. split.
  - apply cos_ge_0; Lra.nra.
  - apply COS_bound.
Qed.

Lemma Rmin_unit (y : R) : 0 <= y -> 0 <= Rmin 1 y <= 1.
Proof.
  intros Hy. unfold Rmin. destruct (Rle_dec 1 y); Lra.lra.
Qed.

Lemma curveGains_range (curve : Curve) (crossfader : R) :
  -1 <= crossfader <= 1 ->
  0 <= fst (curveGains curve crossfader) <= 1 /\
  0 <= snd (curveGains curve crossfader) <= 1.
Proof.
  intros [Hlo Hhi]. unfold curveGains.
  set (x := (crossfader + 1) / 2).
  assert (Hx : 0 <= x <= 1) by (subst x; Lra.lra).
  destruct curve; simpl.
  - Lra.lra.
  - split; apply quarter_turn; Lra.lra.
  - split; apply Rmin_unit; Lra.nra.
Qed.

(** X26.  For a crossfader between -1 and 1 both gains lie between
    0 and 1 on every curve; mirroring the crossfader swaps them; at -1 deck
    A is at 1 and deck B at 0.  The linear gains add up to 1, the squares of
    the smooth gains add up to 1 (constant power), and on the cut curve
    both decks are at full gain while the crossfader is within 0.92 of the
    centre. *)
Theorem crossfader_law (curve : Curve) (crossfader : R) :
  -1 <= crossfader <= 1 ->
  let gainA := fst (curveGains curve crossfader) in
  let gainB := snd (curveGains curve crossfader) in
  0 <= gainA <= 1 /\ 0 <= gainB <= 1 /\
  curveGains curve (- crossfader) = (gainB, gainA) /\
  (crossfader = -1 -> gainA = 1 /\ gainB = 0) /\
  match curve with
  | LINEAR => gainA + gainB = 1
  | SMOOTH => gainA * gainA + gainB * gainB = 1
  | CUT => Rabs crossfader <= 92 / 100 -> gainA = 1 /\ gainB = 1
  end.
Proof.
  intros Hc gainA gainB.
  destruct (curveGains_range curve crossfader Hc) as [HA HB].
  fold gainA in HA. fold gainB in HB.
  split; [exact HA|]. split; [exact HB|].
  subst gainA gainB. unfold curveGains.
  set (x := (crossfader + 1) / 2).
  assert (Hmirror : (- crossfader + 1) / 2 = 1 - x) by (subst x; Lra.lra).
  rewrite Hmirror.
  assert (Hback : 1 - (1 - x) = x) by Lra.lra.
  destruct curve; simpl.
  - split; [rewrite Hback; reflexivity|].
    split; [intros ->; subst x; split; Lra.lra|Lra.lra].
  - split; [rewrite Hback; reflexivity|].
    split.
    + intros ->. subst x.
      replace ((-1 + 1) / 2 * (5 / 10) * PI) with 0 by Lra.lra.
      replace ((1 - (-1 + 1) / 2) * (5 / 10) * PI) with (PI / 2) by Lra.lra.
      split; [apply cos_0|apply cos_PI2].
    + replace ((1 - x) * (5 / 10) * PI) with (PI / 2 - x * (5 / 10) * PI) by Lra.lra.
      rewrite cos_shift.
      pose proof (sin2_cos2 (x * (5 / 10) * PI)) as H. unfold Rsqr in H. Lra.lra.
  - split; [rewrite Hback; reflexivity|].
    split.
    + intros ->. subst x. unfold Rmin.
      destruct (Rle_dec 1 ((1 - (-1 + 1) / 2) * 25)); [|Lra.lra].
      destruct (Rle_dec 1 ((-1 + 1) / 2 * 25)); Lra.lra.
    + intros Habs.
      assert (Hc' : -(92 / 100) <= crossfader <= 92 / 100).
      { revert Habs. unfold Rabs. destruct (Rcase_abs crossfader); intros; Lra.lra. }
      unfold Rmin.
      destruct (Rle_dec 1 ((1 - x) * 25)); [|subst x; Lra.lra].
      destruct (Rle_dec 1 (x * 25)); [|subst x; Lra.lra].
      split; reflexivity.
Qed.

Lemma Q2R_between (lo hi v : Q) :
  App.between lo hi v -> Q2R lo <= Q2R v <= Q2R hi.
Proof. intros [H1 H2]. split; apply Qle_Rle; assumption. Qed.

(** X27.  For values of the crossfader and of the two volumes
    within their bounds, the targets given to the two channel gains lie
    between 0 and 1, on every curve. *)
Theorem mixerGains_bounded (curve : Curve) (st : App.State) :
  App.inBounds st ->
  0 <= fst (mixerGains curve st) <= 1 /\ 0 <= snd (mixerGains curve st) <= 1.
Proof.
  intros (Hx & HA & HB & _).
  apply Q2R_between in Hx, HA, HB.
  assert (E1 : Q2R (-1) = -1) by (unfold Q2R; simpl; Lra.lra).
  assert (E2 : Q2R 1 = 1) by (unfold Q2R; simpl; Lra.lra).
  assert (E3 : Q2R 0 = 0) by (unfold Q2R; simpl; Lra.lra).
  rewrite E1, E2 in Hx. rewrite E2, E3 in HA, HB.
  unfold mixerGains, channelGains.
  destruct (curveGains_range curve (Q2R (App.crossfader st)) Hx) as [H1 H2].
  destruct (curveGains curve (Q2R (App.crossfader st))) as [gA gB].
  simpl in *. split; split; Lra.nra.
Qed.

Lemma sweep_factor (e n : R) :
  1 < e -> 0 <= n <= 1 -> 1 <= Rpower e n <= e.
Proof.
  intros He [H0 H1]. split.
  - rewrite <- (Rpower_O e) by Lra.lra. apply Rle_Rpower; Lra.lra.
  - rewrite <- (Rpower_1 e) at 2 by Lra.lra. apply Rle_Rpower; Lra.lra.
Qed.

(** X28.  With its nodes present, a filter value between -1 and 1 sets
    a low-pass target between 100 and 22050 Hz and a high-pass target
    between 0 and 10000 Hz: below 0 the high-pass is at 0, from 0 on the
    low-pass is at 22050 and the high-pass at 10 Hz or more (10 Hz at the
    centre); the ends give 100 Hz and 10000 Hz.  Neither target decreases
    when the value grows. *)
Theorem filter_sweep (val val' : R) (nodes nodes' : FilterTargets) :
  -1 <= val -> val <= val' -> val' <= 1 ->
  exists t t' : FilterTargets,
    setFilter val (Some nodes) = Some t /\
    setFilter val' (Some nodes') = Some t' /\
    100 <= lowPass t <= 22050 /\ 0 <= highPass t <= 10000 /\
    (val < 0 -> highPass t = 0) /\
    (0 <= val -> lowPass t = 22050 /\ 10 <= highPass t) /\
    (val = -1 -> lowPass t = 100) /\ (val = 0 -> highPass t = 10) /\
    (val = 1 -> highPass t = 10000) /\
    lowPass t <= lowPass t' /\ highPass t <= highPass t'.
Proof.
  intros Hlo Hle Hhi. unfold setFilter.
  assert (Hl : forall v, -1 <= v -> v < 0 ->
            100 <= 100 * Rpower (22050 / 100) (1 + v) <= 22050).
  { intros v H1 H2.
    destruct (sweep_factor (22050 / 100) (1 + v)) as [Ha Hb]; Lra.lra. }
  assert (Hh : forall v, 0 <= v -> v <= 1 ->
            10 <= 10 * Rpower (10000 / 10) v <= 10000).
  { intros v H1 H2.
    destruct (sweep_factor (10000 / 10) v) as [Ha Hb]; Lra.lra. }
  destruct (Rlt_dec val 0) as [Hneg|Hpos];
    destruct (Rlt_dec val' 0) as [Hneg'|Hpos'];
    eexists _, _; (split; [reflexivity|]); (split; [reflexivity|]); simpl.
  - pose proof (Hl val Hlo Hneg) as H1.
    assert (Hm : Rpower (22050 / 100) (1 + val) <= Rpower (22050 / 100) (1 + val'))
      by (apply Rle_Rpower; Lra.lra).
    repeat split; try Lra.lra.
    intros ->. replace (1 + -1) with 0 by Lra.lra.
    rewrite Rpower_O by Lra.lra. Lra.lra.
  - pose proof (Hl val Hlo Hneg) as H1.
    pose proof (Hh val' ltac:(Lra.lra) Hhi) as H2.
    repeat split; try Lra.lra.
    intros ->. replace (1 + -1) with 0 by Lra.lra.
    rewrite Rpower_O by Lra.lra. Lra.lra.
  - Lra.lra.
  - pose proof (Hh val ltac:(Lra.lra) ltac:(Lra.lra)) as H1.
    assert (Hm : Rpower (10000 / 10) val <= Rpower (10000 / 10) val')
      by (apply Rle_Rpower; Lra.lra).
    repeat split; try Lra.lra.
    + intros ->. rewrite Rpower_O by Lra.lra. Lra.lra.
    + intros ->. rewrite Rpower_1 by Lra.lra. Lra.lra.
Qed.

Lemma crossfader_law_witness :
  let gainA := fst (curveGains SMOOTH 0) in
  let gainB := snd (curveGains SMOOTH 0) in
  0 <= gainA <= 1 /\ 0 <= gainB <= 1 /\
  curveGains SMOOTH (- 0) = (gainB, gainA) /\
  (0 = -1 -> gainA = 1 /\ gainB = 0) /\
  gainA * gainA + gainB * gainB = 1.
Proof.
  apply (crossfader_law SMOOTH 0). split; Lra.lra.
Defined.

Lemma mixerGains_bounded_witness :
  0 <= fst (mixerGains CUT App.initial) <= 1 /\
  0 <= snd (mixerGains CUT App.initial) <= 1.
Proof.
  apply (mixerGains_bounded CUT App.initial).
  unfold App.inBounds, App.bandsBetween, App.between. simpl.
  repeat split; discriminate.
Defined.

Lemma filter_sweep_witness :
  exists t t' : FilterTargets,
    setFilter (-1 / 2) (Some (mkTargets 22050 0)) = Some t /\
    setFilter (1 / 2) (Some (mkTargets 22050 0)) = Some t' /\
    100 <= lowPass t <= 22050 /\ 0 <= highPass t <= 10000 /\
    highPass t = 0 /\ lowPass t <= lowPass t' /\ highPass t <= highPass t'.
Proof.
  destruct (filter_sweep (-1 / 2) (1 / 2) (mkTargets 22050 0) (mkTargets 22050 0))
    as (t & t' & H1 & H2 & H3 & H4 & H5 & _ & _ & _ & _ & H6 & H7); try Lra.lra.
  exists t, t'. repeat split; try assumption; try apply H3; try apply H4.
  apply H5. Lra.lra.
Defined.

End MixerFacts.
